(** * x-ticker-tracker: the background service worker, embedded and verified

    A shallow embedding of the storage and stock-quote code of the extension:

    - [src/background.js]           (module [Background])
    - [src/unnamed/part_000]        (module [Tracker], the tweet tracker worker)
    - [src/TICKER_HANDOFF.md], section 5, the [background.js] listing with the
      local-server and direct adapters (module [Handoff]), and the symbol
      normalisation of its [stock_server.py] (module [StockServer]).

    Functions that are textually the same in several of these files are
    embedded once (module [Shared]); a function body is split into named
    steps where several functions share the step.

    Conventions.
    - A JavaScript object used as a map is an association list of its own
      properties, with distinct keys, kept in property enumeration order.
      The quote cache is keyed by the symbols the content script asks for,
      one to five capital letters, for which that order is insertion order.
      The count objects of [getStats] and the author tags are keyed by
      handles taken from the page: there a read [o[k]] of a name the object
      does not own goes to [Object.prototype], and a new name that is an
      array index is enumerated before the others (module [Plain]).
      [Object.prototype] is the one the engine provides: the worker is taken
      at its start, before any write has reached the prototype.
    - Numbers that hold prices are IEEE-754 binary64 values ([float]);
      epoch milliseconds are integers ([Z]); counts are [nat].
    - Strings are sequences of code units below 256, so that the [length]
      of a string is the number of its characters.
    - An [async] function is a computation over the [World]: the extension
      storage, the clock, the network and the log of issued requests.  A
      computation either returns a value or throws; no handler of the code
      looks at the thrown value, so it is not represented.  [chrome.storage]
      is the opaque key-value store of the specification: [get] and [set]
      always complete.  [console.log] and [console.error] are not observable
      and are left out. *)

From Stdlib Require Import Floats.PrimFloat Floats.FloatOps Floats.SpecFloat.
From Stdlib Require Import ZArith List String Ascii DecimalString Bool Arith Lia.
From Stdlib Require Import Sorting.Permutation Sorting.Sorted.
Import ListNotations.

Set Implicit Arguments.
Local Open Scope string_scope.
Local Open Scope list_scope.

(** ** JavaScript building blocks *)

Module JS.

Section Objects.
Variable V : Type.

(** An object whose own properties are all string-keyed data properties. *)
Definition object := list (string * V).

(** [o[k]] : the value, or [None] for [undefined]. *)
Fixpoint get (o : object) (k : string) : option V :=
  match o with
  | [] => None
  | (k', v) :: o' => if String.eqb k' k then Some v else get o' k
  end.

(** [o[k] = v] : an existing key keeps its place, a new key goes last. *)
Fixpoint set (o : object) (k : string) (v : V) : object :=
  match o with
  | [] => [(k, v)]
  | (k', v') :: o' =>
      if String.eqb k' k then (k', v) :: o' else (k', v') :: set o' k v
  end.

Definition keys (o : object) : list string := map fst o.

(** [Object.entries(o)] *)
Definition entries (o : object) : list (string * V) := o.

(** [Object.fromEntries(l)] : later pairs overwrite earlier ones. *)
Definition fromEntries (l : list (string * V)) : object :=
  fold_left (fun o kv => set o (fst kv) (snd kv)) l [].
End Objects.

Section Arrays.
Variable A : Type.

(** [a.slice(0, n)] *)
Definition slice0 (n : nat) (a : list A) : list A := firstn n a.

(** [a.pop()] : the array without its last element. *)
Definition pop (a : list A) : list A := removelast a.

(** [a.unshift(x)] *)
Definition unshift (x : A) (a : list A) : list A := x :: a.

(** [a.sort(cmp)] : [cmp a b] is the comparator's result; a negative or
    zero result leaves [a] before [b].  The sort is stable (ECMAScript 2019),
    which determines its result for a consistent comparator: it is the
    result of inserting the elements one by one, from the last to the
    first, each in front of the first element it need not follow. *)
Variable cmp : A -> A -> Z.

Fixpoint insert (x : A) (l : list A) : list A :=
  match l with
  | [] => [x]
  | y :: l' => if (cmp x y <=? 0)%Z then x :: l else y :: insert x l'
  end.

Fixpoint sort (l : list A) : list A :=
  match l with
  | [] => []
  | x :: l' => insert x (sort l')
  end.
End Arrays.

End JS.

(** ** Object literals indexed by names from the page

    [{}] inherits the properties of [Object.prototype], so [o[k]] finds a
    value for a name such as [constructor] that [o] does not own.  Own
    properties are enumerated with the array indices first, in ascending
    order, and the other names after them in the order of their creation. *)

Module Plain.

(** The properties of [Object.prototype]. *)
Definition Object_prototype : list string :=
  ["constructor"; "__defineGetter__"; "__defineSetter__"; "hasOwnProperty";
   "__lookupGetter__"; "__lookupSetter__"; "isPrototypeOf"; "propertyIsEnumerable";
   "toString"; "valueOf"; "__proto__"; "toLocaleString"].

Definition inherits (k : string) : bool := existsb (String.eqb k) Object_prototype.

(** What [o[k]] finds: the value of the own property; or the inherited
    property, a function ([Object.prototype] itself for [__proto__]), which
    is truthy; or nothing. *)
Inductive Read (V : Type) : Type :=
| Own (v : V)
| Inherited
| Undefined.

Arguments Own {V} v.
Arguments Inherited {V}.
Arguments Undefined {V}.

Definition read {V} (o : JS.object V) (k : string) : Read V :=
  match JS.get o k with
  | Some v => Own v
  | None => if inherits k then Inherited else Undefined
  end.

(** [String(Object.prototype[k])], as V8 prints a built-in function. *)
Definition text_of_inherited (k : string) : string :=
  if String.eqb k "constructor" then "function Object() { [native code] }"
  else if String.eqb k "__proto__" then "[object Object]"
  else "function " ++ k ++ "() { [native code] }".

Definition digit_of (c : ascii) : option N :=
  let n := N_of_ascii c in
  if (48 <=? n)%N && (n <=? 57)%N then Some (n - 48)%N else None.

Fixpoint number_of (s : string) (acc : N) : option N :=
  match s with
  | EmptyString => Some acc
  | String c rest =>
      match digit_of c with
      | Some d => number_of rest (10 * acc + d)%N
      | None => None
      end
  end.

(** The array index a name stands for, if any: the name is the decimal
    numeral, without a leading zero, of a number below [2^32 - 1]. *)
Definition index_of (k : string) : option N :=
  match k with
  | EmptyString => None
  | String c rest =>
      if Ascii.eqb c "0" && negb (String.eqb rest "") then None
      else match number_of k 0 with
           | Some n => if (n <? 4294967295)%N then Some n else None
           | None => None
           end
  end.

(** The place of a new array index [i]: in front of the first name that is
    a larger index or no index. *)
Fixpoint place {V} (i : N) (k : string) (v : V) (o : JS.object V) : JS.object V :=
  match o with
  | [] => [(k, v)]
  | (k', v') :: rest =>
      match index_of k' with
      | Some j => if (j <? i)%N then (k', v') :: place i k v rest else (k, v) :: o
      | None => (k, v) :: o
      end
  end.

(** [o[k] = v] for a name that [o] neither owns nor inherits. *)
Definition create {V} (o : JS.object V) (k : string) (v : V) : JS.object V :=
  match index_of k with
  | Some i => place i k v o
  | None => o ++ [(k, v)]
  end.

End Plain.

(** The comparator [(a, b) => b[1].f - a[1].f] on integer-valued fields. *)
Definition descending (A : Type) (f : A -> Z) (a b : A) : Z := (f b - f a)%Z.

(** [s || d] on strings: the empty string is falsy; [None] is a missing
    ([undefined]) or [null] property. *)
Definition or_else (s : option string) (d : string) : string :=
  match s with
  | Some x => if String.eqb x "" then d else x
  | None => d
  end.

(** A property that holds a number, [null], or is missing. *)
Inductive number : Type :=
| JUndefined
| JNull
| JNum (x : float).

(** Truthiness of such a property: [0], [-0] and [NaN] are falsy. *)
Definition truthy (v : number) : bool :=
  match v with
  | JNum x => negb (PrimFloat.eqb x 0) && PrimFloat.eqb x x
  | _ => false
  end.

(** [v !== null] *)
Definition not_null (v : number) : bool :=
  match v with
  | JNull => false
  | _ => true
  end.

Definition of_nullable (v : option float) : number :=
  match v with
  | Some x => JNum x
  | None => JNull
  end.

(** What the host provides and this development does not define:
    [Number.prototype.toFixed] with two digits. *)
Class Host : Type := { toFixed2 : float -> string }.

(** ** The data model *)

(** The quote object built by the adapters.  The quote of
    [src/background.js] has no [marketCap], [marketCapFormatted] or [source]
    property: there they read [undefined] ([JUndefined], [None]). *)
Record StockInfo : Type := {
  symbol : string;
  name : string;
  currentPrice : number;
  priceFormatted : string;
  currency : string;
  marketCap : number;
  marketCapFormatted : option string;
  performance : JS.object number;
  source : option string
}.

(** [{ symbol, name: symbol, error: true }] *)
Record ErrorMarker : Type := {
  e_symbol : string;
  e_name : string;
  error : bool
}.

(** What [fetchStockInfo] resolves to. *)
Inductive Quote : Type :=
| Info (q : StockInfo)
| Failed (m : ErrorMarker).

(** [{ data: stockInfo, timestamp: Date.now() }] *)
Record CacheEntry : Type := {
  data : StockInfo;
  timestamp : Z
}.

Definition Cache : Type := JS.object CacheEntry.

(** A saved tweet, as [getTweetData] and [handleModalSave] of the content
    script build it. *)
Record Tweet : Type := {
  id : string;
  url : string;
  text : string;
  author : string;
  authorDisplayName : string;
  tickers : list string;
  images : list string;
  tweetedAt : option string;
  savedAt : string;
  actionable : bool;
  comment : string
}.

(** An entry of the author-tag map.  [createdAt] and [updatedAt] hold the
    instant whose ISO-8601 rendering the code stores. *)
Record AuthorTag : Type := {
  handle : string;
  displayName : string;
  tags : list string;
  notes : string;
  tweetCount : nat;
  createdAt : Z;
  updatedAt : Z
}.

(** [{ success, duplicate }]; [duplicate] is [None] where the object has no
    such property. *)
Record Ack : Type := {
  success : bool;
  duplicate : option bool
}.

(** The value of a property of a count object: a count, or the text that
    [+ 1] made of a value that was no number. *)
Inductive Counted : Type :=
| Num (n : nat)
| Str (s : string).

Record Stats : Type := {
  totalTweets : nat;
  totalTickers : nat;
  topTickers : list (string * Counted);
  topAuthors : list (string * Counted);
  recentTweets : list Tweet
}.

(** *** The wire formats *)

(** The body of the local server's [/quote/<symbol>] answer. *)
Record LocalData : Type := {
  d_error : bool;
  d_symbol : string;
  d_name : string;
  d_price : number;
  d_priceFormatted : option string;
  d_currency : option string;
  d_marketCap : number;
  d_marketCapFormatted : option string;
  d_performance : option (JS.object number)
}.

(** [chart.result[0].meta] of the chart endpoint. *)
Record Meta : Type := {
  shortName : option string;
  longName : option string;
  regularMarketPrice : number;
  previousClose : number;
  m_currency : option string
}.

(** [chart.result[0]]: its [meta], and [indicators.quote[0].close]; [None]
    where a link of the optional chain is missing. *)
Record ChartResult : Type := {
  meta : option Meta;
  close : option (list (option float))
}.

(** [data.chart?.result?.[0]] of a parsed body. *)
Definition ChartData : Type := option ChartResult.

(** What [fetch(url)] followed by [response.json()] can do. *)
Inductive Fetched (A : Type) : Type :=
| Rejected
| Response (ok : bool) (json : option A).
Arguments Rejected {A}.

(** ** The world and the computations over it *)

Record World : Type := {
  savedTweets : option (list Tweet);
  stockCache : option Cache;
  authorTags : option (JS.object AuthorTag);
  clock : nat -> Z;
  ticks : nat;
  localServer : nat -> string -> Fetched LocalData;
  yahoo : nat -> string -> Fetched ChartData;
  requests : list string
}.

Definition set_savedTweets (v : list Tweet) (w : World) : World :=
  {| savedTweets := Some v; stockCache := stockCache w; authorTags := authorTags w;
     clock := clock w; ticks := ticks w; localServer := localServer w;
     yahoo := yahoo w; requests := requests w |}.

Definition set_stockCache (v : Cache) (w : World) : World :=
  {| savedTweets := savedTweets w; stockCache := Some v; authorTags := authorTags w;
     clock := clock w; ticks := ticks w; localServer := localServer w;
     yahoo := yahoo w; requests := requests w |}.

Definition set_authorTags (v : JS.object AuthorTag) (w : World) : World :=
  {| savedTweets := savedTweets w; stockCache := stockCache w; authorTags := Some v;
     clock := clock w; ticks := ticks w; localServer := localServer w;
     yahoo := yahoo w; requests := requests w |}.

Definition tick (w : World) : World :=
  {| savedTweets := savedTweets w; stockCache := stockCache w; authorTags := authorTags w;
     clock := clock w; ticks := S (ticks w); localServer := localServer w;
     yahoo := yahoo w; requests := requests w |}.

Definition log_request (u : string) (w : World) : World :=
  {| savedTweets := savedTweets w; stockCache := stockCache w; authorTags := authorTags w;
     clock := clock w; ticks := ticks w; localServer := localServer w;
     yahoo := yahoo w; requests := requests w ++ [u] |}.

Inductive Outcome (A : Type) : Type :=
| Returns (a : A)
| Throws.
Arguments Throws {A}.

Definition M (A : Type) : Type := World -> Outcome A * World.

Definition ret {A} (a : A) : M A := fun w => (Returns a, w).

Definition throw {A} : M A := fun w => (Throws, w).

Definition bind {A B} (m : M A) (k : A -> M B) : M B :=
  fun w =>
    match m w with
    | (Returns a, w') => k a w'
    | (Throws, w') => (Throws, w')
    end.

(** [try { m } catch (error) { h }] *)
Definition try_catch {A} (m : M A) (h : M A) : M A :=
  fun w =>
    match m w with
    | (Returns a, w') => (Returns a, w')
    | (Throws, w') => h w'
    end.

Declare Scope js_scope.
Delimit Scope js_scope with js.
Notation "x <- m ;; k" := (bind m (fun x => k))
  (at level 61, m at next level, right associativity) : js_scope.
Notation "m ;; k" := (bind m (fun _ => k))
  (at level 61, right associativity) : js_scope.
Local Open Scope js_scope.

(** [Date.now()]: each reading consumes one value of the clock. *)
Definition Date_now : M Z :=
  fun w => (Returns (clock w (ticks w)), tick w).

(** [await fetch(url)] and [await response.json()] against either host.  The
    answer may depend on the url and on the number of requests made before. *)
Definition fetch {A} (net : World -> nat -> string -> Fetched A) (u : string) : M (Fetched A) :=
  fun w =>
    match net w (List.length (requests w)) u with
    | Rejected => (Throws, log_request u w)
    | r => (Returns r, log_request u w)
    end.

Definition response_ok {A} (r : Fetched A) : bool :=
  match r with
  | Response ok _ => ok
  | Rejected => false
  end.

Definition response_json {A} (r : Fetched A) : M A :=
  match r with
  | Response _ (Some body) => ret body
  | _ => throw
  end.

(** ** Functions common to the listings *)

Module Shared.

Definition CACHE_DURATION : Z := 15 * 60 * 1000.

Definition chart_url (symbol query : string) : string :=
  "https://query1.finance.yahoo.com/v8/finance/chart/" ++ symbol ++ "?" ++ query.

(** The first loop of [fetchPerformanceForRange]: the first element that is
    not [null], going up from index 0. *)
Fixpoint first_valid (closes : list (option float)) : option float :=
  match closes with
  | [] => None
  | Some c :: _ => Some c
  | None :: rest => first_valid rest
  end.

(** The second loop: the first element that is not [null], going down from
    the last index. *)
Definition last_valid (closes : list (option float)) : option float :=
  first_valid (rev closes).

(** Lines 29-48 of [fetchPerformanceForRange]: from the [close] array to the
    returned value. *)
Definition performance_of_closes (closes : list (option float)) : option float :=
  let startPrice := first_valid closes in
  let endPrice := last_valid closes in
  match startPrice, endPrice with
  | Some s, Some e =>
      if PrimFloat.eqb s 0 then None else Some (((e - s) / s) * 100)%float
  | _, _ => None
  end.

Definition fetchPerformanceForRange (symbol range interval : string) : M (option float) :=
  try_catch
    (response <- fetch yahoo (chart_url symbol ("range=" ++ range ++ "&interval=" ++ interval)) ;;
     if negb (response_ok response) then ret None else
     result <- response_json response ;;
     match result with
     | None => ret None
     | Some result =>
         match close result with
         | None => ret None
         | Some closes =>
             if Nat.eqb (List.length closes) 0 then ret None
             else ret (performance_of_closes closes)
         end
     end)
    (ret None).

(** [meta.regularMarketPrice?.toFixed(2) || 'N/A'] *)
Definition price_or_NA {host : Host} (price : number) : string :=
  match price with
  | JNum p => or_else (Some (toFixed2 p)) "N/A"
  | _ => "N/A"
  end.

(** The guarded one-day performance:
    [if (meta.regularMarketPrice && meta.previousClose && meta.previousClose !== 0)]. *)
Definition day_performance (m : Meta) : option float :=
  match regularMarketPrice m, previousClose m with
  | JNum p, JNum c =>
      if truthy (JNum p) && truthy (JNum c) && negb (PrimFloat.eqb c 0)
      then Some (((p - c) / c) * 100)%float
      else None
  | _, _ => None
  end.

(** The [if (meta) { ... }] block of the quote request, the same in the
    direct adapter and in [fetchStockInfo] of [src/background.js]. *)
Definition apply_meta {host : Host} (sym : string) (m : Meta) (stockInfo : StockInfo)
  : StockInfo :=
  {| symbol := symbol stockInfo;
     name := or_else (shortName m) (or_else (longName m) sym);
     currentPrice := regularMarketPrice m;
     priceFormatted := price_or_NA (regularMarketPrice m);
     currency := or_else (m_currency m) "USD";
     marketCap := marketCap stockInfo;
     marketCapFormatted := marketCapFormatted stockInfo;
     performance :=
       match day_performance m with
       | Some p => JS.set (performance stockInfo) "1D" (JNum p)
       | None => performance stockInfo
       end;
     source := source stockInfo |}.

(** [if (quoteResponse.ok) { ... }] : read the body and apply its [meta]. *)
Definition read_quote {host : Host} (sym : string) (quoteResponse : Fetched ChartData)
    (stockInfo : StockInfo) : M StockInfo :=
  if response_ok quoteResponse then
    quoteData <- response_json quoteResponse ;;
    match quoteData with
    | Some result =>
        match meta result with
        | Some m => ret (apply_meta sym m stockInfo)
        | None => ret stockInfo
        end
    | None => ret stockInfo
    end
  else ret stockInfo.

(** The four range requests joined by [Promise.all], and the four
    assignments to [stockInfo.performance]. *)
Definition with_range_performance (sym : string) (stockInfo : StockInfo) : M StockInfo :=
  perf1M <- fetchPerformanceForRange sym "1mo" "1d" ;;
  perfYTD <- fetchPerformanceForRange sym "ytd" "1d" ;;
  perf1Y <- fetchPerformanceForRange sym "1y" "1d" ;;
  perf5Y <- fetchPerformanceForRange sym "5y" "1wk" ;;
  let p := performance stockInfo in
  let p := JS.set p "1M" (of_nullable perf1M) in
  let p := JS.set p "YTD" (of_nullable perfYTD) in
  let p := JS.set p "1Y" (of_nullable perf1Y) in
  let p := JS.set p "5Y" (of_nullable perf5Y) in
  ret {| symbol := symbol stockInfo; name := name stockInfo;
         currentPrice := currentPrice stockInfo;
         priceFormatted := priceFormatted stockInfo;
         currency := currency stockInfo; marketCap := marketCap stockInfo;
         marketCapFormatted := marketCapFormatted stockInfo;
         performance := p; source := source stockInfo |}.

(** [result[STOCK_CACHE_KEY] || {}] *)
Definition getStockCache : M Cache :=
  fun w => (Returns (match stockCache w with Some c => c | None => [] end), w).

Definition by_timestamp : string * CacheEntry -> string * CacheEntry -> Z :=
  descending (fun e => timestamp (snd e)).

(** The object [saveStockCache] stores. *)
Definition limit_cache (cache : Cache) : Cache :=
  let entries := JS.entries cache in
  if Nat.ltb 50 (List.length entries)
  then JS.fromEntries (JS.slice0 50 (JS.sort by_timestamp entries))
  else cache.

Definition saveStockCache (cache : Cache) : M unit :=
  fun w => (Returns tt, set_stockCache (limit_cache cache) w).

(** [cache[symbol] = { data: stockInfo, timestamp: Date.now() };
     await saveStockCache(cache);] *)
Definition put (cache : Cache) (symbol : string) (stockInfo : StockInfo) : M unit :=
  now <- Date_now ;;
  saveStockCache (JS.set cache symbol {| data := stockInfo; timestamp := now |}).

(** [cached && Date.now() - cached.timestamp < CACHE_DURATION]: the cached
    quote when the test holds.  The clock is read only when [cached] exists. *)
Definition fresh_entry (cache : Cache) (sym : string) : M (option StockInfo) :=
  match JS.get cache sym with
  | Some cached =>
      now <- Date_now ;;
      ret (if (now - timestamp cached <? CACHE_DURATION)%Z then Some (data cached) else None)
  | None => ret None
  end.

Definition error_marker (sym : string) : ErrorMarker :=
  {| e_symbol := sym; e_name := sym; error := true |}.

(** [result[STORAGE_KEY] || []] *)
Definition getSavedTweets : M (list Tweet) :=
  fun w => (Returns (match savedTweets w with Some l => l | None => [] end), w).

Definition saveTweets (tweets : list Tweet) : M unit :=
  fun w => (Returns tt, set_savedTweets tweets w).

(** *** [JSON.stringify] of the tweet list *)

Definition dquote : string := String (ascii_of_nat 34) "".

Definition hex_digit (n : nat) : ascii :=
  if Nat.ltb n 10 then ascii_of_nat (48 + n) else ascii_of_nat (87 + n).

(** One code unit of a quoted JSON string. *)
Definition escape_char (c : ascii) : string :=
  let n := nat_of_ascii c in
  if Nat.eqb n 34 then "\" ++ dquote
  else if Nat.eqb n 92 then "\\"
  else if Nat.eqb n 8 then "\b"
  else if Nat.eqb n 9 then "\t"
  else if Nat.eqb n 10 then "\n"
  else if Nat.eqb n 12 then "\f"
  else if Nat.eqb n 13 then "\r"
  else if Nat.ltb n 32 then "\u00" ++ String (hex_digit (n / 16)) (String (hex_digit (n mod 16)) "")
  else String c "".

Fixpoint escape (s : string) : string :=
  match s with
  | EmptyString => ""
  | String c rest => escape_char c ++ escape rest
  end.

Definition json_string (s : string) : string := dquote ++ escape s ++ dquote.

Definition json_array (items : list string) : string :=
  "[" ++ String.concat "," items ++ "]".

Definition json_member (k v : string) : string := dquote ++ k ++ dquote ++ ":" ++ v.

Definition json_bool (b : bool) : string := if b then "true" else "false".

Definition json_tweet (t : Tweet) : string :=
  "{" ++ String.concat ","
    [ json_member "id" (json_string (id t));
      json_member "url" (json_string (url t));
      json_member "text" (json_string (text t));
      json_member "author" (json_string (author t));
      json_member "authorDisplayName" (json_string (authorDisplayName t));
      json_member "tickers" (json_array (map json_string (tickers t)));
      json_member "images" (json_array (map json_string (images t)));
      json_member "tweetedAt"
        (match tweetedAt t with Some d => json_string d | None => "null" end);
      json_member "savedAt" (json_string (savedAt t));
      json_member "actionable" (json_bool (actionable t));
      json_member "comment" (json_string (comment t)) ] ++ "}".

Definition JSON_stringify (tweets : list Tweet) : string :=
  json_array (map json_tweet tweets).

(** *** [getStats] *)

(** [counts[k] = (counts[k] || 0) + 1].  A name the object inherits reads
    as a function, which [+ 1] turns into text; the assignment then creates
    the own property, except for [__proto__], whose setter ignores a value
    that is no object. *)
Definition bump (counts : JS.object Counted) (k : string) : JS.object Counted :=
  match Plain.read counts k with
  | Plain.Own (Num n) => JS.set counts k (Num (n + 1))
  | Plain.Own (Str s) =>
      JS.set counts k (if String.eqb s "" then Num 1 else Str (s ++ "1"))
  | Plain.Inherited =>
      if String.eqb k "__proto__" then counts
      else Plain.create counts k (Str (Plain.text_of_inherited k ++ "1"))
  | Plain.Undefined => Plain.create counts k (Num 1)
  end.

(** The body of [tweets.forEach(tweet => ...)] on the two count objects. *)
Definition count_tweet (counts : JS.object Counted * JS.object Counted) (tweet : Tweet)
  : JS.object Counted * JS.object Counted :=
  let tickerCounts := fold_left bump (tickers tweet) (fst counts) in
  let authorCounts :=
    if String.eqb (author tweet) "" then snd counts else bump (snd counts) (author tweet) in
  (tickerCounts, authorCounts).

(** [(a, b) => b[1] - a[1]].  With a text on either side the difference is
    NaN, which [sort] takes as 0; the comparator is then not consistent and
    the order of the result is left to the engine. *)
Definition by_count (a b : string * Counted) : Z :=
  match snd a, snd b with
  | Num x, Num y => Z.of_nat y - Z.of_nat x
  | _, _ => 0
  end.

(** [Object.entries(counts).sort((a, b) => b[1] - a[1]).slice(0, 5)] *)
Definition top5 (counts : JS.object Counted) : list (string * Counted) :=
  JS.slice0 5 (JS.sort by_count (JS.entries counts)).

Definition stats_of (tweets : list Tweet) : Stats :=
  let counts := fold_left count_tweet tweets ([], []) in
  let tickerCounts := fst counts in
  let authorCounts := snd counts in
  {| totalTweets := List.length tweets;
     totalTickers := List.length (JS.keys tickerCounts);
     topTickers := top5 tickerCounts;
     topAuthors := top5 authorCounts;
     recentTweets := JS.slice0 3 tweets |}.

Definition getStats : M Stats :=
  tweets <- getSavedTweets ;;
  ret (stats_of tweets).

End Shared.

(** ** [src/TICKER_HANDOFF.md]: the resolver with two adapters *)

Module Handoff.
Import Shared.

Section WithHost.
Context {host : Host}.

Definition LOCAL_SERVER_URL : string := "http://localhost:5050".

Definition formatMarketCap (value : number) : string :=
  match value with
  | JNum v =>
      if negb (truthy value) || PrimFloat.eqb v 0 then "N/A"
      else if PrimFloat.leb 1e12 v then "$" ++ toFixed2 (v / 1e12) ++ "T"
      else if PrimFloat.leb 1e9 v then "$" ++ toFixed2 (v / 1e9) ++ "B"
      else if PrimFloat.leb 1e6 v then "$" ++ toFixed2 (v / 1e6) ++ "M"
      else if PrimFloat.leb 1e3 v then "$" ++ toFixed2 (v / 1e3) ++ "K"
      else "$" ++ toFixed2 v
  | _ => "N/A"
  end.

(** [data.price?.toFixed(2) ?? 'N/A'] *)
Definition fixed_or_NA (price : number) : string :=
  match price with
  | JNum p => toFixed2 p
  | _ => "N/A"
  end.

Definition fetchFromLocalServer (sym : string) : M (option StockInfo) :=
  try_catch
    (response <- fetch localServer (LOCAL_SERVER_URL ++ "/quote/" ++ sym) ;;
     if negb (response_ok response) then throw else
     data <- response_json response ;;
     if d_error data then throw else
     ret (Some
       {| symbol := d_symbol data;
          name := d_name data;
          currentPrice := d_price data;
          priceFormatted :=
            or_else (d_priceFormatted data) (fixed_or_NA (d_price data));
          currency := or_else (d_currency data) "USD";
          marketCap := d_marketCap data;
          marketCapFormatted :=
            Some (or_else (d_marketCapFormatted data) (formatMarketCap (d_marketCap data)));
          performance := match d_performance data with Some p => p | None => [] end;
          source := Some "local-server" |}))
    (ret None).

Definition fetchFromYahooFinanceDirect (sym : string) : M StockInfo :=
  quoteResponse <- fetch yahoo (chart_url sym "interval=1d&range=1d") ;;
  let stockInfo :=
    {| symbol := sym; name := sym; currentPrice := JNull;
       priceFormatted := "N/A"; currency := "USD";
       marketCap := JNull; marketCapFormatted := Some "N/A";
       performance := []; source := Some "yahoo-direct" |} in
  stockInfo <- read_quote sym quoteResponse stockInfo ;;
  stockInfo <- with_range_performance sym stockInfo ;;
  if not_null (currentPrice stockInfo) then ret stockInfo else throw.

Definition fetchStockInfo (sym : string) : M Quote :=
  cache <- getStockCache ;;
  cached <- fresh_entry cache sym ;;
  match cached with
  | Some quote => ret (Info quote)
  | None =>
      try_catch
        (stockInfo <- fetchFromLocalServer sym ;;
         stockInfo <- match stockInfo with
                      | Some s => ret s
                      | None => fetchFromYahooFinanceDirect sym
                      end ;;
         put cache sym stockInfo ;;
         ret (Info stockInfo))
        (ret (Failed (error_marker sym)))
  end.

End WithHost.
End Handoff.

(** ** [src/background.js] *)

Module Background.
Import Shared.

Section WithHost.
Context {host : Host}.

Definition fetchStockInfo (sym : string) : M Quote :=
  cache <- getStockCache ;;
  cached <- fresh_entry cache sym ;;
  match cached with
  | Some quote => ret (Info quote)
  | None =>
      try_catch
        (quoteResponse <- fetch yahoo (chart_url sym "interval=1d&range=1d") ;;
         let stockInfo :=
           {| symbol := sym; name := sym; currentPrice := JNull;
              priceFormatted := "N/A"; currency := "USD";
              marketCap := JUndefined; marketCapFormatted := None;
              performance :=
                [("1D", JNull); ("1M", JNull); ("YTD", JNull); ("1Y", JNull); ("5Y", JNull)];
              source := None |} in
         stockInfo <- read_quote sym quoteResponse stockInfo ;;
         stockInfo <- with_range_performance sym stockInfo ;;
         if not_null (currentPrice stockInfo)
         then put cache sym stockInfo ;; ret (Info stockInfo)
         else throw)
        (ret (Failed (error_marker sym)))
  end.

End WithHost.

Definition addTweet (tweetData : Tweet) : M Ack :=
  tweets <- getSavedTweets ;;
  let exists_ := existsb (fun t => String.eqb (id t) (id tweetData)) tweets in
  if exists_ then ret {| success := false; duplicate := Some true |} else
  let tweets := JS.unshift tweetData tweets in
  let dataString := JSON_stringify tweets in
  let tweets :=
    if (90000 <? Z.of_nat (String.length dataString))%Z then JS.pop tweets else tweets in
  saveTweets tweets ;;
  ret {| success := true; duplicate := None |}.

Definition deleteTweet (tweetId : string) : M Ack :=
  tweets <- getSavedTweets ;;
  let filtered := filter (fun t => negb (String.eqb (id t) tweetId)) tweets in
  saveTweets filtered ;;
  ret {| success := true; duplicate := None |}.

End Background.

(** ** [src/unnamed/part_000]: the tweet tracker worker *)

Module Tracker.
Import Shared.

(** [result[AUTHOR_TAGS_KEY] || {}] *)
Definition getAuthorTags : M (JS.object AuthorTag) :=
  fun w => (Returns (match authorTags w with Some t => t | None => [] end), w).

Definition saveAuthorTags (tags_ : JS.object AuthorTag) : M unit :=
  fun w => (Returns tt, set_authorTags tags_ w).

Definition getTweetsByAuthor (h : string) : M (list Tweet) :=
  tweets <- getSavedTweets ;;
  ret (filter (fun t => String.eqb (author t) h) tweets).

Definition updateAuthorTweetCount (h : string) : M unit :=
  if String.eqb h "" then ret tt else
  tweets <- getTweetsByAuthor h ;;
  tags_ <- getAuthorTags ;;
  match Plain.read tags_ h with
  | Plain.Own tag =>
      now <- Date_now ;;
      saveAuthorTags (JS.set tags_ h
        {| handle := handle tag; displayName := displayName tag; tags := tags tag;
           notes := notes tag; tweetCount := List.length tweets;
           createdAt := createdAt tag; updatedAt := now |})
  | Plain.Inherited =>
      (* the two assignments land on the inherited object, not on the map *)
      _ <- Date_now ;;
      saveAuthorTags tags_
  | Plain.Undefined =>
      match tweets with
      | firstTweet :: _ =>
          created <- Date_now ;;
          updated <- Date_now ;;
          saveAuthorTags (Plain.create tags_ h
            {| handle := h;
               displayName := or_else (Some (authorDisplayName firstTweet)) h;
               tags := []; notes := ""; tweetCount := List.length tweets;
               createdAt := created; updatedAt := updated |})
      | [] => ret tt
      end
  end.

Definition addTweet (tweetData : Tweet) : M Ack :=
  tweets <- getSavedTweets ;;
  let exists_ := existsb (fun t => String.eqb (id t) (id tweetData)) tweets in
  if exists_ then ret {| success := false; duplicate := Some true |} else
  let tweets := JS.unshift tweetData tweets in
  let dataString := JSON_stringify tweets in
  let tweets :=
    if (90000 <? Z.of_nat (String.length dataString))%Z then JS.pop tweets else tweets in
  saveTweets tweets ;;
  (if String.eqb (author tweetData) "" then ret tt
   else updateAuthorTweetCount (author tweetData)) ;;
  ret {| success := true; duplicate := None |}.

Definition deleteTweet (tweetId : string) : M Ack :=
  tweets <- getSavedTweets ;;
  let tweetToDelete := find (fun t => String.eqb (id t) tweetId) tweets in
  let filtered := filter (fun t => negb (String.eqb (id t) tweetId)) tweets in
  saveTweets filtered ;;
  match tweetToDelete with
  | Some t => if String.eqb (author t) "" then ret tt else updateAuthorTweetCount (author t)
  | None => ret tt
  end ;;
  ret {| success := true; duplicate := None |}.

End Tracker.

(** ** [stock_server.py] of [src/TICKER_HANDOFF.md]: the symbol normalisation

    [symbol = symbol.upper().strip()] in [get_quote], on strings of code units
    below 128 (other code units are left as they are). *)

Module StockServer.

Definition upper_char (c : ascii) : ascii :=
  let n := nat_of_ascii c in
  if Nat.leb 97 n && Nat.leb n 122 then ascii_of_nat (n - 32) else c.

Fixpoint upper (s : string) : string :=
  match s with
  | EmptyString => EmptyString
  | String c rest => String (upper_char c) (upper rest)
  end.

Definition is_space (c : ascii) : bool :=
  let n := nat_of_ascii c in
  (Nat.leb 9 n && Nat.leb n 13) || (Nat.leb 28 n && Nat.leb n 32).

Fixpoint lstrip (s : string) : string :=
  match s with
  | EmptyString => EmptyString
  | String c rest => if is_space c then lstrip rest else s
  end.

Definition reverse (s : string) : string :=
  string_of_list_ascii (rev (list_ascii_of_string s)).

Definition rstrip (s : string) : string := reverse (lstrip (reverse s)).

Definition strip (s : string) : string := rstrip (lstrip s).

Definition normalize (sym : string) : string := strip (upper sym).

End StockServer.

(** The symbols the content script asks for: a match of
    [TICKER_REGEX = /\$([A-Z]{1,5})\b/g] without its dollar sign. *)
Definition is_upper_letter (c : ascii) : bool :=
  let n := nat_of_ascii c in Nat.leb 65 n && Nat.leb n 90.

Definition is_ticker (s : string) : bool :=
  forallb is_upper_letter (list_ascii_of_string s)
  && Nat.leb 1 (String.length s) && Nat.leb (String.length s) 5.

(** ** A host

    [toFixed(2)] by exact arithmetic on the binary64 value: the integer [n]
    with [n / 100] nearest to the magnitude, the larger one on a tie.  It is
    [Number.prototype.toFixed] for magnitudes below [1e21]. *)

Definition digits (z : Z) : string := NilZero.string_of_uint (N.to_uint (Z.to_N z)).

Definition two_digits (z : Z) : string :=
  if (z <? 10)%Z then "0" ++ digits z else digits z.

Definition toFixed2_exact (x : float) : string :=
  match Prim2SF x with
  | S754_nan => "NaN"
  | S754_infinity s => if s then "-Infinity" else "Infinity"
  | S754_zero _ => "0.00"
  | S754_finite s m e =>
      let n := (if 0 <=? e then Zpos m * 2 ^ e * 100
                else (Zpos m * 200 + 2 ^ (- e)) / 2 ^ (- e + 1))%Z in
      (if s then "-" else "") ++ digits (n / 100) ++ "." ++ two_digits (n mod 100)
  end.

#[export] Instance exact_host : Host := {| toFixed2 := toFixed2_exact |}.

(** ** Vocabulary of the statements *)

(** [l1] is an initial segment of [l2]. *)
Definition prefix {A} (l1 l2 : list A) : Prop := exists rest, l2 = l1 ++ rest.

(** [l1] is [l2] with some elements left out, the others in their order. *)
Inductive subseq {A} : list A -> list A -> Prop :=
| subseq_nil : subseq [] []
| subseq_skip x l1 l2 : subseq l1 l2 -> subseq l1 (x :: l2)
| subseq_keep x l1 l2 : subseq l1 l2 -> subseq (x :: l1) (x :: l2).

Definition has_key {A} (key : A -> Z) (t : Z) (a : A) : bool := (key a =? t)%Z.

Definition ge_key {A} (key : A -> Z) (a b : A) : Prop := (key b <= key a)%Z.

Definition entry_time (e : string * CacheEntry) : Z := timestamp (snd e).


(** The cache object read by [getStockCache], and the tweet list read by
    [getSavedTweets]. *)
Definition cache_of (w : World) : Cache :=
  match stockCache w with Some c => c | None => [] end.

Definition tweets_of (w : World) : list Tweet :=
  match savedTweets w with Some l => l | None => [] end.

(** The number of non-null closes of a series. *)
Definition valid_closes (closes : list (option float)) : nat :=
  List.length (filter (fun c => match c with Some _ => true | None => false end) closes).

(** A sequence of writes to the cache, as [fetchStockInfo] performs them:
    each one sets [cache[symbol]] on the stored object and stores what
    [saveStockCache] keeps. *)
Definition put_pure (cache : Cache) (p : string * CacheEntry) : Cache :=
  Shared.limit_cache (JS.set cache (fst p) (snd p)).

Definition puts (cache : Cache) (ps : list (string * CacheEntry)) : Cache :=
  fold_left put_pure ps cache.

(** The first non-null close going up from the start, and going down from
    the end. *)
Definition first_close (closes : list (option float)) (s : float) : Prop :=
  exists k rest, closes = repeat None k ++ Some s :: rest.

Definition last_close (closes : list (option float)) (e : float) : Prop :=
  exists rest k, closes = rest ++ Some e :: repeat None k.

(** The test of [fetchStockInfo] on the cached entry of a symbol, at the
    next reading of the clock. *)
Definition fresh (w : World) (sym : string) (e : CacheEntry) : Prop :=
  JS.get (cache_of w) sym = Some e /\
  (clock w (ticks w) - timestamp e < Shared.CACHE_DURATION)%Z.

Definition stale_or_absent (w : World) (sym : string) : Prop :=
  match JS.get (cache_of w) sym with
  | Some e => (Shared.CACHE_DURATION <= clock w (ticks w) - timestamp e)%Z
  | None => True
  end.

(** The world in which the adapters start after a failed cache test: the
    clock has been read if and only if an entry was there. *)
Definition after_lookup (w : World) (sym : string) : World :=
  match JS.get (cache_of w) sym with
  | Some _ => tick w
  | None => w
  end.

(** [w'] differs from [w] at most by requests added to the log. *)
Definition only_requests (w w' : World) : Prop :=
  savedTweets w' = savedTweets w /\ stockCache w' = stockCache w /\
  authorTags w' = authorTags w /\ clock w' = clock w /\ ticks w' = ticks w /\
  localServer w' = localServer w /\ yahoo w' = yahoo w /\
  exists added, requests w' = requests w ++ added.

(** A computation that touches nothing but the network. *)
Definition network_only {A} (m : M A) : Prop :=
  forall w, only_requests w (snd (m w)).

(** The market-cap and source properties of two quotes agree. *)
Definition same_provenance (q q' : StockInfo) : Prop :=
  marketCap q' = marketCap q /\
  marketCapFormatted q' = marketCapFormatted q /\
  source q' = source q.

(** A resolver returns a fresh cached quote at once: no request is made and
    nothing is stored. *)
Definition serves_fresh_entry (resolve : string -> M Quote) : Prop :=
  forall sym w e,
    fresh w sym e ->
    exists w',
      resolve sym w = (Returns (Info (data e)), w') /\
      requests w' = requests w /\ stockCache w' = stockCache w.

(** The length of the serialized tweet list, which [addTweet] compares with
    90000. *)
Definition serialized_size (tweets : list Tweet) : Z :=
  Z.of_nat (String.length (Shared.JSON_stringify tweets)).

Definition has_id (tweetId : string) (t : Tweet) : bool := String.eqb (id t) tweetId.

(** [after] is [before] without the records of the given id: the other
    records are all kept, in their order. *)
Definition removes_id (tweetId : string) (before after : list Tweet) : Prop :=
  subseq after before /\
  (forall t, In t after -> id t <> tweetId) /\
  (forall t, In t before -> id t <> tweetId -> In t after) /\
  List.length after + List.length (filter (has_id tweetId) before) = List.length before.

(** What one [addTweet] of a new record does to the stored list. *)
Definition adds_in_front (tweetData : Tweet) (before after : list Tweet) : Prop :=
  let all := tweetData :: before in
  ((serialized_size all <= 90000)%Z -> after = all) /\
  ((90000 < serialized_size all)%Z -> exists oldest, all = after ++ [oldest]) /\
  prefix after all /\
  List.length before <= List.length after.

(** The list [addTweet] saves for a record whose id is new. *)
Definition saved_by_add (tweetData : Tweet) (tweets : list Tweet) : list Tweet :=
  if (90000 <? serialized_size (tweetData :: tweets))%Z
  then removelast (tweetData :: tweets) else tweetData :: tweets.









(** A computation that never removes a request from the log. *)
Definition requests_grow {A} (m : M A) : Prop :=
  forall w, exists added, requests (snd (m w)) = requests w ++ added.

(** A resolver uses the symbol as it is given: a fresh entry under that
    very key is served; after a failed cache test the first request names
    the symbol in the given url; a returned error marker carries it. *)
Definition uses_symbol_verbatim (resolve : string -> M Quote) (first_url : string -> string)
    (sym : string) : Prop :=
  (forall w e, fresh w sym e -> fst (resolve sym w) = Returns (Info (data e))) /\
  (forall w, stale_or_absent w sym ->
     exists rest, requests (snd (resolve sym w)) = requests w ++ first_url sym :: rest) /\
  (forall w m, fst (resolve sym w) = Returns (Failed m) ->
     m = {| e_symbol := sym; e_name := sym; error := true |}).

(** ** Worlds for the closed examples *)

(** Nothing stored, the clock at 0, every request rejected. *)
Definition offline : World :=
  {| savedTweets := None; stockCache := None; authorTags := None;
     clock := fun _ => 0%Z; ticks := 0;
     localServer := fun _ _ => Rejected;
     yahoo := fun _ _ => Rejected;
     requests := [] |}.

Definition with_yahoo (net : nat -> string -> Fetched ChartData) (w : World) : World :=
  {| savedTweets := savedTweets w; stockCache := stockCache w; authorTags := authorTags w;
     clock := clock w; ticks := ticks w; localServer := localServer w;
     yahoo := net; requests := requests w |}.

Definition with_clock (c : nat -> Z) (w : World) : World :=
  {| savedTweets := savedTweets w; stockCache := stockCache w; authorTags := authorTags w;
     clock := c; ticks := ticks w; localServer := localServer w;
     yahoo := yahoo w; requests := requests w |}.

(** The chart endpoint answers every request with the same [meta] and closes. *)
Definition chart_answers (m : option Meta) (closes : list (option float))
  : nat -> string -> Fetched ChartData :=
  fun _ _ => Response true (Some (Some {| meta := m; close := Some closes |})).

Definition with_cache (c : Cache) (w : World) : World := set_stockCache c w.

Definition with_tweets (l : list Tweet) (w : World) : World := set_savedTweets l w.

Definition with_localServer (net : nat -> string -> Fetched LocalData) (w : World) : World :=
  {| savedTweets := savedTweets w; stockCache := stockCache w; authorTags := authorTags w;
     clock := clock w; ticks := ticks w; localServer := net;
     yahoo := yahoo w; requests := requests w |}.

(** A quote as the direct adapter builds it. *)
Definition sample_quote (sym : string) : StockInfo :=
  {| symbol := sym; name := sym; currentPrice := JNum 150.25;
     priceFormatted := "150.25"; currency := "USD";
     marketCap := JNull; marketCapFormatted := Some "N/A";
     performance := []; source := Some "yahoo-direct" |}.

(** The [n]-th of a series of cache entries, keyed [S0], [S1], ... and
    fetched at instant [n]. *)
Definition sample_entry (n : nat) : string * CacheEntry :=
  let sym := ("S" ++ digits (Z.of_nat n))%string in
  (sym, {| data := sample_quote sym; timestamp := Z.of_nat n |}).

Definition sample_entries (n : nat) : list (string * CacheEntry) :=
  map sample_entry (seq 0 n).

Definition sample_meta : Meta :=
  {| shortName := Some "Apple Inc."; longName := None;
     regularMarketPrice := JNum 150.25; previousClose := JNum 148.5;
     m_currency := Some "USD" |}.

(** The local server is down and the chart endpoint answers. *)
Definition direct_only : World :=
  with_yahoo (chart_answers (Some sample_meta) [Some 100%float; None; Some 110%float]) offline.

(** The chart endpoint answers, and the cache holds fifty entries none of
    which is older than the reading of the clock. *)
Definition crowded_cache : World := with_cache (sample_entries 50) direct_only.

(** The world after the first of two calls, and the quote it returned
    (the sample quote if it returned none). *)
Definition world_after (r : Outcome Quote * World) : World := snd r.

Definition quote_of (r : Outcome Quote * World) (sym : string) : StockInfo :=
  match fst r with
  | Returns (Info q) => q
  | _ => sample_quote sym
  end.

(** A cache with one entry, for AAPL, fetched at instant 0. *)
Definition aapl_cached : World :=
  with_cache [("AAPL", {| data := sample_quote "AAPL"; timestamp := 0 |})] offline.

Definition filler (n : N) : string :=
  string_of_list_ascii (repeat "a"%char (N.to_nat n)).

(** A tweet of the given id whose text has [n] characters. *)
Definition long_tweet (i : string) (n : N) : Tweet :=
  {| id := i; url := "https://x.com/trader/status/" ++ i; text := filler n;
     author := "trader"; authorDisplayName := "Trader"; tickers := ["AAPL"];
     images := []; tweetedAt := None; savedAt := "2024-01-01T00:00:00.000Z";
     actionable := false; comment := "" |}.

Definition short_tweet (i a : string) (ts : list string) : Tweet :=
  {| id := i; url := "https://x.com/" ++ a ++ "/status/" ++ i; text := "text";
     author := a; authorDisplayName := a; tickers := ts;
     images := []; tweetedAt := None; savedAt := "2024-01-01T00:00:00.000Z";
     actionable := false; comment := "" |}.

(** A store of two long tweets, below the limit, and a longer new one. *)
Definition crowded_store : World :=
  with_tweets [long_tweet "2" 44000; long_tweet "1" 44000] offline.

Definition longer_tweet : Tweet := long_tweet "3" 50000.

(** The store of the scenario of the specification: three records with
    tickers AAPL; TSLA and AAPL; GME. *)
Definition three_tweets : list Tweet :=
  [ short_tweet "3" "carol" ["AAPL"];
    short_tweet "2" "bob" ["TSLA"; "AAPL"];
    short_tweet "1" "carol" ["GME"] ].

(** * More of the code

    The rest of the author-tag store of [src/unnamed/part_000], the ticker
    extraction of the content scripts, the filters of the dashboard and the
    preview of the popup. *)

(** ** More JavaScript building blocks *)

Module JSMore.

(** [delete o[k]] *)
Fixpoint delete {V} (o : JS.object V) (k : string) : JS.object V :=
  match o with
  | [] => []
  | (k', v) :: o' => if String.eqb k' k then o' else (k', v) :: delete o' k
  end.

(** [Object.values(o)] *)
Definition values {V} (o : JS.object V) : list V := map snd o.

(** [{ ...a, ...b }] : the properties of [a], then those of [b] assigned in
    their order. *)
Definition spread {V} (a b : JS.object V) : JS.object V :=
  fold_left (fun o kv => JS.set o (fst kv) (snd kv)) b a.

(** [c.toLowerCase()] on a code unit below 256: the capital letters A-Z and
    the capital letters of Latin-1 (C0-DE without the multiplication sign
    D7) move up by 32. *)
Definition lower_char (c : ascii) : ascii :=
  let n := nat_of_ascii c in
  if (Nat.leb 65 n && Nat.leb n 90)
     || (Nat.leb 192 n && Nat.leb n 222 && negb (Nat.eqb n 215))
  then ascii_of_nat (n + 32) else c.

Fixpoint toLowerCase (s : string) : string :=
  match s with
  | EmptyString => EmptyString
  | String c rest => String (lower_char c) (toLowerCase rest)
  end.

(** [s.includes(sub)] *)
Fixpoint includes (s sub : string) : bool :=
  if String.prefix sub s then true
  else match s with
       | EmptyString => false
       | String _ rest => includes rest sub
       end.

(** [a.includes(x)] on an array of strings. *)
Definition array_includes (a : list string) (x : string) : bool :=
  existsb (String.eqb x) a.

(** [[...new Set(a)]] : the first occurrence of each element, in order. *)
Definition dedupe (a : list string) : list string :=
  fold_left (fun seen x => if array_includes seen x then seen else seen ++ [x]) a [].

End JSMore.

(** ** [src/unnamed/part_000]: the author tags *)



(** What [JSON.parse(jsonData)] followed by reading [imported.authorTags]
    gives: an exception with its message, or the property ([None] when it is
    missing or null). *)
Inductive ParsedImport : Type :=
| ParseError (message : string)
| ParsedTags (authorTags_ : option (JS.object AuthorTag)).

(** [{ success, error }] or [{ success, count, merged }] *)
Record ImportReply : Type := {
  imported_ok : bool;
  import_error : option string;
  import_count : option nat;
  import_merged : option bool
}.

Module AuthorStore.
Import Shared.

(** [tags[handle] || null]: [Plain.Undefined] stands for the [null]. *)
Definition getAuthorTag (h : string) : M (Plain.Read AuthorTag) :=
  tags_ <- Tracker.getAuthorTags ;;
  ret (Plain.read tags_ h).


Definition deleteAuthorTag (h : string) : M Ack :=
  tags_ <- Tracker.getAuthorTags ;;
  Tracker.saveAuthorTags (JSMore.delete tags_ h) ;;
  ret {| success := true; duplicate := None |}.

(** [importAuthorTags(jsonData, merge)], on what parsing [jsonData] gives. *)
Definition importAuthorTags (parsed : ParsedImport) (merge : bool) : M ImportReply :=
  match parsed with
  | ParseError message =>
      ret {| imported_ok := false; import_error := Some message;
             import_count := None; import_merged := None |}
  | ParsedTags None =>
      ret {| imported_ok := false;
             import_error := Some "Invalid format: missing authorTags";
             import_count := None; import_merged := None |}
  | ParsedTags (Some imported) =>
      if merge then
        existing <- Tracker.getAuthorTags ;;
        Tracker.saveAuthorTags (JSMore.spread existing imported) ;;
        ret {| imported_ok := true; import_error := None;
               import_count := Some (List.length (JS.keys imported));
               import_merged := Some true |}
      else
        Tracker.saveAuthorTags imported ;;
        ret {| imported_ok := true; import_error := None;
               import_count := Some (List.length (JS.keys imported));
               import_merged := Some false |}
  end.

End AuthorStore.

(** ** The content scripts: [extractTickers]

    [src/content.js], [src/unnamed/part_002] and the content script of
    [src/TICKER_HANDOFF.md] share
    [TICKER_REGEX = /\$([A-Z]{1,5})\b/g] and [extractTickers]. *)

Module Content.

Definition is_dollar (c : ascii) : bool := Nat.eqb (nat_of_ascii c) 36.

(** [\w] : a letter, a digit or the underscore. *)
Definition is_word_char (c : ascii) : bool :=
  let n := nat_of_ascii c in
  (Nat.leb 65 n && Nat.leb n 90) || (Nat.leb 97 n && Nat.leb n 122)
  || (Nat.leb 48 n && Nat.leb n 57) || Nat.eqb n 95.

(** [\b] between a last matched character [before] and the rest [after]. *)
Definition word_boundary (before : ascii) (after : list ascii) : bool :=
  match after with
  | [] => is_word_char before
  | c :: _ => xorb (is_word_char before) (is_word_char c)
  end.

(** One attempt of [[A-Z]{k}\b] at the start of [l]: exactly [k] capital
    letters, then a word boundary. *)
Definition try_letters (k : nat) (l : list ascii) : option (list ascii * list ascii) :=
  let run := firstn k l in
  let after := skipn k l in
  if Nat.eqb (List.length run) k && forallb is_upper_letter run
     && word_boundary (last run "A"%char) after
  then Some (run, after) else None.

(** [[A-Z]{1,5}\b] at the start of [l]: the quantifier is greedy, so five
    letters are tried first, then four, down to one. *)
Definition match_letters (l : list ascii) : option (list ascii * list ascii) :=
  match try_letters 5 l with Some r => Some r | None =>
  match try_letters 4 l with Some r => Some r | None =>
  match try_letters 3 l with Some r => Some r | None =>
  match try_letters 2 l with Some r => Some r | None =>
  try_letters 1 l end end end end.

(** [text.match(TICKER_REGEX)] from a position on: the matches, each without
    its dollar sign, from left to right.  A match is looked for at the first
    position; the search goes on after the match, or at the next position.
    [fuel] bounds the number of positions tried. *)
Fixpoint matches_from (fuel : nat) (l : list ascii) : list string :=
  match fuel with
  | 0 => []
  | S fuel' =>
      match l with
      | [] => []
      | c :: rest =>
          if is_dollar c then
            match match_letters rest with
            | Some (run, after) => string_of_list_ascii run :: matches_from fuel' after
            | None => matches_from fuel' rest
            end
          else matches_from fuel' rest
      end
  end.

(** [matches.map(m => m.slice(1))], or the empty list when [match] gives
    [null]. *)
Definition ticker_matches (text : string) : list string :=
  matches_from (String.length text) (list_ascii_of_string text).

Definition extractTickers (text : string) : list string :=
  JSMore.dedupe (ticker_matches text).

End Content.

(** ** [src/unnamed/part_001] and [src/dashboard/dashboard.js]: the filters *)


Module Dashboard.



(** The callback of [Object.values(allAuthors).filter] in
    [applyAuthorFilters]. *)
Definition keeps_author (search : string) (a : AuthorTag) : bool :=
  let searchTerm := JSMore.toLowerCase search in
  if String.eqb searchTerm "" then true
  else
    let handleMatch := JSMore.includes (JSMore.toLowerCase (handle a)) searchTerm in
    let displayMatch := JSMore.includes (JSMore.toLowerCase (displayName a)) searchTerm in
    let tagsMatch :=
      existsb (fun t => JSMore.includes (JSMore.toLowerCase t) searchTerm) (tags a) in
    let notesMatch := JSMore.includes (JSMore.toLowerCase (notes a)) searchTerm in
    negb (negb handleMatch && negb displayMatch && negb tagsMatch && negb notesMatch).

(** [(a, b) => (b.tweetCount || 0) - (a.tweetCount || 0)] *)
Definition by_tweetCount : AuthorTag -> AuthorTag -> Z :=
  descending (fun a => Z.of_nat (tweetCount a)).

(** [filteredAuthors] after [applyAuthorFilters]. *)
Definition applyAuthorFilters (allAuthors : JS.object AuthorTag) (search : string)
  : list AuthorTag :=
  JS.sort by_tweetCount (filter (keeps_author search) (JSMore.values allAuthors)).

End Dashboard.

(** ** [src/popup/popup.js] *)

Module Popup.

(** [text.slice(0, maxLength)] for a length that is not negative. *)
Definition slice_to (n : nat) (s : string) : string := String.substring 0 n s.

Definition truncate (t : string) (maxLength : nat) : string :=
  if Nat.leb (String.length t) maxLength then t
  else slice_to maxLength t ++ "...".

End Popup.

(** ** Vocabulary of the further statements *)

(** The author-tag map read by [getAuthorTags]. *)
Definition authors_of (w : World) : JS.object AuthorTag :=
  match authorTags w with Some t => t | None => [] end.

(** The number of stored tweets of an author. *)
Definition tweets_by (h : string) (tweets : list Tweet) : nat :=
  List.length (filter (fun t => String.eqb (author t) h) tweets).

(** The entry of [h], when there is one, counts the stored tweets of [h],
    and there is one as soon as a tweet of [h] is stored. *)
Definition count_in_sync (h : string) (w : World) : Prop :=
  (forall tag, JS.get (authors_of w) h = Some tag ->
               tweetCount tag = tweets_by h (tweets_of w)) /\
  (0 < tweets_by h (tweets_of w) -> exists tag, JS.get (authors_of w) h = Some tag).

(** An entry the map owns for [h] counts the stored tweets of [h]. *)
Definition counts_own_entry (h : string) (w : World) : Prop :=
  forall tag, JS.get (authors_of w) h = Some tag ->
              tweetCount tag = tweets_by h (tweets_of w).

(** Worlds for the examples of the author store. *)
Definition sample_tag (h : string) (n : nat) : AuthorTag :=
  {| handle := h; displayName := h; tags := ["macro"]; notes := "reads filings";
     tweetCount := n; createdAt := 5; updatedAt := 7 |}.

Definition with_authors (t : JS.object AuthorTag) (w : World) : World := set_authorTags t w.

Definition two_authors : World :=
  with_authors [("carol", sample_tag "carol" 2); ("bob", sample_tag "bob" 1)]
    (with_tweets three_tweets offline).

(** The urls a resolver can ask for, in the order of the code. *)
Definition local_url (sym : string) : string :=
  (Handoff.LOCAL_SERVER_URL ++ "/quote/" ++ sym)%string.

Definition quote_url (sym : string) : string :=
  Shared.chart_url sym "interval=1d&range=1d".

Definition range_urls (sym : string) : list string :=
  [ Shared.chart_url sym "range=1mo&interval=1d";
    Shared.chart_url sym "range=ytd&interval=1d";
    Shared.chart_url sym "range=1y&interval=1d";
    Shared.chart_url sym "range=5y&interval=1wk" ].

(** [w'] has the storage of [w]. *)
Definition same_storage (w w' : World) : Prop :=
  stockCache w' = stockCache w /\ savedTweets w' = savedTweets w /\
  authorTags w' = authorTags w.

(** The instant a call that misses the cache stores with its quote: the
    clock is read once by the cache test when an entry is there, and then by
    the write. *)
Definition write_time (w : World) (sym : string) : Z :=
  clock w (ticks (after_lookup w sym)).

(** The instant of the entry that holds the quote after a call that
    returned one: the timestamp of the fresh entry it served, or the instant
    of its write. *)
Definition fetched_at (w : World) (sym : string) : Z :=
  match JS.get (cache_of w) sym with
  | Some e =>
      if (clock w (ticks w) - timestamp e <? Shared.CACHE_DURATION)%Z
      then timestamp e else write_time w sym
  | None => write_time w sym
  end.

(** The limit of 50 entries does not undo a write for [sym] at the instant
    [t]: the object with the new entry has at most 50 entries, or every
    other entry is strictly older than [t]. *)
Definition survives_limit (c : Cache) (sym : string) (t : Z) : Prop :=
  (forall e, List.length (JS.set c sym e) <= 50) \/
  (forall k e, In (k, e) c -> k <> sym -> (timestamp e < t)%Z).

(** After a call that returned a quote, having asked for an initial segment
    of [urls], the cache holds the quote with the instant [fetched_at]
    (when the call served a fresh entry, or its write survives the limit),
    and a second call whose reading of the clock is less than 15 minutes
    after that instant returns the same quote, makes no request and stores
    nothing. *)
Definition second_call_is_served (resolve : string -> M Quote)
    (urls : string -> list string) : Prop :=
  forall sym w q w1,
    NoDup (JS.keys (cache_of w)) ->
    resolve sym w = (Returns (Info q), w1) ->
    let t := fetched_at w sym in
    (exists added, requests w1 = requests w ++ added /\ prefix added (urls sym)) /\
    clock w1 = clock w /\
    ((exists e, fresh w sym e) \/ survives_limit (cache_of w) sym t ->
     JS.get (cache_of w1) sym = Some {| data := q; timestamp := t |} /\
     ((clock w1 (ticks w1) - t < Shared.CACHE_DURATION)%Z ->
      exists w2,
        resolve sym w1 = (Returns (Info q), w2) /\
        requests w2 = requests w1 /\ stockCache w2 = stockCache w1)).

(** A call that ends in the error marker stores nothing in the cache, and
    the next call, if the clock has not gone back, asks the network again,
    starting with [first_url]. *)
Definition failed_call_is_not_cached (resolve : string -> M Quote)
    (first_url : string -> string) : Prop :=
  forall sym w m w1,
    resolve sym w = (Returns (Failed m), w1) ->
    stockCache w1 = stockCache w /\ clock w1 = clock w /\
    ((clock w (ticks w) <= clock w1 (ticks w1))%Z ->
     exists rest,
       requests (snd (resolve sym w1)) = requests w1 ++ first_url sym :: rest).

(** A local server that answers every request with the same body. *)
Definition local_answers (d : LocalData) : nat -> string -> Fetched LocalData :=
  fun _ _ => Response true (Some d).

Definition sample_local_data : LocalData :=
  {| d_error := false; d_symbol := "AAPL"; d_name := "Apple Inc.";
     d_price := JNum 150.25; d_priceFormatted := Some "150.25";
     d_currency := Some "USD"; d_marketCap := JNum 2.5e12;
     d_marketCapFormatted := Some "$2.50T"; d_performance := None |}.

Definition local_only : World := with_localServer (local_answers sample_local_data) offline.



(** Strings of white space only, and strings inside the domain of
    [StockServer.normalize]. *)
Definition all_space (s : string) : bool :=
  forallb StockServer.is_space (list_ascii_of_string s).

Definition below_128 (s : string) : bool :=
  forallb (fun c => Nat.ltb (nat_of_ascii c) 128) (list_ascii_of_string s).

(** * Verification *)

(** *** Facts about objects *)

Section ObjectFacts.
Variable V : Type.
Implicit Types (o : JS.object V) (k : string) (v : V).

Lemma get_set_same o k v : JS.get (JS.set o k v) k = Some v.
Proof.
  induction o as [|[k' v'] o IH]; simpl.
  - now rewrite String.eqb_refl.
  - destruct (String.eqb k' k) eqn:E; simpl; now rewrite E.
Qed.

Lemma get_set_other o k k' v : k' <> k -> JS.get (JS.set o k v) k' = JS.get o k'.
Proof.
  intros Hne. induction o as [|[k0 v0] o IH]; simpl.
  - destruct (String.eqb_spec k k'); congruence.
  - destruct (String.eqb_spec k0 k) as [->|]; simpl.
    + destruct (String.eqb_spec k k'); congruence.
    + now rewrite IH.
Qed.

Lemma get_None_not_In o k : JS.get o k = None <-> ~ In k (JS.keys o).
Proof.
  induction o as [|[k' v'] o IH]; simpl.
  - tauto.
  - destruct (String.eqb_spec k' k) as [->|Hne].
    + split; [discriminate | tauto].
    + rewrite IH. tauto.
Qed.

Lemma get_Some_In o k v : JS.get o k = Some v -> In (k, v) o.
Proof.
  induction o as [|[k' v'] o IH]; simpl; [discriminate|].
  destruct (String.eqb_spec k' k) as [->|Hne].
  - intros [= ->]. now left.
  - intros H. right. auto.
Qed.

Lemma In_get_NoDup o k v : NoDup (JS.keys o) -> In (k, v) o -> JS.get o k = Some v.
Proof.
  induction o as [|[k' v'] o IH]; simpl; [tauto|].
  intros Hnd [[= -> ->]|Hin].
  - now rewrite String.eqb_refl.
  - inversion Hnd as [|? ? Hk Hnd']; subst.
    destruct (String.eqb_spec k' k) as [->|Hne].
    + exfalso. apply Hk. change k with (fst (k, v)). now apply in_map.
    + auto.
Qed.

Lemma keys_set_present o k v : In k (JS.keys o) -> JS.keys (JS.set o k v) = JS.keys o.
Proof.
  induction o as [|[k' v'] o IH]; simpl; [tauto|].
  destruct (String.eqb_spec k' k) as [->|Hne]; simpl; [reflexivity|].
  intros [?|Hin]; [congruence|]. now rewrite IH.
Qed.

Lemma keys_set_absent o k v : ~ In k (JS.keys o) -> JS.keys (JS.set o k v) = JS.keys o ++ [k].
Proof.
  induction o as [|[k' v'] o IH]; simpl; [reflexivity|].
  destruct (String.eqb_spec k' k) as [->|Hne]; simpl; [tauto|].
  intros Hn. rewrite IH; tauto.
Qed.

Lemma set_absent o k v : ~ In k (JS.keys o) -> JS.set o k v = o ++ [(k, v)].
Proof.
  induction o as [|[k' v'] o IH]; simpl; [reflexivity|].
  destruct (String.eqb_spec k' k) as [->|Hne]; simpl; [tauto|].
  intros Hn. rewrite IH; tauto.
Qed.

Lemma NoDup_keys_set o k v : NoDup (JS.keys o) -> NoDup (JS.keys (JS.set o k v)).
Proof.
  intros Hnd. destruct (in_dec string_dec k (JS.keys o)) as [Hin|Hn].
  - now rewrite keys_set_present.
  - rewrite keys_set_absent by assumption.
    apply NoDup_app; [assumption | repeat constructor; simpl; tauto |].
    intros x Hx [<-|[]]. contradiction.
Qed.

Lemma length_set o k v :
  List.length (JS.set o k v) =
  if in_dec string_dec k (JS.keys o) then List.length o else S (List.length o).
Proof.
  destruct (in_dec string_dec k (JS.keys o)) as [Hin|Hn].
  - rewrite <- (length_map fst (JS.set o k v)), <- (length_map fst o).
    change (map fst ?x) with (JS.keys x). now rewrite keys_set_present.
  - rewrite set_absent by assumption. rewrite length_app. simpl. lia.
Qed.

(** Rebuilding an object from pairs with distinct keys gives the pairs back. *)
Lemma fromEntries_NoDup (l : list (string * V)) :
  NoDup (map fst l) -> JS.fromEntries l = l.
Proof.
  unfold JS.fromEntries.
  assert (G : forall acc, NoDup (map fst (acc ++ l)) ->
            fold_left (fun o kv => JS.set o (fst kv) (snd kv)) l acc = acc ++ l).
  { induction l as [|[k v] l IH]; intros acc Hnd; simpl.
    - now rewrite app_nil_r.
    - rewrite set_absent.
      + rewrite IH; rewrite <- app_assoc; [reflexivity | exact Hnd].
      + rewrite map_app in Hnd. simpl in Hnd.
        apply NoDup_remove_2 in Hnd. unfold JS.keys. intros Hin. apply Hnd.
        apply in_or_app. now left. }
  intros Hnd. apply (G []). exact Hnd.
Qed.
End ObjectFacts.

(** *** Facts about the stable sort by a descending integer field *)

Section SortFacts.
Variables (A : Type) (key : A -> Z).

Abbreviation srt := (JS.sort (descending key)).
Abbreviation ins := (JS.insert (descending key)).

Lemma insert_Permutation x l : Permutation (ins x l) (x :: l).
Proof.
  induction l as [|y l IH]; simpl; [reflexivity|].
  destruct (descending key x y <=? 0)%Z; [reflexivity|].
  rewrite IH. apply perm_swap.
Qed.

Lemma sort_Permutation l : Permutation (srt l) l.
Proof.
  induction l as [|x l IH]; simpl; [reflexivity|].
  rewrite insert_Permutation. now constructor.
Qed.

Lemma sort_length l : List.length (srt l) = List.length l.
Proof. apply Permutation_length, sort_Permutation. Qed.

Lemma insert_sorted x l : StronglySorted (ge_key key) l -> StronglySorted (ge_key key) (ins x l).
Proof.
  induction 1 as [|y l Hl IH Hy]; simpl.
  - repeat constructor.
  - unfold descending at 1.
    destruct (Z.leb_spec (key y - key x) 0) as [Hle|Hgt].
    + constructor; [now constructor|].
      constructor; [unfold ge_key; lia|].
      eapply Forall_impl; [|exact Hy]. unfold ge_key. intros; lia.
    + constructor; [assumption|].
      apply (Permutation_Forall (Permutation_sym (insert_Permutation x l))).
      constructor; [unfold ge_key; lia | assumption].
Qed.

Lemma sort_sorted l : StronglySorted (ge_key key) (srt l).
Proof.
  induction l; simpl; [constructor | now apply insert_sorted].
Qed.

(** Stability: elements with equal keys keep their relative order. *)
Lemma insert_filter t x l :
  filter (has_key key t) (ins x l) = filter (has_key key t) (x :: l).
Proof.
  induction l as [|y l IH]; simpl; [reflexivity|].
  unfold descending at 1.
  destruct (Z.leb_spec (key y - key x) 0) as [Hle|Hgt]; [reflexivity|].
  simpl. rewrite IH. simpl. unfold has_key.
  destruct (Z.eqb_spec (key x) t), (Z.eqb_spec (key y) t); try reflexivity.
  lia.
Qed.

Lemma sort_stable t l : filter (has_key key t) (srt l) = filter (has_key key t) l.
Proof.
  induction l as [|x l IH]; simpl; [reflexivity|].
  rewrite insert_filter. simpl. now rewrite IH.
Qed.

Lemma filter_firstn_prefix (p : A -> bool) n l : prefix (filter p (firstn n l)) (filter p l).
Proof.
  exists (filter p (skipn n l)).
  now rewrite <- filter_app, firstn_skipn.
Qed.

Lemma sorted_firstn_skipn n l :
  StronglySorted (ge_key key) l ->
  forall a b, In a (firstn n l) -> In b (skipn n l) -> (key b <= key a)%Z.
Proof.
  intros Hs. revert n.
  induction Hs as [|x l Hl IH Hx]; intros n a b Ha Hb.
  - destruct n; simpl in *; contradiction.
  - destruct n as [|n]; simpl in *; [contradiction|].
    destruct Ha as [<-|Ha].
    + rewrite Forall_forall in Hx. apply Hx.
      rewrite <- (firstn_skipn n l). apply in_or_app. now right.
    + eauto.
Qed.
End SortFacts.

(** ** The performance of a range *)

Section Performance.
Import Shared.
Implicit Types (closes : list (option float)).

Lemma first_valid_None closes : first_valid closes = None <-> valid_closes closes = 0.
Proof.
  unfold valid_closes.
  induction closes as [|[c|] closes IH]; simpl; [tauto | split; discriminate | exact IH].
Qed.

Lemma first_valid_first_close closes s : first_valid closes = Some s <-> first_close closes s.
Proof.
  split.
  - induction closes as [|[c|] closes IH]; simpl; [discriminate | |].
    + intros [= ->]. now exists 0, closes.
    + intros H. destruct (IH H) as (k & rest & ->). now exists (S k), rest.
  - intros (k & rest & ->). induction k; simpl; auto.
Qed.

Lemma rev_repeat {A} (x : A) k : rev (repeat x k) = repeat x k.
Proof.
  induction k; simpl; [reflexivity|].
  rewrite IHk. clear IHk. induction k; simpl; congruence.
Qed.

Lemma last_valid_last_close closes e : last_valid closes = Some e <-> last_close closes e.
Proof.
  unfold last_valid. rewrite first_valid_first_close. split.
  - intros (k & rest & H). exists (rev rest), k.
    apply (f_equal (@rev _)) in H. rewrite rev_involutive in H. rewrite H.
    rewrite rev_app_distr. simpl. rewrite rev_repeat, <- app_assoc. reflexivity.
  - intros (rest & k & ->). exists k, (rev rest).
    rewrite rev_app_distr. simpl. rewrite rev_repeat, <- app_assoc. reflexivity.
Qed.

Lemma valid_closes_rev closes : valid_closes (rev closes) = valid_closes closes.
Proof.
  unfold valid_closes. induction closes as [|c closes IH]; simpl; [reflexivity|].
  rewrite filter_app, length_app, IH. simpl. destruct c; simpl; lia.
Qed.

(** Both scans succeed as soon as one close is not null. *)
Lemma scans_total closes :
  valid_closes closes <> 0 -> exists s e, first_close closes s /\ last_close closes e.
Proof.
  intros Hn.
  destruct (first_valid closes) as [s|] eqn:Hs.
  2:{ apply first_valid_None in Hs. contradiction. }
  destruct (last_valid closes) as [e|] eqn:He.
  2:{ unfold last_valid in He. apply first_valid_None in He.
      rewrite valid_closes_rev in He. contradiction. }
  exists s, e. split; [now apply first_valid_first_close | now apply last_valid_last_close].
Qed.

Lemma performance_of_closes_scans closes s e :
  first_close closes s -> last_close closes e ->
  performance_of_closes closes =
    if PrimFloat.eqb s 0 then None else Some (((e - s) / s) * 100)%float.
Proof.
  intros Hs He.
  apply first_valid_first_close in Hs. apply last_valid_last_close in He.
  unfold performance_of_closes. now rewrite Hs, He.
Qed.

Lemma performance_of_closes_no_valid closes :
  valid_closes closes = 0 -> performance_of_closes closes = None.
Proof.
  intros H. apply first_valid_None in H. unfold performance_of_closes. now rewrite H.
Qed.

Lemma fetchPerformanceForRange_returns sym range interval w :
  exists r w', fetchPerformanceForRange sym range interval w = (Returns r, w').
Proof.
  unfold fetchPerformanceForRange, try_catch, bind, fetch, ret, throw.
  destruct (yahoo w _ _) as [|[] [[res|]|]]; simpl; eauto.
  destruct (close res) as [closes|]; simpl; eauto.
  destruct (Nat.eqb _ 0); simpl; eauto.
Qed.

Lemma fetchPerformanceForRange_closes sym range interval w m closes :
  yahoo w (List.length (requests w))
    (chart_url sym ("range=" ++ range ++ "&interval=" ++ interval))
    = Response true (Some (Some {| meta := m; close := Some closes |})) ->
  fst (fetchPerformanceForRange sym range interval w) = Returns (performance_of_closes closes).
Proof.
  intros H. unfold fetchPerformanceForRange, try_catch, bind, fetch.
  rewrite H. simpl. destruct closes; reflexivity.
Qed.
End Performance.

(** C1 (amended).  [fetchPerformanceForRange] never throws.  On a series of
    closes it returns null when no close is non-null, and null (never
    [Infinity], never an exception) when the first non-null close is 0;
    otherwise, also when exactly one close is non-null, it returns
    [(lastValidClose - firstValidClose) / firstValidClose * 100], the first
    valid close found going up from the start and the last one found going
    down from the end, each scan skipping nulls. *)
Theorem fetchPerformanceForRange_spec sym range interval w :
  (exists r w', Shared.fetchPerformanceForRange sym range interval w = (Returns r, w')) /\
  forall m closes,
    yahoo w (List.length (requests w))
      (Shared.chart_url sym ("range=" ++ range ++ "&interval=" ++ interval))
      = Response true (Some (Some {| meta := m; close := Some closes |})) ->
    exists r,
      fst (Shared.fetchPerformanceForRange sym range interval w) = Returns r /\
      (valid_closes closes = 0 -> r = None) /\
      (valid_closes closes <> 0 ->
         exists s e, first_close closes s /\ last_close closes e) /\
      (forall s e, first_close closes s -> last_close closes e ->
         r = if PrimFloat.eqb s 0 then None else Some (((e - s) / s) * 100)%float).
Proof.
  split; [apply fetchPerformanceForRange_returns|].
  intros m closes H. exists (Shared.performance_of_closes closes).
  split; [now apply fetchPerformanceForRange_closes with (m := m)|].
  split; [apply performance_of_closes_no_valid|].
  split; [apply scans_total | apply performance_of_closes_scans].
Qed.

Lemma fetchPerformanceForRange_spec_witness :
  let closes := [None; Some 4%float; None; Some 5%float; None] in
  let w := with_yahoo (chart_answers None closes) offline in
  yahoo w (List.length (requests w))
    (Shared.chart_url "AAPL" ("range=" ++ "1mo" ++ "&interval=" ++ "1d"))
    = Response true (Some (Some {| meta := None; close := Some closes |})) /\
  exists r,
    fst (Shared.fetchPerformanceForRange "AAPL" "1mo" "1d" w) = Returns r /\
    (valid_closes closes = 0 -> r = None) /\
    (valid_closes closes <> 0 ->
       exists s e, first_close closes s /\ last_close closes e) /\
    (forall s e, first_close closes s -> last_close closes e ->
       r = if PrimFloat.eqb s 0 then None else Some (((e - s) / s) * 100)%float).
Proof.
  intros closes w. split; [reflexivity|].
  apply (proj2 (fetchPerformanceForRange_spec "AAPL" "1mo" "1d" w) None closes).
  reflexivity.
Defined.

(** C1 as stated fails: a range whose only non-null close is 5 has fewer
    than two valid closes, and its performance is 0, not null. *)
Lemma single_close_performance_is_zero :
  let closes := [None; Some 5%float; None] in
  let w := with_yahoo (chart_answers None closes) offline in
  valid_closes closes < 2 /\
  fst (Shared.fetchPerformanceForRange "AAPL" "1mo" "1d" w) = Returns (Some 0%float) /\
  fst (Shared.fetchPerformanceForRange "AAPL" "1mo" "1d" w) <> Returns None.
Proof.
  intros closes w. split; [vm_compute; lia|].
  split; [reflexivity | discriminate].
Qed.

(** ** The size limit of the quote cache *)

Section CacheLimit.
Import Shared.
Implicit Types (c : Cache).

Lemma NoDup_firstn {A} n (l : list A) : NoDup l -> NoDup (firstn n l).
Proof.
  intros H. rewrite <- (firstn_skipn n l) in H. now apply NoDup_app_remove_r in H.
Qed.

Lemma firstn_map {A B} (f : A -> B) n (l : list A) : firstn n (map f l) = map f (firstn n l).
Proof.
  revert l. induction n; intros [|x l]; simpl; try reflexivity. now rewrite IHn.
Qed.

Lemma newest_NoDup n c :
  NoDup (JS.keys c) -> NoDup (map fst (firstn n (JS.sort by_timestamp c))).
Proof.
  intros H. rewrite <- firstn_map. apply NoDup_firstn.
  eapply Permutation_NoDup; [|exact H].
  apply Permutation_map, Permutation_sym. apply (sort_Permutation entry_time).
Qed.

(** What [saveStockCache] stores when the object has more than 50 keys. *)
Lemma limit_cache_over c :
  NoDup (JS.keys c) -> 50 < List.length c ->
  limit_cache c = firstn 50 (JS.sort by_timestamp c).
Proof.
  intros Hnd Hlen. unfold limit_cache, JS.entries, JS.slice0.
  apply Nat.ltb_lt in Hlen. rewrite Hlen.
  apply fromEntries_NoDup. now apply newest_NoDup.
Qed.

Lemma limit_cache_under c : List.length c <= 50 -> limit_cache c = c.
Proof.
  intros Hlen. unfold limit_cache, JS.entries.
  apply Nat.ltb_ge in Hlen. now rewrite Hlen.
Qed.

Lemma limit_cache_NoDup c : NoDup (JS.keys c) -> NoDup (JS.keys (limit_cache c)).
Proof.
  intros Hnd. destruct (Nat.lt_ge_cases 50 (List.length c)) as [Hlt|Hge].
  - rewrite limit_cache_over by assumption. now apply newest_NoDup.
  - now rewrite limit_cache_under.
Qed.

Lemma limit_cache_length c : NoDup (JS.keys c) -> List.length (limit_cache c) <= 50.
Proof.
  intros Hnd. destruct (Nat.lt_ge_cases 50 (List.length c)) as [Hlt|Hge].
  - rewrite limit_cache_over by assumption. apply firstn_le_length.
  - now rewrite limit_cache_under.
Qed.

Lemma limit_cache_incl c : NoDup (JS.keys c) -> incl (limit_cache c) c.
Proof.
  intros Hnd. destruct (Nat.lt_ge_cases 50 (List.length c)) as [Hlt|Hge].
  - rewrite limit_cache_over by assumption. intros x Hx.
    apply (Permutation_in x (sort_Permutation entry_time c)).
    rewrite <- (firstn_skipn 50 (JS.sort _ c)). apply in_or_app. now left.
  - rewrite limit_cache_under by assumption. apply incl_refl.
Qed.

Lemma put_pure_NoDup c p : NoDup (JS.keys c) -> NoDup (JS.keys (put_pure c p)).
Proof. intros H. apply limit_cache_NoDup, NoDup_keys_set, H. Qed.

Lemma puts_NoDup ps : forall c, NoDup (JS.keys c) -> NoDup (JS.keys (puts c ps)).
Proof.
  unfold puts. induction ps as [|p ps IH]; intros c H; simpl; [exact H|].
  apply IH, put_pure_NoDup, H.
Qed.

Lemma put_stores c sym q w :
  cache_of (snd (put c sym q w))
  = limit_cache (JS.set c sym {| data := q; timestamp := clock w (ticks w) |}).
Proof. reflexivity. Qed.
End CacheLimit.

(** C2.  After any sequence of writes to a cache, a write that leaves the
    cache object with more than 50 entries stores exactly 50 of them: the
    stored entries and the dropped ones together are the entries of the
    object, no dropped entry has a later fetch timestamp than a stored one,
    and among entries with one timestamp the stored ones come first in the
    enumeration (insertion) order of the object. *)
Theorem saveStockCache_keeps_newest_50 c0 ps sym q w :
  NoDup (JS.keys c0) ->
  let cache := puts c0 ps in
  let written := JS.set cache sym {| data := q; timestamp := clock w (ticks w) |} in
  50 < List.length written ->
  let kept := cache_of (snd (Shared.put cache sym q w)) in
  List.length kept = 50 /\
  (exists dropped,
     Permutation (kept ++ dropped) written /\
     forall a b, In a kept -> In b dropped -> (entry_time b <= entry_time a)%Z) /\
  (forall t, prefix (filter (has_key entry_time t) kept)
                    (filter (has_key entry_time t) written)) /\
  NoDup (JS.keys kept).
Proof.
  intros Hnd cache written Hlen kept.
  assert (Hw : NoDup (JS.keys written)) by (apply NoDup_keys_set, puts_NoDup, Hnd).
  assert (Hk : kept = firstn 50 (JS.sort Shared.by_timestamp written)).
  { unfold kept. rewrite put_stores. now apply limit_cache_over. }
  rewrite Hk. repeat split.
  - apply firstn_length_le. change Shared.by_timestamp with (descending entry_time).
    rewrite sort_length. lia.
  - exists (skipn 50 (JS.sort Shared.by_timestamp written)). split.
    + rewrite firstn_skipn. apply (sort_Permutation entry_time).
    + intros a b. apply sorted_firstn_skipn, sort_sorted.
  - intros t. rewrite <- (sort_stable entry_time t written).
    apply filter_firstn_prefix.
  - now apply newest_NoDup.
Qed.

Lemma saveStockCache_keeps_newest_50_witness :
  let c0 : Cache := [] in
  let ps := sample_entries 50 in
  let w := with_clock (fun _ => 100%Z) offline in
  let cache := puts c0 ps in
  let written :=
    JS.set cache "NEW" {| data := sample_quote "NEW"; timestamp := clock w (ticks w) |} in
  let kept := cache_of (snd (Shared.put cache "NEW" (sample_quote "NEW") w)) in
  NoDup (JS.keys c0) /\
  50 < List.length written /\
  List.length kept = 50 /\
  (exists dropped,
     Permutation (kept ++ dropped) written /\
     forall a b, In a kept -> In b dropped -> (entry_time b <= entry_time a)%Z) /\
  (forall t, prefix (filter (has_key entry_time t) kept)
                    (filter (has_key entry_time t) written)) /\
  NoDup (JS.keys kept).
Proof.
  intros c0 ps w cache written kept.
  assert (H0 : NoDup (JS.keys c0)) by constructor.
  assert (H1 : 50 < List.length written) by (vm_compute; lia).
  split; [exact H0|]. split; [exact H1|].
  exact (@saveStockCache_keeps_newest_50 c0 ps "NEW" (sample_quote "NEW") w H0 H1).
Defined.

(** ** The resolver *)

Section Resolver.
Import Shared.
Context {host : Host}.


Lemma fresh_entry_hit w sym e :
  fresh w sym e ->
  fresh_entry (cache_of w) sym w = (Returns (Some (data e)), tick w).
Proof.
  intros [Hget Hlt]. unfold fresh_entry. rewrite Hget.
  unfold bind, Date_now, ret. apply Z.ltb_lt in Hlt. now rewrite Hlt.
Qed.

Lemma fresh_entry_miss w sym :
  stale_or_absent w sym ->
  fresh_entry (cache_of w) sym w = (Returns None, after_lookup w sym).
Proof.
  unfold stale_or_absent, after_lookup, fresh_entry.
  destruct (JS.get (cache_of w) sym) as [e|]; [|reflexivity].
  intros Hge. unfold bind, Date_now, ret. apply Z.ltb_ge in Hge. now rewrite Hge.
Qed.

Lemma fresh_or_not w sym :
  (exists e, fresh w sym e) \/ stale_or_absent w sym.
Proof.
  unfold fresh, stale_or_absent.
  destruct (JS.get (cache_of w) sym) as [e|]; [|now right].
  destruct (Z.lt_ge_cases (clock w (ticks w) - timestamp e) CACHE_DURATION); eauto.
Qed.

(** The two resolvers after the cache test. *)
Lemma handoff_hit w sym e :
  fresh w sym e -> Handoff.fetchStockInfo sym w = (Returns (Info (data e)), tick w).
Proof.
  intros H. unfold Handoff.fetchStockInfo, bind, getStockCache.
  fold (cache_of w). now rewrite (fresh_entry_hit H).
Qed.

Lemma background_hit w sym e :
  fresh w sym e -> Background.fetchStockInfo sym w = (Returns (Info (data e)), tick w).
Proof.
  intros H. unfold Background.fetchStockInfo, bind, getStockCache.
  fold (cache_of w). now rewrite (fresh_entry_hit H).
Qed.

Lemma handoff_miss w sym :
  stale_or_absent w sym ->
  Handoff.fetchStockInfo sym w =
  try_catch
    (stockInfo <- Handoff.fetchFromLocalServer sym ;;
     stockInfo <- match stockInfo with
                  | Some s => ret s
                  | None => Handoff.fetchFromYahooFinanceDirect sym
                  end ;;
     put (cache_of w) sym stockInfo ;;
     ret (Info stockInfo))
    (ret (Failed (error_marker sym))) (after_lookup w sym).
Proof.
  intros H. unfold Handoff.fetchStockInfo at 1, bind at 1, getStockCache.
  fold (cache_of w). unfold bind at 1. now rewrite fresh_entry_miss by assumption.
Qed.




End Resolver.

(** *** The adapters touch nothing but the network *)

Section NetworkOnly.
Import Shared.
Context {host : Host}.

Lemma only_requests_refl w : only_requests w w.
Proof. repeat split. exists []. now rewrite app_nil_r. Qed.

Lemma only_requests_trans w1 w2 w3 :
  only_requests w1 w2 -> only_requests w2 w3 -> only_requests w1 w3.
Proof.
  intros (a1 & a2 & a3 & a4 & a5 & a6 & a7 & l1 & a8) (b1 & b2 & b3 & b4 & b5 & b6 & b7 & l2 & b8).
  repeat split; try congruence.
  exists (l1 ++ l2). rewrite b8, a8. now rewrite app_assoc.
Qed.

Lemma network_only_ret {A} (a : A) : network_only (ret a).
Proof. intros w. apply only_requests_refl. Qed.

Lemma network_only_throw {A} : network_only (@throw A).
Proof. intros w. apply only_requests_refl. Qed.

Lemma network_only_bind {A B} (m : M A) (k : A -> M B) :
  network_only m -> (forall a, network_only (k a)) -> network_only (bind m k).
Proof.
  intros Hm Hk w. unfold bind. specialize (Hm w).
  destruct (m w) as [[a|] w1]; simpl in *; [|exact Hm].
  eapply only_requests_trans; [exact Hm | apply Hk].
Qed.

Lemma network_only_try_catch {A} (m h : M A) :
  network_only m -> network_only h -> network_only (try_catch m h).
Proof.
  intros Hm Hh w. unfold try_catch. specialize (Hm w).
  destruct (m w) as [[a|] w1]; simpl in *; [exact Hm|].
  eapply only_requests_trans; [exact Hm | apply Hh].
Qed.

Lemma network_only_fetch {A} (net : World -> nat -> string -> Fetched A) u :
  network_only (fetch net u).
Proof.
  intros w. unfold fetch.
  destruct (net w _ u); simpl; repeat split; now exists [u].
Qed.

Lemma network_only_response_json {A} (r : Fetched A) : network_only (response_json r).
Proof.
  destruct r as [|ok [body|]]; simpl;
    [apply network_only_throw | apply network_only_ret | apply network_only_throw].
Qed.

Lemma network_only_if {A} (b : bool) (m1 m2 : M A) :
  network_only m1 -> network_only m2 -> network_only (if b then m1 else m2).
Proof. now destruct b. Qed.

Lemma network_only_fetchPerformanceForRange sym range interval :
  network_only (fetchPerformanceForRange sym range interval).
Proof.
  unfold fetchPerformanceForRange.
  apply network_only_try_catch; [|apply network_only_ret].
  apply network_only_bind; [apply network_only_fetch|]. intros r.
  apply network_only_if; [apply network_only_ret|].
  apply network_only_bind; [apply network_only_response_json|]. intros [result|].
  - destruct (close result); [apply network_only_if|]; apply network_only_ret.
  - apply network_only_ret.
Qed.

Lemma network_only_read_quote sym r q : network_only (read_quote sym r q).
Proof.
  unfold read_quote.
  apply network_only_if; [|apply network_only_ret].
  apply network_only_bind; [apply network_only_response_json|]. intros [result|].
  - destruct (meta result); apply network_only_ret.
  - apply network_only_ret.
Qed.

Lemma network_only_with_range_performance sym q :
  network_only (with_range_performance sym q).
Proof.
  unfold with_range_performance.
  repeat (apply network_only_bind;
          [apply network_only_fetchPerformanceForRange | intros ?]).
  apply network_only_ret.
Qed.

Lemma network_only_fetchFromLocalServer sym :
  network_only (Handoff.fetchFromLocalServer sym).
Proof.
  unfold Handoff.fetchFromLocalServer.
  apply network_only_try_catch; [|apply network_only_ret].
  apply network_only_bind; [apply network_only_fetch|]. intros r.
  apply network_only_if; [apply network_only_throw|].
  apply network_only_bind; [apply network_only_response_json|]. intros d.
  apply network_only_if; [apply network_only_throw | apply network_only_ret].
Qed.

Lemma network_only_fetchFromYahooFinanceDirect sym :
  network_only (Handoff.fetchFromYahooFinanceDirect sym).
Proof.
  unfold Handoff.fetchFromYahooFinanceDirect.
  apply network_only_bind; [apply network_only_fetch|]. intros r.
  apply network_only_bind; [apply network_only_read_quote|]. intros q.
  apply network_only_bind; [apply network_only_with_range_performance|]. intros q'.
  apply network_only_if; [apply network_only_ret | apply network_only_throw].
Qed.

Lemma after_lookup_cache w sym : stockCache (after_lookup w sym) = stockCache w.
Proof. unfold after_lookup. now destruct (JS.get (cache_of w) sym). Qed.

End NetworkOnly.

(** *** What the direct adapter reports *)

Section DirectAdapter.
Import Shared.
Context {host : Host}.

Lemma read_quote_provenance sym r q w q' w' :
  read_quote sym r q w = (Returns q', w') -> same_provenance q q'.
Proof.
  unfold read_quote, bind, response_json, ret, throw.
  destruct (response_ok r).
  - destruct r as [|ok [[result|]|]]; try discriminate.
    + destruct (meta result); intros [= <- _]; repeat split.
    + intros [= <- _]; repeat split.
  - intros [= <- _]; repeat split.
Qed.

Lemma with_range_performance_provenance sym q w q' w' :
  with_range_performance sym q w = (Returns q', w') -> same_provenance q q'.
Proof.
  unfold with_range_performance, bind, ret.
  repeat match goal with
  | |- context [fetchPerformanceForRange ?s ?r ?i ?x] =>
      destruct (fetchPerformanceForRange_returns s r i x) as (? & ? & ->)
  end.
  intros [= <- _]; repeat split.
Qed.

Lemma fetchFromYahooFinanceDirect_provenance sym w q w' :
  Handoff.fetchFromYahooFinanceDirect sym w = (Returns q, w') ->
  source q = Some "yahoo-direct" /\ marketCap q = JNull /\
  marketCapFormatted q = Some "N/A".
Proof.
  unfold Handoff.fetchFromYahooFinanceDirect. unfold bind at 1.
  destruct (fetch yahoo _ w) as [[r|] w1]; [|discriminate].
  unfold bind at 1.
  destruct (read_quote _ _ _ w1) as [[q1|] w2] eqn:E1; [|discriminate].
  unfold bind at 1.
  destruct (with_range_performance _ _ w2) as [[q2|] w3] eqn:E2; [|discriminate].
  destruct (not_null (currentPrice q2)); [|discriminate].
  intros [= <- _].
  apply read_quote_provenance in E1. apply with_range_performance_provenance in E2.
  destruct E1 as (a1 & a2 & a3), E2 as (b1 & b2 & b3). simpl in *.
  repeat split; congruence.
Qed.

End DirectAdapter.

Section ResolverClaims.
Import Shared.
Context {host : Host}.


(** C8.  When the cached entry is stale or absent, the local adapter returns
    null and the direct adapter returns a quote, the resolver returns that
    quote; its [source] is ['yahoo-direct'] (the direct tag), its
    [marketCap] is null and its [marketCapFormatted] is ["N/A"]. *)
Theorem direct_quote_has_no_market_cap sym w w1 w2 q :
  stale_or_absent w sym ->
  Handoff.fetchFromLocalServer sym (after_lookup w sym) = (Returns None, w1) ->
  Handoff.fetchFromYahooFinanceDirect sym w1 = (Returns q, w2) ->
  fst (Handoff.fetchStockInfo sym w) = Returns (Info q) /\
  source q = Some "yahoo-direct" /\
  marketCap q = JNull /\
  marketCapFormatted q = Some "N/A".
Proof.
  intros Hs H1 H2. split.
  - rewrite handoff_miss by assumption.
    unfold try_catch. unfold bind at 1. rewrite H1.
    unfold bind at 1. now rewrite H2.
  - now apply fetchFromYahooFinanceDirect_provenance in H2.
Qed.

End ResolverClaims.

(** *** Serving from the cache *)

Section ServedFromCache.
Import Shared.
Context {host : Host}.

Lemma put_origin c sym q w : 
  put c sym q w
  = (Returns tt,
     set_stockCache (limit_cache (JS.set c sym {| data := q; timestamp := clock w (ticks w) |}))
       (tick w)).
Proof. reflexivity. Qed.

End ServedFromCache.

(** *** Normalising a ticker symbol *)

Section Normalisation.
Import StockServer.

Lemma upper_char_letter c : is_upper_letter c = true -> upper_char c = c.
Proof.
  unfold is_upper_letter, upper_char. intros H.
  apply andb_true_iff in H as [_ H]. apply Nat.leb_le in H.
  destruct (Nat.leb_spec 97 (nat_of_ascii c)); [lia | reflexivity].
Qed.

Lemma is_space_letter c : is_upper_letter c = true -> is_space c = false.
Proof.
  unfold is_upper_letter, is_space. intros H.
  apply andb_true_iff in H as [H _]. apply Nat.leb_le in H.
  destruct (Nat.leb_spec (nat_of_ascii c) 13), (Nat.leb_spec (nat_of_ascii c) 32);
    try lia; now rewrite !andb_false_r.
Qed.

Lemma upper_letters s :
  forallb is_upper_letter (list_ascii_of_string s) = true -> upper s = s.
Proof.
  induction s as [|c s IH]; simpl; [reflexivity|].
  intros H. apply andb_true_iff in H as [Hc Hs].
  now rewrite upper_char_letter, IH.
Qed.

Lemma lstrip_letters s :
  forallb is_upper_letter (list_ascii_of_string s) = true -> lstrip s = s.
Proof.
  destruct s as [|c s]; simpl; [reflexivity|].
  intros H. apply andb_true_iff in H as [Hc _]. now rewrite is_space_letter.
Qed.

Lemma forallb_rev {A} (f : A -> bool) l : forallb f (rev l) = forallb f l.
Proof.
  induction l as [|x l IH]; simpl; [reflexivity|].
  rewrite forallb_app, IH. simpl. rewrite andb_true_r. apply andb_comm.
Qed.

Lemma reverse_involutive s : reverse (reverse s) = s.
Proof.
  unfold reverse. rewrite list_ascii_of_string_of_list_ascii, rev_involutive.
  apply string_of_list_ascii_of_string.
Qed.

Lemma rstrip_letters s :
  forallb is_upper_letter (list_ascii_of_string s) = true -> rstrip s = s.
Proof.
  intros H. unfold rstrip. rewrite lstrip_letters; [apply reverse_involutive|].
  unfold reverse. now rewrite list_ascii_of_string_of_list_ascii, forallb_rev.
Qed.

Lemma normalize_ticker sym : is_ticker sym = true -> normalize sym = sym.
Proof.
  unfold is_ticker, normalize, strip. intros H.
  apply andb_true_iff in H as [H _]. apply andb_true_iff in H as [H _].
  now rewrite upper_letters, lstrip_letters, rstrip_letters.
Qed.

End Normalisation.

Section Verbatim.
Import Shared.
Context {host : Host}.

Lemma requests_grow_ret {A} (a : A) : requests_grow (ret a).
Proof. intros w. exists []. simpl. now rewrite app_nil_r. Qed.

Lemma requests_grow_network_only {A} (m : M A) : network_only m -> requests_grow m.
Proof. intros H w. now destruct (H w) as (_ & _ & _ & _ & _ & _ & _ & Hr). Qed.

Lemma requests_grow_bind {A B} (m : M A) (k : A -> M B) :
  requests_grow m -> (forall a, requests_grow (k a)) -> requests_grow (bind m k).
Proof.
  intros Hm Hk w. unfold bind. destruct (Hm w) as [l1 H1].
  destruct (m w) as [[a|] w1]; simpl in *; [|eauto].
  destruct (Hk a w1) as [l2 H2]. exists (l1 ++ l2). rewrite H2, H1. now rewrite app_assoc.
Qed.

Lemma requests_grow_try_catch {A} (m h : M A) :
  requests_grow m -> requests_grow h -> requests_grow (try_catch m h).
Proof.
  intros Hm Hh w. unfold try_catch. destruct (Hm w) as [l1 H1].
  destruct (m w) as [[a|] w1]; simpl in *; [eauto|].
  destruct (Hh w1) as [l2 H2]. exists (l1 ++ l2). rewrite H2, H1. now rewrite app_assoc.
Qed.

Lemma requests_grow_put c sym q : requests_grow (put c sym q).
Proof. intros w. exists []. simpl. now rewrite app_nil_r. Qed.

(** The first step of each resolver body logs its url. *)
Lemma fetch_logs {A} (net : World -> nat -> string -> Fetched A) u w :
  requests (snd (fetch net u w)) = requests w ++ [u].
Proof. unfold fetch. now destruct (net w _ u). Qed.

Lemma first_fetch_then_grow {A B} (net : World -> nat -> string -> Fetched A) u
    (k : Fetched A -> M B) w :
  (forall r, requests_grow (k r)) ->
  exists rest, requests (snd (bind (fetch net u) k w)) = requests w ++ u :: rest.
Proof.
  intros Hk. unfold bind. pose proof (fetch_logs net u w) as Hl.
  destruct (fetch net u w) as [[r|] w1]; simpl in *.
  - destruct (Hk r w1) as [l Hr]. exists l. rewrite Hr, Hl. now rewrite <- app_assoc.
  - exists []. exact Hl.
Qed.

Lemma after_lookup_requests w sym : requests (after_lookup w sym) = requests w.
Proof. unfold after_lookup. now destruct (JS.get (cache_of w) sym). Qed.

Lemma handoff_first_request sym w :
  stale_or_absent w sym ->
  exists rest,
    requests (snd (Handoff.fetchStockInfo sym w))
    = requests w ++ (Handoff.LOCAL_SERVER_URL ++ "/quote/" ++ sym)%string :: rest.
Proof.
  intros Hs. rewrite handoff_miss by assumption.
  rewrite <- (after_lookup_requests w sym). set (w0 := after_lookup w sym).
  unfold try_catch. unfold bind at 1.
  assert (Hlocal : exists rest,
            requests (snd (Handoff.fetchFromLocalServer sym w0))
            = requests w0 ++ (Handoff.LOCAL_SERVER_URL ++ "/quote/" ++ sym)%string :: rest).
  { unfold Handoff.fetchFromLocalServer, try_catch.
    match goal with |- context [bind (fetch ?n ?u) ?k w0] =>
      destruct (@first_fetch_then_grow _ _ n u k w0) as [rest Hr] end.
    - intros r. destruct (negb (response_ok r));
        [apply requests_grow_network_only, network_only_throw|].
      apply requests_grow_bind;
        [apply requests_grow_network_only, network_only_response_json|].
      intros d. destruct (d_error d); apply requests_grow_network_only;
        [apply network_only_throw | apply network_only_ret].
    - match goal with |- context [bind (fetch ?n ?u) ?k w0] =>
        destruct (bind (fetch n u) k w0) as [[a|] w1] end; simpl in *; eauto. }
  destruct Hlocal as [rest Hlocal].
  destruct (Handoff.fetchFromLocalServer sym w0) as [[r|] w1]; simpl in Hlocal.
  2:{ simpl. eauto. }
  assert (Hk : requests_grow
            (try_catch
               (stockInfo <- match r with
                             | Some s => ret s
                             | None => Handoff.fetchFromYahooFinanceDirect sym
                             end ;;
                put (cache_of w) sym stockInfo ;; ret (Info stockInfo))
               (ret (Failed (error_marker sym))))).
  { apply requests_grow_try_catch; [|apply requests_grow_ret].
    apply requests_grow_bind.
    - destruct r; [apply requests_grow_ret|].
      apply requests_grow_network_only, network_only_fetchFromYahooFinanceDirect.
    - intros q. apply requests_grow_bind; [apply requests_grow_put|].
      intros _. apply requests_grow_ret. }
  destruct (Hk w1) as [l Hl]. unfold try_catch in Hl.
  exists (rest ++ l). rewrite Hl, Hlocal. rewrite <- app_assoc. reflexivity.
Qed.

Lemma background_first_request sym w :
  stale_or_absent w sym ->
  exists rest,
    requests (snd (Background.fetchStockInfo sym w))
    = requests w ++ chart_url sym "interval=1d&range=1d" :: rest.
Proof.
  intros Hs. unfold Background.fetchStockInfo, bind at 1, getStockCache.
  fold (cache_of w). unfold bind at 1. rewrite fresh_entry_miss by assumption.
  rewrite <- (after_lookup_requests w sym). set (w0 := after_lookup w sym).
  unfold try_catch.
  match goal with |- context [bind (fetch ?n ?u) ?k w0] =>
    destruct (@first_fetch_then_grow _ _ n u k w0) as [rest Hr] end.
  - intros r.
    apply requests_grow_bind;
      [apply requests_grow_network_only, network_only_read_quote|]. intros q1.
    apply requests_grow_bind;
      [apply requests_grow_network_only, network_only_with_range_performance|]. intros q2.
    destruct (not_null (currentPrice q2)).
    + apply requests_grow_bind; [apply requests_grow_put|]. intros _. apply requests_grow_ret.
    + apply requests_grow_network_only, network_only_throw.
  - match goal with |- context [bind (fetch ?n ?u) ?k w0] =>
      destruct (bind (fetch n u) k w0) as [[a|] w1] end; simpl in *; eauto.
Qed.

(** A resolver only reports failure through the marker of its symbol. *)
Lemma handoff_failed sym w m :
  fst (Handoff.fetchStockInfo sym w) = Returns (Failed m) -> m = error_marker sym.
Proof.
  destruct (fresh_or_not w sym) as [[e He]|Hs].
  - rewrite (handoff_hit He). discriminate.
  - rewrite handoff_miss by assumption. unfold try_catch. unfold bind at 1.
    destruct (Handoff.fetchFromLocalServer sym _) as [[[s|]|] wa].
    + unfold bind at 1, ret at 1. unfold bind at 1. rewrite put_origin.
      unfold ret. simpl. discriminate.
    + unfold bind at 1.
      destruct (Handoff.fetchFromYahooFinanceDirect sym wa) as [[s|] wb].
      * unfold bind at 1. rewrite put_origin. unfold ret. simpl. discriminate.
      * simpl. now intros [= <-].
    + simpl. now intros [= <-].
Qed.

Lemma background_failed sym w m :
  fst (Background.fetchStockInfo sym w) = Returns (Failed m) -> m = error_marker sym.
Proof.
  destruct (fresh_or_not w sym) as [[e He]|Hs].
  - rewrite (background_hit He). discriminate.
  - unfold Background.fetchStockInfo, bind at 1, getStockCache.
    fold (cache_of w). unfold bind at 1. rewrite fresh_entry_miss by assumption.
    unfold try_catch. unfold bind at 1.
    destruct (fetch yahoo _ _) as [[r|] wa]; [|simpl; now intros [= <-]].
    unfold bind at 1.
    destruct (read_quote _ _ _ wa) as [[q1|] wb]; [|simpl; now intros [= <-]].
    unfold bind at 1.
    destruct (with_range_performance _ _ wb) as [[q2|] wc]; [|simpl; now intros [= <-]].
    destruct (not_null (currentPrice q2)); [|simpl; now intros [= <-]].
    unfold bind at 1. rewrite put_origin. unfold ret. simpl. discriminate.
Qed.

End Verbatim.

Section CacheClaims.
Import Shared.
Context {host : Host}.

(** C9 (amended).  [fetchStockInfo] does not normalise: it uses the symbol
    as it is given, as the key of the cache test, in the url of its first
    request and in the error marker.  For a symbol of one to five capital
    letters, the only kind the content script asks for, upper-casing and
    trimming change nothing, so resolving the symbol and resolving its
    normalised form are the same computation. *)
Theorem ticker_symbol_resolves_as_normalized sym :
  uses_symbol_verbatim Handoff.fetchStockInfo
    (fun s => "http://localhost:5050/quote/" ++ s)%string sym /\
  uses_symbol_verbatim Background.fetchStockInfo
    (fun s => "https://query1.finance.yahoo.com/v8/finance/chart/" ++ s
              ++ "?interval=1d&range=1d")%string sym /\
  (is_ticker sym = true ->
   StockServer.normalize sym = sym /\
   (forall w, Handoff.fetchStockInfo (StockServer.normalize sym) w
              = Handoff.fetchStockInfo sym w) /\
   (forall w, Background.fetchStockInfo (StockServer.normalize sym) w
              = Background.fetchStockInfo sym w)).
Proof.
  split; [|split].
  - split; [|split].
    + intros w e He. now rewrite (handoff_hit He).
    + intros w Hs. now apply handoff_first_request.
    + intros w m Hm. now apply handoff_failed in Hm.
  - split; [|split].
    + intros w e He. now rewrite (background_hit He).
    + intros w Hs. now apply background_first_request.
    + intros w m Hm. now apply background_failed in Hm.
  - intros H. rewrite (normalize_ticker _ H). now repeat split.
Qed.

End CacheClaims.


(** An entry fetched exactly 15 minutes ago is stale: with both hosts
    unreachable the resolver returns the marker, not the cached quote. *)
Example stale_entry_is_not_served :
  let w := with_clock (fun _ => 900000%Z) aapl_cached in
  fresh (with_clock (fun _ => 899999%Z) aapl_cached) "AAPL"
    {| data := sample_quote "AAPL"; timestamp := 0 |} /\
  stale_or_absent w "AAPL" /\
  fst (Handoff.fetchStockInfo "AAPL" w)
    = Returns (Failed {| e_symbol := "AAPL"; e_name := "AAPL"; error := true |}) /\
  fst (Background.fetchStockInfo "AAPL" w)
    = Returns (Failed {| e_symbol := "AAPL"; e_name := "AAPL"; error := true |}) /\
  stockCache (snd (Handoff.fetchStockInfo "AAPL" w)) = stockCache w.
Proof.
  intros w. repeat split; try reflexivity. vm_compute. discriminate.
Qed.

Lemma direct_quote_has_no_market_cap_witness :
  let sym := "AAPL" in
  let w := direct_only in
  let w1 := log_request "http://localhost:5050/quote/AAPL" w in
  let r := Handoff.fetchFromYahooFinanceDirect sym w1 in
  let q := match fst r with Returns q => q | Throws => sample_quote sym end in
  let w2 := snd r in
  (stale_or_absent w sym /\
   Handoff.fetchFromLocalServer sym (after_lookup w sym) = (Returns None, w1) /\
   Handoff.fetchFromYahooFinanceDirect sym w1 = (Returns q, w2)) /\
  fst (Handoff.fetchStockInfo sym w) = Returns (Info q) /\
  source q = Some "yahoo-direct" /\
  marketCap q = JNull /\
  marketCapFormatted q = Some "N/A".
Proof.
  intros sym w w1 r q w2.
  assert (H0 : stale_or_absent w sym) by exact I.
  assert (H1 : Handoff.fetchFromLocalServer sym (after_lookup w sym) = (Returns None, w1))
    by reflexivity.
  assert (H2 : Handoff.fetchFromYahooFinanceDirect sym w1 = (Returns q, w2))
    by (vm_compute; reflexivity).
  split; [now repeat split|].
  exact (direct_quote_has_no_market_cap sym w H0 H1 H2).
Defined.

(** C4 as stated fails.  With the local server and the chart endpoint both
    unreachable, two calls for ZZZZ at the same instant make four requests
    and the second call is not served from the cache; a first call that
    succeeds through the direct adapter alone makes six requests; and when
    the cache holds fifty entries that are not older than the write, the
    limit of 50 drops the quote just written, so that the second call makes
    six requests again. *)
Lemma two_calls_make_several_requests :
  let first := Handoff.fetchStockInfo "ZZZZ" offline in
  let second := Handoff.fetchStockInfo "ZZZZ" (snd first) in
  let crowded := Handoff.fetchStockInfo "AAPL" crowded_cache in
  stockCache (snd first) = None /\
  requests (snd first) =
    ["http://localhost:5050/quote/ZZZZ";
     "https://query1.finance.yahoo.com/v8/finance/chart/ZZZZ?interval=1d&range=1d"] /\
  requests (snd second) = requests (snd first) ++ requests (snd first) /\
  ~ List.length (requests (snd second)) <= 1 /\
  List.length (requests (snd (Handoff.fetchStockInfo "AAPL" direct_only))) = 6 /\
  List.length (requests (snd (Background.fetchStockInfo "AAPL" direct_only))) = 5 /\
  fst crowded = Returns (Info (quote_of crowded "AAPL")) /\
  JS.get (cache_of (snd crowded)) "AAPL" = None /\
  List.length (requests (snd (Handoff.fetchStockInfo "AAPL" (snd crowded)))) = 12.
Proof.
  intros first second crowded.
  split; [reflexivity|]. split; [reflexivity|]. split; [reflexivity|].
  split; [vm_compute; lia|]. split; [reflexivity|]. split; [reflexivity|].
  split; [vm_compute; reflexivity|]. split; vm_compute; reflexivity.
Qed.

Lemma ticker_symbol_resolves_as_normalized_witness :
  let e := {| data := sample_quote "AAPL"; timestamp := 0 |} in
  let marker := {| e_symbol := "AAPL"; e_name := "AAPL"; error := true |} in
  (is_ticker "AAPL" = true /\
   fresh aapl_cached "AAPL" e /\
   stale_or_absent offline "AAPL" /\
   fst (Handoff.fetchStockInfo "AAPL" offline) = Returns (Failed marker)) /\
  (StockServer.normalize "AAPL" = "AAPL" /\
   (forall w, Handoff.fetchStockInfo (StockServer.normalize "AAPL") w
              = Handoff.fetchStockInfo "AAPL" w) /\
   (forall w, Background.fetchStockInfo (StockServer.normalize "AAPL") w
              = Background.fetchStockInfo "AAPL" w)) /\
  fst (Handoff.fetchStockInfo "AAPL" aapl_cached) = Returns (Info (data e)) /\
  (exists rest,
     requests (snd (Handoff.fetchStockInfo "AAPL" offline))
     = requests offline ++ "http://localhost:5050/quote/AAPL" :: rest) /\
  marker = {| e_symbol := "AAPL"; e_name := "AAPL"; error := true |}.
Proof.
  intros e marker.
  assert (H0 : is_ticker "AAPL" = true) by reflexivity.
  assert (H1 : fresh aapl_cached "AAPL" e) by (split; [reflexivity | vm_compute; reflexivity]).
  assert (H2 : stale_or_absent offline "AAPL") by exact I.
  assert (H3 : fst (Handoff.fetchStockInfo "AAPL" offline) = Returns (Failed marker))
    by reflexivity.
  destruct (@ticker_symbol_resolves_as_normalized exact_host "AAPL")
    as ((A & B & C) & _ & D).
  split; [now repeat split|]. split; [exact (D H0)|].
  split; [exact (A aapl_cached e H1)|]. split; [exact (B offline H2)|].
  exact (C offline marker H3).
Defined.

(** C9 as stated fails.  With a fresh entry cached for AAPL, resolving
    ["AAPL"] returns the cached quote without a request, while resolving
    [" aapl "], whose normalised form is ["AAPL"], misses the cache, asks both
    hosts for [" aapl "] and returns the marker of [" aapl "]. *)
Lemma unnormalized_symbol_is_used_verbatim :
  let w := aapl_cached in
  StockServer.normalize " aapl " = "AAPL" /\
  fst (Handoff.fetchStockInfo "AAPL" w) = Returns (Info (sample_quote "AAPL")) /\
  requests (snd (Handoff.fetchStockInfo "AAPL" w)) = [] /\
  fst (Handoff.fetchStockInfo " aapl " w)
    = Returns (Failed {| e_symbol := " aapl "; e_name := " aapl "; error := true |}) /\
  requests (snd (Handoff.fetchStockInfo " aapl " w)) =
    ["http://localhost:5050/quote/ aapl ";
     "https://query1.finance.yahoo.com/v8/finance/chart/ aapl ?interval=1d&range=1d"] /\
  fst (Background.fetchStockInfo " aapl " w)
    = Returns (Failed {| e_symbol := " aapl "; e_name := " aapl "; error := true |}) /\
  Handoff.fetchStockInfo " aapl " w
    <> Handoff.fetchStockInfo (StockServer.normalize " aapl ") w /\
  Background.fetchStockInfo " aapl " w
    <> Background.fetchStockInfo (StockServer.normalize " aapl ") w.
Proof.
  intros w. repeat split; try reflexivity.
  - intros H. apply (f_equal fst) in H. vm_compute in H. discriminate.
  - intros H. apply (f_equal fst) in H. vm_compute in H. discriminate.
Qed.

(** ** The tweet store *)

Section TweetStore.
Import Shared.

Lemma existsb_has_id tweetId tweets :
  existsb (fun t => String.eqb (id t) tweetId) tweets = true <->
  exists t, In t tweets /\ id t = tweetId.
Proof.
  rewrite existsb_exists. split; intros (t & Hin & H); exists t; split; trivial;
    now apply String.eqb_eq.
Qed.

Lemma existsb_no_id tweetId tweets :
  (forall t, In t tweets -> id t <> tweetId) ->
  existsb (fun t => String.eqb (id t) tweetId) tweets = false.
Proof.
  intros H. destruct (existsb _ tweets) eqn:E; [|reflexivity].
  apply existsb_has_id in E as (t & Hin & Hid). now apply H in Hin.
Qed.

(** [updateAuthorTweetCount] completes and leaves the tweet list alone. *)
Lemma updateAuthorTweetCount_tweets h w :
  exists w', Tracker.updateAuthorTweetCount h w = (Returns tt, w') /\
             savedTweets w' = savedTweets w.
Proof.
  unfold Tracker.updateAuthorTweetCount.
  destruct (String.eqb h ""); [now exists w|].
  unfold bind, Tracker.getTweetsByAuthor, bind, getSavedTweets, ret, Tracker.getAuthorTags.
  destruct (Plain.read _ h) as [tag| |].
  - unfold Date_now, Tracker.saveAuthorTags. eexists. split; reflexivity.
  - unfold Date_now, Tracker.saveAuthorTags. eexists. split; reflexivity.
  - destruct (filter _ _) as [|firstTweet rest].
    + now exists w.
    + unfold Date_now, Tracker.saveAuthorTags. eexists. split; reflexivity.
Qed.

Lemma count_step h w :
  exists w', (if String.eqb h "" then ret tt else Tracker.updateAuthorTweetCount h) w
             = (Returns tt, w') /\ savedTweets w' = savedTweets w.
Proof.
  destruct (String.eqb h ""); [now exists w | apply updateAuthorTweetCount_tweets].
Qed.

Lemma tracker_addTweet_run tweetData w :
  (forall t, In t (tweets_of w) -> id t <> id tweetData) ->
  exists w', Tracker.addTweet tweetData w
             = (Returns {| success := true; duplicate := None |}, w') /\
             savedTweets w' = Some (saved_by_add tweetData (tweets_of w)).
Proof.
  intros Hnew. unfold Tracker.addTweet. unfold bind at 1, getSavedTweets.
  fold (tweets_of w). rewrite (existsb_no_id _ Hnew).
  unfold bind at 1, saveTweets. unfold bind at 1.
  match goal with |- context [(if String.eqb ?h "" then _ else _) ?x] =>
    destruct (count_step h x) as (w' & -> & Hw') end.
  exists w'. split; [reflexivity | exact Hw'].
Qed.

Lemma tracker_addTweet_new tweetData w :
  (forall t, In t (tweets_of w) -> id t <> id tweetData) ->
  fst (Tracker.addTweet tweetData w) = Returns {| success := true; duplicate := None |} /\
  tweets_of (snd (Tracker.addTweet tweetData w)) = saved_by_add tweetData (tweets_of w).
Proof.
  intros Hnew. destruct (tracker_addTweet_run tweetData w Hnew) as (w' & -> & Hw').
  split; [reflexivity|]. unfold tweets_of at 1. simpl. now rewrite Hw'.
Qed.

Lemma background_addTweet_run tweetData w :
  (forall t, In t (tweets_of w) -> id t <> id tweetData) ->
  Background.addTweet tweetData w
  = (Returns {| success := true; duplicate := None |},
     set_savedTweets (saved_by_add tweetData (tweets_of w)) w).
Proof.
  intros Hnew. unfold Background.addTweet. unfold bind at 1, getSavedTweets.
  fold (tweets_of w). rewrite (existsb_no_id _ Hnew). reflexivity.
Qed.

Lemma background_addTweet_new tweetData w :
  (forall t, In t (tweets_of w) -> id t <> id tweetData) ->
  fst (Background.addTweet tweetData w) = Returns {| success := true; duplicate := None |} /\
  tweets_of (snd (Background.addTweet tweetData w)) = saved_by_add tweetData (tweets_of w).
Proof.
  intros Hnew. rewrite (background_addTweet_run _ _ Hnew). split; reflexivity.
Qed.

Lemma saved_by_add_spec tweetData tweets :
  adds_in_front tweetData tweets (saved_by_add tweetData tweets).
Proof.
  unfold adds_in_front, saved_by_add.
  destruct (Z.ltb_spec 90000 (serialized_size (tweetData :: tweets))) as [Hlt|Hle].
  - assert (Hne : tweetData :: tweets <> []) by discriminate.
    pose proof (app_removelast_last tweetData Hne) as Hsplit.
    repeat split.
    + lia.
    + intros _. eexists. exact Hsplit.
    + eexists. exact Hsplit.
    + apply (f_equal (@List.length _)) in Hsplit. rewrite length_app in Hsplit.
      simpl in Hsplit. simpl. lia.
  - repeat split.
    + lia.
    + exists []. now rewrite app_nil_r.
    + simpl. lia.
Qed.

End TweetStore.

Section DeleteFacts.
Import Shared.

Lemma filter_subseq {A} (p : A -> bool) l : subseq (filter p l) l.
Proof.
  induction l as [|x l IH]; simpl; [constructor|].
  destruct (p x); now constructor.
Qed.

Lemma filter_partition_length {A} (p : A -> bool) l :
  List.length (filter (fun x => negb (p x)) l) + List.length (filter p l) = List.length l.
Proof.
  induction l as [|x l IH]; simpl; [reflexivity|].
  destruct (p x); simpl; lia.
Qed.

Lemma filter_removes_id tweetId tweets :
  removes_id tweetId tweets (filter (fun t => negb (String.eqb (id t) tweetId)) tweets).
Proof.
  repeat split.
  - apply filter_subseq.
  - intros t Hin Heq. apply filter_In in Hin as [_ Hin].
    apply String.eqb_eq in Heq. now rewrite Heq in Hin.
  - intros t Hin Hne. apply filter_In. split; [assumption|].
    apply String.eqb_neq in Hne. now rewrite Hne.
  - apply (filter_partition_length (has_id tweetId)).
Qed.

Lemma filter_no_match tweetId tweets :
  (forall t, In t tweets -> id t <> tweetId) ->
  filter (fun t => negb (String.eqb (id t) tweetId)) tweets = tweets.
Proof.
  intros H. induction tweets as [|x l IH]; simpl; [reflexivity|].
  assert (Hx : String.eqb (id x) tweetId = false)
    by (apply String.eqb_neq, H; now left).
  rewrite Hx. simpl. f_equal. apply IH. intros t Ht. apply H. now right.
Qed.

Lemma tracker_deleteTweet_run tweetId w :
  exists w', Tracker.deleteTweet tweetId w
             = (Returns {| success := true; duplicate := None |}, w') /\
             savedTweets w'
             = Some (filter (fun t => negb (String.eqb (id t) tweetId)) (tweets_of w)).
Proof.
  unfold Tracker.deleteTweet. unfold bind at 1, getSavedTweets. fold (tweets_of w).
  unfold bind at 1, saveTweets. unfold bind at 1.
  destruct (find _ (tweets_of w)) as [t|].
  - match goal with |- context [(if String.eqb ?h "" then _ else _) ?x] =>
      destruct (count_step h x) as (w' & -> & Hw') end.
    exists w'. split; [reflexivity | exact Hw'].
  - eexists. split; reflexivity.
Qed.

Lemma background_deleteTweet_run tweetId w :
  Background.deleteTweet tweetId w
  = (Returns {| success := true; duplicate := None |},
     set_savedTweets (filter (fun t => negb (String.eqb (id t) tweetId)) (tweets_of w)) w).
Proof. reflexivity. Qed.

End DeleteFacts.

(** C5.  Adding a record whose id is the id of a stored record returns
    [{ success: false, duplicate: true }] and leaves the world, hence the
    stored list, exactly as it was, in both listings. *)
Theorem addTweet_rejects_duplicate tweetData w :
  (exists t, In t (tweets_of w) /\ id t = id tweetData) ->
  Tracker.addTweet tweetData w
    = (Returns {| success := false; duplicate := Some true |}, w) /\
  Background.addTweet tweetData w
    = (Returns {| success := false; duplicate := Some true |}, w).
Proof.
  intros H. apply existsb_has_id in H.
  unfold Tracker.addTweet, Background.addTweet, bind, Shared.getSavedTweets.
  fold (tweets_of w). rewrite H. split; reflexivity.
Qed.

Lemma addTweet_rejects_duplicate_witness :
  let w := with_tweets three_tweets offline in
  let tweetData := short_tweet "2" "dave" ["NVDA"] in
  (exists t, In t (tweets_of w) /\ id t = id tweetData) /\
  Tracker.addTweet tweetData w
    = (Returns {| success := false; duplicate := Some true |}, w) /\
  Background.addTweet tweetData w
    = (Returns {| success := false; duplicate := Some true |}, w).
Proof.
  intros w tweetData.
  assert (H : exists t, In t (tweets_of w) /\ id t = id tweetData).
  { exists (short_tweet "2" "bob" ["TSLA"; "AAPL"]). split; [right; now left | reflexivity]. }
  split; [exact H | exact (addTweet_rejects_duplicate tweetData w H)].
Defined.

Lemma longer_tweet_is_new :
  forall t, In t (tweets_of crowded_store) -> id t <> id longer_tweet.
Proof. intros t [<-|[<-|[]]]; discriminate. Qed.

Lemma crowded_store_within_limit : (serialized_size (tweets_of crowded_store) <= 90000)%Z.
Proof. vm_compute. congruence. Qed.

Lemma crowded_store_over_limit_after_add :
  (90000 < serialized_size (saved_by_add longer_tweet (tweets_of crowded_store)))%Z.
Proof. vm_compute. congruence. Qed.

(** C6.  Adding a record whose id is new returns [{ success: true }] and
    puts the record in front of the stored list.  When the serialized list
    is then longer than 90000, exactly one record, the last one, is dropped;
    otherwise none is.  At most one record is dropped by an add, and the
    bound is soft: there is an add after which the stored list is still
    longer than 90000. *)
Theorem addTweet_prepends_and_drops_at_most_one :
  (forall tweetData w,
     (forall t, In t (tweets_of w) -> id t <> id tweetData) ->
     (fst (Tracker.addTweet tweetData w) = Returns {| success := true; duplicate := None |} /\
      adds_in_front tweetData (tweets_of w) (tweets_of (snd (Tracker.addTweet tweetData w)))) /\
     (fst (Background.addTweet tweetData w) = Returns {| success := true; duplicate := None |} /\
      adds_in_front tweetData (tweets_of w)
        (tweets_of (snd (Background.addTweet tweetData w))))) /\
  (exists tweetData w,
     (forall t, In t (tweets_of w) -> id t <> id tweetData) /\
     (serialized_size (tweets_of w) <= 90000)%Z /\
     (90000 < serialized_size (tweets_of (snd (Tracker.addTweet tweetData w))))%Z /\
     (90000 < serialized_size (tweets_of (snd (Background.addTweet tweetData w))))%Z).
Proof.
  split.
  - intros tweetData w Hnew.
    destruct (tracker_addTweet_new tweetData w Hnew) as [-> ->].
    destruct (background_addTweet_new tweetData w Hnew) as [-> ->].
    repeat split; apply saved_by_add_spec.
  - exists longer_tweet, crowded_store.
    split; [exact longer_tweet_is_new|].
    split; [exact crowded_store_within_limit|].
    destruct (tracker_addTweet_new _ _ longer_tweet_is_new) as [_ E1].
    destruct (background_addTweet_new _ _ longer_tweet_is_new) as [_ E2].
    rewrite E1, E2. split; exact crowded_store_over_limit_after_add.
Qed.

Lemma addTweet_prepends_and_drops_at_most_one_witness :
  let w := with_tweets three_tweets offline in
  let tweetData := short_tweet "4" "dave" ["NVDA"] in
  (forall t, In t (tweets_of w) -> id t <> id tweetData) /\
  (fst (Tracker.addTweet tweetData w) = Returns {| success := true; duplicate := None |} /\
   adds_in_front tweetData (tweets_of w) (tweets_of (snd (Tracker.addTweet tweetData w)))) /\
  (fst (Background.addTweet tweetData w) = Returns {| success := true; duplicate := None |} /\
   adds_in_front tweetData (tweets_of w)
     (tweets_of (snd (Background.addTweet tweetData w)))).
Proof.
  intros w tweetData.
  assert (Hnew : forall t, In t (tweets_of w) -> id t <> id tweetData).
  { intros t [<-|[<-|[<-|[]]]]; discriminate. }
  split; [exact Hnew|].
  exact (proj1 addTweet_prepends_and_drops_at_most_one tweetData w Hnew).
Defined.

(** C10.  Deleting by id returns [{ success: true }] whether or not a record
    with that id is stored.  The stored list becomes the old one without the
    records of that id: every one of them is removed, every other record is
    kept, and the kept records are in their old order.  When no record has
    the id the list is unchanged. *)
Theorem deleteTweet_removes_every_match tweetId w :
  (fst (Tracker.deleteTweet tweetId w) = Returns {| success := true; duplicate := None |} /\
   removes_id tweetId (tweets_of w) (tweets_of (snd (Tracker.deleteTweet tweetId w))) /\
   ((forall t, In t (tweets_of w) -> id t <> tweetId) ->
    tweets_of (snd (Tracker.deleteTweet tweetId w)) = tweets_of w)) /\
  (fst (Background.deleteTweet tweetId w) = Returns {| success := true; duplicate := None |} /\
   removes_id tweetId (tweets_of w) (tweets_of (snd (Background.deleteTweet tweetId w))) /\
   ((forall t, In t (tweets_of w) -> id t <> tweetId) ->
    tweets_of (snd (Background.deleteTweet tweetId w)) = tweets_of w)).
Proof.
  destruct (tracker_deleteTweet_run tweetId w) as (w' & -> & Hw').
  rewrite background_deleteTweet_run.
  assert (E : tweets_of w' = filter (fun t => negb (String.eqb (id t) tweetId)) (tweets_of w))
    by (unfold tweets_of at 1; now rewrite Hw').
  cbn [fst snd]. rewrite E.
  change (tweets_of (set_savedTweets ?l w)) with l.
  repeat split; try apply filter_removes_id; apply filter_no_match.
Qed.

Lemma deleteTweet_removes_every_match_witness :
  let w := with_tweets three_tweets offline in
  let tweetId := "9" in
  (forall t, In t (tweets_of w) -> id t <> tweetId) /\
  tweets_of (snd (Tracker.deleteTweet tweetId w)) = tweets_of w /\
  tweets_of (snd (Background.deleteTweet tweetId w)) = tweets_of w.
Proof.
  intros w tweetId.
  assert (H : forall t, In t (tweets_of w) -> id t <> tweetId).
  { intros t [<-|[<-|[<-|[]]]]; discriminate. }
  split; [exact H|].
  destruct (deleteTweet_removes_every_match tweetId w) as ((_ & _ & A) & (_ & _ & B)).
  split; [exact (A H) | exact (B H)].
Defined.

(** ** The statistics *)

Section PlainFacts.



Lemma get_app_last {V} (o : JS.object V) k v k' :
  JS.get (o ++ [(k, v)]) k'
  = match JS.get o k' with
    | Some x => Some x
    | None => if String.eqb k k' then Some v else None
    end.
Proof.
  induction o as [|[k0 v0] o IH]; simpl; [reflexivity|].
  now destruct (String.eqb k0 k').
Qed.

Lemma get_place {V} i k (v : V) o k' :
  JS.get o k = None ->
  JS.get (Plain.place i k v o) k' = if String.eqb k k' then Some v else JS.get o k'.
Proof.
  induction o as [|[k0 v0] o IH]; simpl; [reflexivity|].
  destruct (String.eqb_spec k0 k) as [->|Hne]; [discriminate|]. intros Hn.
  destruct (Plain.index_of k0) as [j|]; [|reflexivity].
  destruct (j <? i)%N; [|reflexivity].
  simpl. rewrite (IH Hn).
  destruct (String.eqb_spec k0 k') as [->|_]; [|reflexivity].
  apply String.eqb_neq in Hne. rewrite String.eqb_sym in Hne. now rewrite Hne.
Qed.

(** A created property is found, and no other read changes. *)
Lemma get_create {V} (o : JS.object V) k v k' :
  JS.get o k = None ->
  JS.get (Plain.create o k v) k' = if String.eqb k k' then Some v else JS.get o k'.
Proof.
  intros Hn. unfold Plain.create. destruct (Plain.index_of k).
  - now apply get_place.
  - rewrite get_app_last. destruct (String.eqb_spec k k') as [<-|_].
    + now rewrite Hn.
    + now destruct (JS.get o k').
Qed.






End PlainFacts.

Section Statistics.
Import Shared.











Lemma StronglySorted_weaken {A} (R S : A -> A -> Prop) l :
  (forall a b, R a b -> S a b) -> StronglySorted R l -> StronglySorted S l.
Proof.
  intros HRS. induction 1 as [|x l Hl IH Hx]; constructor; [assumption|].
  eapply Forall_impl; [|exact Hx]. intros b. apply HRS.
Qed.










End Statistics.




(** The scenario of the specification: three records with tickers AAPL;
    TSLA and AAPL; GME. *)
Example getStats_three_tweets :
  fst (Shared.getStats (with_tweets three_tweets offline))
  = Returns {| totalTweets := 3; totalTickers := 3;
               topTickers := [("AAPL", Num 2); ("TSLA", Num 1); ("GME", Num 1)];
               topAuthors := [("carol", Num 2); ("bob", Num 1)];
               recentTweets := three_tweets |}.
Proof. reflexivity. Qed.


(** * Further properties *)

(** ** The author tags *)

Section AuthorTagFacts.
Import Shared.

Lemma get_delete_same {V} (o : JS.object V) k :
  NoDup (JS.keys o) -> JS.get (JSMore.delete o k) k = None.
Proof.
  induction o as [|[k' v] o IH]; simpl; [reflexivity|].
  intros Hnd. inversion Hnd as [|? ? Hk Hnd']; subst.
  destruct (String.eqb_spec k' k) as [->|Hne].
  - now apply get_None_not_In.
  - simpl. apply String.eqb_neq in Hne. rewrite Hne. now apply IH.
Qed.

Lemma get_delete_other {V} (o : JS.object V) k k' :
  k' <> k -> JS.get (JSMore.delete o k) k' = JS.get o k'.
Proof.
  intros Hne. induction o as [|[k0 v] o IH]; simpl; [reflexivity|].
  destruct (String.eqb_spec k0 k) as [->|Hk].
  - destruct (String.eqb_spec k k'); [congruence | reflexivity].
  - simpl. now rewrite IH.
Qed.

Lemma delete_absent {V} (o : JS.object V) k :
  ~ In k (JS.keys o) -> JSMore.delete o k = o.
Proof.
  induction o as [|[k' v] o IH]; simpl; [reflexivity|].
  intros Hn. destruct (String.eqb_spec k' k) as [->|Hne]; [tauto|].
  f_equal. apply IH. tauto.
Qed.



End AuthorTagFacts.



(** X2.  [deleteAuthorTag] returns [{ success: true }]; afterwards the
    map has no entry for the handle, so [getAuthorTag] gives null, or
    the inherited property when the handle names a property of
    [Object.prototype]; every other handle gives what it gave before.
    Deleting a handle that has no entry stores the same map. *)
Theorem deleteAuthorTag_then_getAuthorTag h w :
  NoDup (JS.keys (authors_of w)) ->
  let w' := snd (AuthorStore.deleteAuthorTag h w) in
  fst (AuthorStore.deleteAuthorTag h w) = Returns {| success := true; duplicate := None |} /\
  JS.get (authors_of w') h = None /\
  fst (AuthorStore.getAuthorTag h w')
    = Returns (if Plain.inherits h then Plain.Inherited else Plain.Undefined) /\
  (forall k, k <> h ->
     fst (AuthorStore.getAuthorTag k w') = fst (AuthorStore.getAuthorTag k w)) /\
  (JS.get (authors_of w) h = None -> authors_of w' = authors_of w) /\
  savedTweets w' = savedTweets w.
Proof.
  intros Hnd w'.
  assert (Ha : authors_of w' = JSMore.delete (authors_of w) h) by reflexivity.
  split; [reflexivity|].
  unfold AuthorStore.getAuthorTag, bind, Tracker.getAuthorTags, ret.
  fold (authors_of w') (authors_of w). cbn [fst]. unfold Plain.read. rewrite Ha.
  split; [now apply get_delete_same|]. split; [|split; [|split]].
  - now rewrite get_delete_same.
  - intros k Hne. now rewrite get_delete_other.
  - intros Hn. apply delete_absent. now apply get_None_not_In.
  - reflexivity.
Qed.

Lemma deleteAuthorTag_then_getAuthorTag_witness :
  let w' := snd (AuthorStore.deleteAuthorTag "carol" two_authors) in
  NoDup (JS.keys (authors_of two_authors)) /\
  "bob" <> "carol" /\
  fst (AuthorStore.getAuthorTag "carol" w') = Returns Plain.Undefined /\
  fst (AuthorStore.getAuthorTag "bob" w') = fst (AuthorStore.getAuthorTag "bob" two_authors).
Proof.
  intros w'.
  assert (H1 : NoDup (JS.keys (authors_of two_authors))).
  { repeat constructor; simpl; intuition discriminate. }
  assert (H2 : "bob" <> "carol") by discriminate.
  split; [exact H1|]. split; [exact H2|].
  destruct (deleteAuthorTag_then_getAuthorTag "carol" two_authors H1) as (_ & _ & A & B & _).
  split; [exact A | exact (B "bob" H2)].
Defined.

Section AuthorCountFacts.
Import Shared.

(** What [updateAuthorTweetCount] stores for a handle that is not empty. *)
Lemma updateAuthorTweetCount_run h w :
  h <> "" ->
  exists w',
    Tracker.updateAuthorTweetCount h w = (Returns tt, w') /\
    savedTweets w' = savedTweets w /\ stockCache w' = stockCache w /\
    (forall k, k <> h -> JS.get (authors_of w') k = JS.get (authors_of w) k) /\
    match JS.get (authors_of w) h with
    | Some tag =>
        exists tag', JS.get (authors_of w') h = Some tag' /\
          tweetCount tag' = tweets_by h (tweets_of w) /\
          handle tag' = handle tag /\ displayName tag' = displayName tag /\
          tags tag' = tags tag /\ notes tag' = notes tag /\
          createdAt tag' = createdAt tag
    | None =>
        if Plain.inherits h || Nat.eqb (tweets_by h (tweets_of w)) 0
        then JS.get (authors_of w') h = None
        else exists tag', JS.get (authors_of w') h = Some tag' /\
               tweetCount tag' = tweets_by h (tweets_of w) /\
               handle tag' = h /\ tags tag' = [] /\ notes tag' = ""
    end.
Proof.
  intros Hh. unfold Tracker.updateAuthorTweetCount.
  apply String.eqb_neq in Hh. rewrite Hh.
  unfold bind, Tracker.getTweetsByAuthor, bind, getSavedTweets, ret, Tracker.getAuthorTags.
  fold (tweets_of w) (authors_of w). unfold tweets_by, Plain.read.
  destruct (JS.get (authors_of w) h) as [tag|] eqn:E.
  - unfold Date_now, Tracker.saveAuthorTags. eexists. split; [reflexivity|].
    split; [reflexivity|]. split; [reflexivity|]. split.
    + intros k Hne. unfold authors_of at 1. cbn. now apply get_set_other.
    + eexists. split; [unfold authors_of at 1; cbn; apply get_set_same|].
      now repeat split.
  - destruct (Plain.inherits h).
    { unfold Date_now, Tracker.saveAuthorTags. eexists. split; [reflexivity|].
      split; [reflexivity|]. split; [reflexivity|]. split.
      - intros k _. reflexivity.
      - simpl. exact E. }
    destruct (filter _ (tweets_of w)) as [|firstTweet rest] eqn:F.
    + exists w. rewrite E. now repeat split.
    + unfold Date_now, Tracker.saveAuthorTags. eexists. split; [reflexivity|].
      split; [reflexivity|]. split; [reflexivity|]. split.
      * intros k Hne. unfold authors_of at 1. cbn. rewrite get_create by exact E.
        apply String.eqb_neq in Hne. rewrite String.eqb_sym in Hne. now rewrite Hne.
      * cbn [List.length Nat.eqb orb]. eexists.
        split; [unfold authors_of at 1; cbn; rewrite get_create by exact E;
                now rewrite String.eqb_refl|].
        now repeat split.
Qed.

Lemma updateAuthorTweetCount_own h w :
  h <> "" -> counts_own_entry h (snd (Tracker.updateAuthorTweetCount h w)).
Proof.
  intros Hh. destruct (updateAuthorTweetCount_run w Hh) as (w' & -> & Ht & _ & _ & Hm).
  cbn [snd]. unfold counts_own_entry.
  assert (Hn : tweets_of w' = tweets_of w) by (unfold tweets_of; now rewrite Ht).
  rewrite Hn.
  destruct (JS.get (authors_of w) h) as [tag|].
  - destruct Hm as (tag' & E' & Hc & _). rewrite E'. now intros t [= <-].
  - destruct (Plain.inherits h || Nat.eqb (tweets_by h (tweets_of w)) 0).
    + rewrite Hm. discriminate.
    + destruct Hm as (tag' & E' & Hc & _). rewrite E'. now intros t [= <-].
Qed.

Lemma updateAuthorTweetCount_in_sync h w :
  h <> "" -> Plain.inherits h = false ->
  count_in_sync h (snd (Tracker.updateAuthorTweetCount h w)).
Proof.
  intros Hh Hi. split; [now apply updateAuthorTweetCount_own|].
  destruct (updateAuthorTweetCount_run w Hh) as (w' & -> & Ht & _ & _ & Hm).
  cbn [snd].
  assert (Hn : tweets_of w' = tweets_of w) by (unfold tweets_of; now rewrite Ht).
  rewrite Hn, Hi in *. simpl in Hm.
  destruct (JS.get (authors_of w) h) as [tag|].
  - destruct Hm as (tag' & E' & _). intros _. now exists tag'.
  - destruct (Nat.eqb_spec (tweets_by h (tweets_of w)) 0) as [Hz|Hnz]; [lia|].
    destruct Hm as (tag' & E' & _). intros _. now exists tag'.
Qed.

Lemma updateAuthorTweetCount_inherited h w :
  h <> "" -> Plain.inherits h = true -> JS.get (authors_of w) h = None ->
  JS.get (authors_of (snd (Tracker.updateAuthorTweetCount h w))) h = None.
Proof.
  intros Hh Hi Hn. destruct (updateAuthorTweetCount_run w Hh) as (w' & -> & _ & _ & _ & Hm).
  cbn [snd]. now rewrite Hn, Hi in Hm.
Qed.

End AuthorCountFacts.

(** X3.  [updateAuthorTweetCount] of a handle that is not empty leaves the
    tweets and the entries of the other handles alone.  An existing entry
    gets the number of stored tweets of the handle as its count and keeps its
    display name, tags, notes and creation instant.  Without an entry, none
    is created for a handle that names a property of [Object.prototype]
    (the test [tags[handle]] finds the inherited property); for any other
    handle one is created (with that count, no tags, no notes) exactly when
    a tweet of the handle is stored. *)
Theorem updateAuthorTweetCount_spec h w :
  h <> "" ->
  let w' := snd (Tracker.updateAuthorTweetCount h w) in
  let n := tweets_by h (tweets_of w) in
  savedTweets w' = savedTweets w /\
  (forall k, k <> h -> JS.get (authors_of w') k = JS.get (authors_of w) k) /\
  (forall tag, JS.get (authors_of w) h = Some tag ->
     exists tag', JS.get (authors_of w') h = Some tag' /\
       tweetCount tag' = n /\ displayName tag' = displayName tag /\
       tags tag' = tags tag /\ notes tag' = notes tag /\
       createdAt tag' = createdAt tag) /\
  (JS.get (authors_of w) h = None -> Plain.inherits h = true ->
     JS.get (authors_of w') h = None) /\
  (JS.get (authors_of w) h = None -> n = 0 -> JS.get (authors_of w') h = None) /\
  (JS.get (authors_of w) h = None -> Plain.inherits h = false -> 0 < n ->
     exists tag', JS.get (authors_of w') h = Some tag' /\
       tweetCount tag' = n /\ handle tag' = h /\ tags tag' = [] /\ notes tag' = "").
Proof.
  intros Hh w' n. unfold w'.
  destruct (updateAuthorTweetCount_run w Hh) as (w1 & -> & Ht & _ & Ho & Hm).
  cbn [snd]. split; [exact Ht|]. split; [exact Ho|].
  destruct (JS.get (authors_of w) h) as [tag|].
  - split; [|split; [discriminate | split; discriminate]].
    intros t [= <-]. destruct Hm as (tag' & E & A & _ & B & C & D & F).
    exists tag'. now repeat split.
  - split; [discriminate|]. fold n in Hm. split; [|split].
    + intros _ Hi. now rewrite Hi in Hm.
    + intros _ Hz. rewrite Hz, orb_true_r in Hm. exact Hm.
    + intros _ Hi Hp. rewrite Hi in Hm.
      destruct (Nat.eqb_spec n 0) as [Hz|_]; [lia | exact Hm].
Qed.

Lemma updateAuthorTweetCount_spec_witness :
  let by_constructor := short_tweet "5" "constructor" ["AAPL"] in
  let w := with_authors [("bob", sample_tag "bob" 7)]
             (with_tweets (by_constructor :: three_tweets) offline) in
  let w' := snd (Tracker.updateAuthorTweetCount "bob" w) in
  let w'' := snd (Tracker.updateAuthorTweetCount "carol" w) in
  let w3 := snd (Tracker.updateAuthorTweetCount "constructor" w) in
  ("bob" <> "" /\ "carol" <> "" /\ "constructor" <> "" /\
   JS.get (authors_of w) "bob" = Some (sample_tag "bob" 7) /\
   JS.get (authors_of w) "carol" = None /\
   Plain.inherits "carol" = false /\
   0 < tweets_by "carol" (tweets_of w) /\
   JS.get (authors_of w) "constructor" = None /\
   Plain.inherits "constructor" = true /\
   0 < tweets_by "constructor" (tweets_of w)) /\
  (exists tag', JS.get (authors_of w') "bob" = Some tag' /\
     tweetCount tag' = tweets_by "bob" (tweets_of w) /\
     displayName tag' = displayName (sample_tag "bob" 7) /\
     tags tag' = tags (sample_tag "bob" 7) /\ notes tag' = notes (sample_tag "bob" 7) /\
     createdAt tag' = createdAt (sample_tag "bob" 7)) /\
  (exists tag', JS.get (authors_of w'') "carol" = Some tag' /\
     tweetCount tag' = tweets_by "carol" (tweets_of w) /\
     handle tag' = "carol" /\ tags tag' = [] /\ notes tag' = "") /\
  JS.get (authors_of w3) "constructor" = None.
Proof.
  intros by_constructor w w' w'' w3.
  assert (H1 : "bob" <> "") by discriminate.
  assert (H2 : "carol" <> "") by discriminate.
  assert (H2' : "constructor" <> "") by discriminate.
  assert (H3 : JS.get (authors_of w) "bob" = Some (sample_tag "bob" 7)) by reflexivity.
  assert (H4 : JS.get (authors_of w) "carol" = None) by reflexivity.
  assert (H4' : Plain.inherits "carol" = false) by reflexivity.
  assert (H5 : 0 < tweets_by "carol" (tweets_of w)) by (vm_compute; lia).
  assert (H6 : JS.get (authors_of w) "constructor" = None) by reflexivity.
  assert (H7 : Plain.inherits "constructor" = true) by reflexivity.
  assert (H8 : 0 < tweets_by "constructor" (tweets_of w)) by (vm_compute; lia).
  split; [now repeat split|]. split; [|split].
  - destruct (updateAuthorTweetCount_spec w H1) as (_ & _ & A & _). exact (A _ H3).
  - destruct (updateAuthorTweetCount_spec w H2) as (_ & _ & _ & _ & _ & B).
    exact (B H4 H4' H5).
  - destruct (updateAuthorTweetCount_spec w H2') as (_ & _ & _ & C & _). exact (C H6 H7).
Defined.

Section CountComposition.
Import Shared.

Lemma tracker_addTweet_world tweetData w :
  (forall t, In t (tweets_of w) -> id t <> id tweetData) ->
  author tweetData <> "" ->
  snd (Tracker.addTweet tweetData w)
  = snd (Tracker.updateAuthorTweetCount (author tweetData)
           (set_savedTweets (saved_by_add tweetData (tweets_of w)) w)).
Proof.
  intros Hnew Ha. unfold Tracker.addTweet. unfold bind at 1, getSavedTweets.
  fold (tweets_of w). rewrite (existsb_no_id _ Hnew).
  unfold bind at 1, saveTweets. unfold bind at 1.
  apply String.eqb_neq in Ha. rewrite Ha.
  fold (serialized_size (JS.unshift tweetData (tweets_of w))).
  change (if (90000 <? serialized_size (JS.unshift tweetData (tweets_of w)))%Z
          then JS.pop (JS.unshift tweetData (tweets_of w))
          else JS.unshift tweetData (tweets_of w))
    with (saved_by_add tweetData (tweets_of w)).
  destruct (Tracker.updateAuthorTweetCount _ _) as [[[]|] w']; reflexivity.
Qed.

Lemma tracker_deleteTweet_world tweetId w t :
  find (fun t => String.eqb (id t) tweetId) (tweets_of w) = Some t ->
  author t <> "" ->
  snd (Tracker.deleteTweet tweetId w)
  = snd (Tracker.updateAuthorTweetCount (author t)
           (set_savedTweets
              (filter (fun t => negb (String.eqb (id t) tweetId)) (tweets_of w)) w)).
Proof.
  intros Hf Ha. unfold Tracker.deleteTweet. unfold bind at 1, getSavedTweets.
  fold (tweets_of w). rewrite Hf.
  unfold bind at 1, saveTweets. unfold bind at 1.
  apply String.eqb_neq in Ha. rewrite Ha.
  destruct (Tracker.updateAuthorTweetCount _ _) as [[[]|] w']; reflexivity.
Qed.

Lemma tracker_deleteTweet_no_match tweetId w :
  find (fun t => String.eqb (id t) tweetId) (tweets_of w) = None ->
  authorTags (snd (Tracker.deleteTweet tweetId w)) = authorTags w.
Proof.
  intros Hf. unfold Tracker.deleteTweet. unfold bind at 1, getSavedTweets.
  fold (tweets_of w). rewrite Hf. reflexivity.
Qed.

End CountComposition.

(** X4.  After [addTweet] (of the tracker worker) has stored a record with a
    new id and an author, an entry the map owns for the author counts the
    stored tweets of that author.  For an author that names no property of
    [Object.prototype] the entry exists as soon as one of them is stored;
    for an author that names one, no entry is created. *)
Theorem addTweet_keeps_author_count tweetData w :
  (forall t, In t (tweets_of w) -> id t <> id tweetData) ->
  author tweetData <> "" ->
  let a := author tweetData in
  let w' := snd (Tracker.addTweet tweetData w) in
  counts_own_entry a w' /\
  (Plain.inherits a = false -> count_in_sync a w') /\
  (Plain.inherits a = true -> JS.get (authors_of w) a = None ->
   JS.get (authors_of w') a = None).
Proof.
  intros Hnew Ha a w'. unfold w', a. rewrite tracker_addTweet_world by assumption.
  split; [now apply updateAuthorTweetCount_own|]. split.
  - intros Hi. now apply updateAuthorTweetCount_in_sync.
  - intros Hi Hn. now apply updateAuthorTweetCount_inherited.
Qed.

Lemma addTweet_keeps_author_count_witness :
  let w := with_tweets three_tweets offline in
  let tweetData := short_tweet "4" "carol" ["NVDA"] in
  let inherited := short_tweet "5" "constructor" ["NVDA"] in
  ((forall t, In t (tweets_of w) -> id t <> id tweetData) /\
   author tweetData <> "" /\ Plain.inherits (author tweetData) = false /\
   (forall t, In t (tweets_of w) -> id t <> id inherited) /\
   author inherited <> "" /\ Plain.inherits (author inherited) = true /\
   JS.get (authors_of w) (author inherited) = None) /\
  count_in_sync (author tweetData) (snd (Tracker.addTweet tweetData w)) /\
  JS.get (authors_of (snd (Tracker.addTweet inherited w))) (author inherited) = None.
Proof.
  intros w tweetData inherited.
  assert (Hnew : forall t, In t (tweets_of w) -> id t <> id tweetData).
  { intros t [<-|[<-|[<-|[]]]]; discriminate. }
  assert (Ha : author tweetData <> "") by discriminate.
  assert (Hi : Plain.inherits (author tweetData) = false) by reflexivity.
  assert (Hnew' : forall t, In t (tweets_of w) -> id t <> id inherited).
  { intros t [<-|[<-|[<-|[]]]]; discriminate. }
  assert (Ha' : author inherited <> "") by discriminate.
  assert (Hi' : Plain.inherits (author inherited) = true) by reflexivity.
  assert (Hn : JS.get (authors_of w) (author inherited) = None) by reflexivity.
  split; [now repeat split|]. split.
  - exact (proj1 (proj2 (addTweet_keeps_author_count tweetData w Hnew Ha)) Hi).
  - exact (proj2 (proj2 (addTweet_keeps_author_count inherited w Hnew' Ha')) Hi' Hn).
Defined.

(** X5.  After [deleteTweet] (of the tracker worker) has removed the records
    of an id, an entry the map owns for the author of the first of them
    counts the tweets of that author that are left; an entry that was there
    is kept, with count 0 when none is left.  For an author that names no
    property of [Object.prototype], an entry exists as soon as a tweet of
    the author is left.  When no record has the id the author tags are
    untouched. *)
Theorem deleteTweet_keeps_author_count tweetId w :
  (forall t, find (fun t => String.eqb (id t) tweetId) (tweets_of w) = Some t ->
     author t <> "" ->
     counts_own_entry (author t) (snd (Tracker.deleteTweet tweetId w)) /\
     (Plain.inherits (author t) = false ->
      count_in_sync (author t) (snd (Tracker.deleteTweet tweetId w))) /\
     (forall tag, JS.get (authors_of w) (author t) = Some tag ->
        exists tag', JS.get (authors_of (snd (Tracker.deleteTweet tweetId w))) (author t)
                     = Some tag')) /\
  (find (fun t => String.eqb (id t) tweetId) (tweets_of w) = None ->
   authorTags (snd (Tracker.deleteTweet tweetId w)) = authorTags w).
Proof.
  split.
  - intros t Hf Ha. rewrite (tracker_deleteTweet_world _ _ Hf Ha).
    split; [now apply updateAuthorTweetCount_own|]. split.
    + intros Hi. now apply updateAuthorTweetCount_in_sync.
    + intros tag Ht.
      match goal with |- context [Tracker.updateAuthorTweetCount ?h ?x] =>
        destruct (@updateAuthorTweetCount_run h x Ha) as (w1 & E1 & _ & _ & _ & A);
        assert (Hx : authors_of x = authors_of w) by reflexivity end.
      rewrite E1. cbn [snd]. rewrite Hx, Ht in A.
      destruct A as (tag' & E & _). now exists tag'.
  - apply tracker_deleteTweet_no_match.
Qed.

Lemma deleteTweet_keeps_author_count_witness :
  let t := short_tweet "2" "bob" ["TSLA"; "AAPL"] in
  (find (fun t => String.eqb (id t) "2") (tweets_of two_authors) = Some t /\
   author t <> "" /\ Plain.inherits (author t) = false /\
   JS.get (authors_of two_authors) (author t) = Some (sample_tag "bob" 1) /\
   find (fun t => String.eqb (id t) "9") (tweets_of two_authors) = None) /\
  count_in_sync (author t) (snd (Tracker.deleteTweet "2" two_authors)) /\
  (exists tag', JS.get (authors_of (snd (Tracker.deleteTweet "2" two_authors))) (author t)
                = Some tag') /\
  authorTags (snd (Tracker.deleteTweet "9" two_authors)) = authorTags two_authors.
Proof.
  intros t.
  assert (H1 : find (fun t => String.eqb (id t) "2") (tweets_of two_authors) = Some t)
    by reflexivity.
  assert (H2 : author t <> "") by discriminate.
  assert (Hi : Plain.inherits (author t) = false) by reflexivity.
  assert (H3 : JS.get (authors_of two_authors) (author t) = Some (sample_tag "bob" 1))
    by reflexivity.
  assert (H4 : find (fun t => String.eqb (id t) "9") (tweets_of two_authors) = None)
    by reflexivity.
  split; [now repeat split|].
  destruct (deleteTweet_keeps_author_count "2" two_authors) as (A & _).
  destruct (deleteTweet_keeps_author_count "9" two_authors) as (_ & B).
  destruct (A t H1 H2) as (_ & A1 & A2).
  split; [exact (A1 Hi)|]. split; [exact (A2 _ H3) | exact (B H4)].
Defined.

Section ImportFacts.

Lemma get_spread {V} (b : JS.object V) : forall a k,
  NoDup (JS.keys b) ->
  JS.get (JSMore.spread a b) k
  = match JS.get b k with Some v => Some v | None => JS.get a k end.
Proof.
  unfold JSMore.spread.
  induction b as [|[k0 v0] b IH]; intros a k Hnd; simpl; [reflexivity|].
  inversion Hnd as [|? ? Hk Hnd']; subst. rewrite IH by assumption.
  destruct (String.eqb_spec k0 k) as [->|Hne].
  - apply get_None_not_In in Hk. rewrite Hk. apply get_set_same.
  - destruct (JS.get b k); [reflexivity|]. apply get_set_other. congruence.
Qed.

End ImportFacts.

(** X6.  [importAuthorTags] reports a payload that does not parse, or has no
    [authorTags], as [{ success: false, error }] and stores nothing.  A
    merging import stores, for every handle, the imported entry when there is
    one and the existing entry otherwise; a replacing import stores exactly
    the imported map.  Both report the number of imported handles and leave
    the tweets alone. *)
Theorem importAuthorTags_spec :
  (forall message merge w,
     AuthorStore.importAuthorTags (ParseError message) merge w
     = (Returns {| imported_ok := false; import_error := Some message;
                   import_count := None; import_merged := None |}, w)) /\
  (forall merge w,
     AuthorStore.importAuthorTags (ParsedTags None) merge w
     = (Returns {| imported_ok := false;
                   import_error := Some "Invalid format: missing authorTags";
                   import_count := None; import_merged := None |}, w)) /\
  (forall imported merge w,
     let r := AuthorStore.importAuthorTags (ParsedTags (Some imported)) merge w in
     fst r = Returns {| imported_ok := true; import_error := None;
                        import_count := Some (List.length imported);
                        import_merged := Some merge |} /\
     savedTweets (snd r) = savedTweets w /\
     (merge = false -> authors_of (snd r) = imported) /\
     (merge = true -> NoDup (JS.keys imported) ->
      forall h, JS.get (authors_of (snd r)) h
                = match JS.get imported h with
                  | Some tag => Some tag
                  | None => JS.get (authors_of w) h
                  end)).
Proof.
  split; [reflexivity|]. split; [reflexivity|].
  intros imported [|] w r; unfold r, AuthorStore.importAuthorTags;
    unfold bind, Tracker.getAuthorTags, Tracker.saveAuthorTags, ret; cbn [fst snd];
    unfold JS.keys; rewrite length_map.
  - split; [reflexivity|]. split; [reflexivity|]. split; [discriminate|].
    intros _ Hnd h. unfold authors_of at 1. cbn. fold (authors_of w).
    now apply get_spread.
  - split; [reflexivity|]. split; [reflexivity|]. split; [reflexivity | discriminate].
Qed.

Lemma importAuthorTags_spec_witness :
  let imported := [("bob", sample_tag "bob" 9); ("dave", sample_tag "dave" 0)] in
  let r := AuthorStore.importAuthorTags (ParsedTags (Some imported)) true two_authors in
  NoDup (JS.keys imported) /\
  (forall h, JS.get (authors_of (snd r)) h
             = match JS.get imported h with
               | Some tag => Some tag
               | None => JS.get (authors_of two_authors) h
               end) /\
  authors_of (snd (AuthorStore.importAuthorTags (ParsedTags (Some imported)) false two_authors))
  = imported.
Proof.
  intros imported r.
  assert (H : NoDup (JS.keys imported)).
  { repeat constructor; simpl; intuition discriminate. }
  split; [exact H|].
  destruct importAuthorTags_spec as (_ & _ & A).
  destruct (A imported true two_authors) as (_ & _ & _ & B).
  destruct (A imported false two_authors) as (_ & _ & C & _).
  split; [exact (B eq_refl H) | exact (C eq_refl)].
Defined.

(** ** The tweet list *)

Section TweetListFacts.
Import Shared.

Lemma removelast_map {A B} (f : A -> B) l : removelast (map f l) = map f (removelast l).
Proof.
  induction l as [|x [|y l] IH]; simpl in *; try reflexivity. now rewrite IH.
Qed.

Lemma NoDup_removelast {A} (l : list A) : NoDup l -> NoDup (removelast l).
Proof.
  destruct l as [|x l]; [trivial|]. intros H.
  assert (Hne : x :: l <> []) by discriminate.
  rewrite (app_removelast_last x Hne) in H. now apply NoDup_app_remove_r in H.
Qed.

Lemma NoDup_map_filter {A B} (f : A -> B) (p : A -> bool) l :
  NoDup (map f l) -> NoDup (map f (filter p l)).
Proof.
  induction l as [|x l IH]; simpl; [trivial|].
  intros H. inversion H as [|? ? Hx Hl]; subst.
  destruct (p x); simpl; [|auto].
  constructor; [|auto]. intros Hin. apply Hx.
  apply in_map_iff in Hin as (y & <- & Hy). apply filter_In in Hy as [Hy _].
  now apply in_map.
Qed.

Lemma saved_by_add_ids tweetData tweets :
  (forall t, In t tweets -> id t <> id tweetData) ->
  NoDup (map id tweets) -> NoDup (map id (saved_by_add tweetData tweets)).
Proof.
  intros Hnew Hnd.
  assert (Hall : NoDup (map id (tweetData :: tweets))).
  { simpl. constructor; [|exact Hnd]. intros Hin.
    apply in_map_iff in Hin as (t & Hid & Ht). now apply (Hnew t). }
  unfold saved_by_add. destruct (_ <? _)%Z; [|exact Hall].
  rewrite <- removelast_map. now apply NoDup_removelast.
Qed.

Lemma new_or_duplicate tweetData tweets :
  (forall t, In t tweets -> id t <> id tweetData) \/
  (exists t, In t tweets /\ id t = id tweetData).
Proof.
  destruct (existsb (fun t => String.eqb (id t) (id tweetData)) tweets) eqn:E.
  - right. now apply existsb_has_id.
  - left. intros t Hin Hid.
    assert (H : existsb (fun t => String.eqb (id t) (id tweetData)) tweets = true)
      by (apply existsb_has_id; eauto).
    congruence.
Qed.

End TweetListFacts.

Section TweetRoundTrip.
Import Shared.

Lemma tracker_deleteTweet_tweets tweetId w :
  tweets_of (snd (Tracker.deleteTweet tweetId w))
  = filter (fun t => negb (String.eqb (id t) tweetId)) (tweets_of w).
Proof.
  destruct (tracker_deleteTweet_run tweetId w) as (w' & -> & Hw').
  unfold tweets_of at 1. cbn [snd]. now rewrite Hw'.
Qed.

Lemma background_deleteTweet_tweets tweetId w :
  tweets_of (snd (Background.deleteTweet tweetId w))
  = filter (fun t => negb (String.eqb (id t) tweetId)) (tweets_of w).
Proof. reflexivity. Qed.

Lemma addTweet_duplicate_tweets tweetData w :
  (exists t, In t (tweets_of w) /\ id t = id tweetData) ->
  tweets_of (snd (Tracker.addTweet tweetData w)) = tweets_of w /\
  tweets_of (snd (Background.addTweet tweetData w)) = tweets_of w.
Proof.
  intros H. apply existsb_has_id in H.
  unfold Tracker.addTweet, Background.addTweet, bind, getSavedTweets.
  fold (tweets_of w). rewrite H. split; reflexivity.
Qed.

Lemma In_removelast {A} (x : A) l : In x (removelast l) -> In x l.
Proof.
  induction l as [|y [|z l] IH]; simpl in *; tauto.
Qed.

Lemma filter_saved_by_add tweetData tweets :
  (forall t, In t tweets -> id t <> id tweetData) ->
  filter (fun t => negb (String.eqb (id t) (id tweetData))) (saved_by_add tweetData tweets)
  = if (90000 <? serialized_size (tweetData :: tweets))%Z then removelast tweets else tweets.
Proof.
  intros Hnew. unfold saved_by_add. destruct (_ <? _)%Z.
  - destruct tweets as [|x l]; [reflexivity|].
    change (removelast (tweetData :: x :: l)) with (tweetData :: removelast (x :: l)).
    cbn [filter]. rewrite String.eqb_refl. cbn [negb].
    apply filter_no_match. intros t Ht. apply Hnew. now apply In_removelast.
  - cbn [filter]. rewrite String.eqb_refl. cbn [negb]. now apply filter_no_match.
Qed.

End TweetRoundTrip.

(** X7.  The ids of the stored tweets stay distinct: when they are distinct
    before an [addTweet] or a [deleteTweet], of either worker, they are
    distinct after it, whatever record or id is given. *)
Theorem stored_ids_stay_distinct w :
  NoDup (map id (tweets_of w)) ->
  (forall tweetData,
     NoDup (map id (tweets_of (snd (Tracker.addTweet tweetData w)))) /\
     NoDup (map id (tweets_of (snd (Background.addTweet tweetData w))))) /\
  (forall tweetId,
     NoDup (map id (tweets_of (snd (Tracker.deleteTweet tweetId w)))) /\
     NoDup (map id (tweets_of (snd (Background.deleteTweet tweetId w))))).
Proof.
  intros Hnd. split.
  - intros tweetData. destruct (new_or_duplicate tweetData (tweets_of w)) as [Hnew|Hdup].
    + destruct (tracker_addTweet_new tweetData w Hnew) as [_ ->].
      destruct (background_addTweet_new tweetData w Hnew) as [_ ->].
      split; now apply saved_by_add_ids.
    + destruct (addTweet_duplicate_tweets tweetData w Hdup) as [-> ->]. now split.
  - intros tweetId. rewrite tracker_deleteTweet_tweets, background_deleteTweet_tweets.
    split; now apply NoDup_map_filter.
Qed.

Lemma stored_ids_stay_distinct_witness :
  let w := with_tweets three_tweets offline in
  NoDup (map id (tweets_of w)) /\
  NoDup (map id (tweets_of (snd (Tracker.addTweet (short_tweet "2" "dave" []) w)))) /\
  NoDup (map id (tweets_of (snd (Tracker.addTweet (short_tweet "4" "dave" []) w)))) /\
  NoDup (map id (tweets_of (snd (Tracker.deleteTweet "2" w)))).
Proof.
  intros w.
  assert (H : NoDup (map id (tweets_of w))).
  { repeat constructor; simpl; intuition discriminate. }
  split; [exact H|].
  destruct (stored_ids_stay_distinct w H) as (A & B).
  split; [exact (proj1 (A _))|]. split; [exact (proj1 (A _)) | exact (proj1 (B _))].
Defined.

(** X8.  Adding a record with a new id and then deleting that id gives the
    stored list back when the add dropped nothing (the serialized list with
    the record is not longer than 90000); when the add dropped the last
    record, the list comes back without it.  In both workers. *)
Theorem addTweet_then_deleteTweet tweetData w :
  (forall t, In t (tweets_of w) -> id t <> id tweetData) ->
  let restored :=
    if (90000 <? serialized_size (tweetData :: tweets_of w))%Z
    then removelast (tweets_of w) else tweets_of w in
  tweets_of (snd (Tracker.deleteTweet (id tweetData) (snd (Tracker.addTweet tweetData w))))
    = restored /\
  tweets_of (snd (Background.deleteTweet (id tweetData)
                    (snd (Background.addTweet tweetData w))))
    = restored /\
  ((serialized_size (tweetData :: tweets_of w) <= 90000)%Z -> restored = tweets_of w).
Proof.
  intros Hnew restored.
  rewrite tracker_deleteTweet_tweets, background_deleteTweet_tweets.
  destruct (tracker_addTweet_new tweetData w Hnew) as [_ ->].
  destruct (background_addTweet_new tweetData w Hnew) as [_ ->].
  rewrite filter_saved_by_add by assumption.
  split; [reflexivity|]. split; [reflexivity|]. intros Hle. unfold restored.
  destruct (Z.ltb_spec 90000 (serialized_size (tweetData :: tweets_of w))); [lia | reflexivity].
Qed.

Lemma addTweet_then_deleteTweet_witness :
  let w := with_tweets three_tweets offline in
  let tweetData := short_tweet "4" "dave" ["NVDA"] in
  (forall t, In t (tweets_of w) -> id t <> id tweetData) /\
  (serialized_size (tweetData :: tweets_of w) <= 90000)%Z /\
  tweets_of (snd (Tracker.deleteTweet (id tweetData) (snd (Tracker.addTweet tweetData w))))
    = tweets_of w.
Proof.
  intros w tweetData.
  assert (Hnew : forall t, In t (tweets_of w) -> id t <> id tweetData).
  { intros t [<-|[<-|[<-|[]]]]; discriminate. }
  assert (Hle : (serialized_size (tweetData :: tweets_of w) <= 90000)%Z)
    by (vm_compute; discriminate).
  split; [exact Hnew|]. split; [exact Hle|].
  destruct (addTweet_then_deleteTweet tweetData w Hnew) as (A & _ & C).
  rewrite A. exact (C Hle).
Defined.

(** ** More on the quote cache *)

Section CacheRoundTrip.
Import Shared.

Lemma In_set_other {V} (o : JS.object V) s x k v :
  In (k, v) (JS.set o s x) -> k <> s -> In (k, v) o.
Proof.
  induction o as [|[k0 v0] o IH]; simpl.
  - intros [[= -> ->]|[]] Hne. congruence.
  - destruct (String.eqb_spec k0 s) as [->|Hk]; simpl.
    + intros [[= -> ->]|H] Hne; [congruence | now right].
    + intros [H|H] Hne; [now left | right; auto].
Qed.

(** The newest entry is the first of the sorted entries. *)
Lemma newest_is_first (c : Cache) sym e :
  NoDup (JS.keys c) ->
  JS.get c sym = Some e ->
  (forall k e', In (k, e') c -> k <> sym -> (timestamp e' < timestamp e)%Z) ->
  exists rest, JS.sort by_timestamp c = (sym, e) :: rest.
Proof.
  intros Hnd Hget Hnew.
  pose proof (sort_Permutation entry_time c) as Hperm.
  pose proof (sort_sorted entry_time c) as Hsort.
  change (descending entry_time) with by_timestamp in Hperm, Hsort.
  assert (Hin : In (sym, e) (JS.sort by_timestamp c)).
  { apply (Permutation_in _ (Permutation_sym Hperm)). now apply get_Some_In. }
  destruct (JS.sort by_timestamp c) as [|[k e'] rest]; [contradiction|].
  exists rest. f_equal.
  assert (Hh : In (k, e') c) by (apply (Permutation_in _ Hperm); now left).
  destruct (string_dec k sym) as [->|Hne].
  - apply (In_get_NoDup _ _ _ Hnd) in Hh. congruence.
  - exfalso. destruct Hin as [Heq|Hin]; [congruence|].
    inversion Hsort as [|? ? _ Hall]; subst. rewrite Forall_forall in Hall.
    specialize (Hall _ Hin). unfold ge_key, entry_time in Hall. simpl in Hall.
    specialize (Hnew k e' Hh Hne). lia.
Qed.

Lemma limit_cache_keeps_newest (c : Cache) sym e :
  NoDup (JS.keys c) ->
  JS.get c sym = Some e ->
  (List.length c <= 50 \/
   forall k e', In (k, e') c -> k <> sym -> (timestamp e' < timestamp e)%Z) ->
  JS.get (limit_cache c) sym = Some e.
Proof.
  intros Hnd Hget [Hlen|Hnew].
  - now rewrite limit_cache_under.
  - destruct (Nat.lt_ge_cases 50 (List.length c)) as [Hlt|Hge];
      [|now rewrite limit_cache_under].
    rewrite limit_cache_over by assumption.
    destruct (@newest_is_first c sym e Hnd Hget Hnew) as [rest ->].
    simpl. now rewrite String.eqb_refl.
Qed.

Lemma limit_cache_other (c : Cache) k x :
  NoDup (JS.keys c) -> JS.get (limit_cache c) k = Some x -> JS.get c k = Some x.
Proof.
  intros Hnd Hget. apply get_Some_In in Hget.
  apply limit_cache_incl in Hget; [|exact Hnd]. now apply In_get_NoDup.
Qed.

End CacheRoundTrip.

(** X9.  A write to the cache followed by a lookup of the symbol finds the
    quote just written, with the instant of the write, provided the written
    object has at most 50 entries or every other entry is strictly older
    than the write. *)
Theorem put_then_get c sym q w :
  NoDup (JS.keys c) ->
  let now := clock w (ticks w) in
  (List.length (JS.set c sym {| data := q; timestamp := now |}) <= 50 \/
   forall k e', In (k, e') c -> k <> sym -> (timestamp e' < now)%Z) ->
  JS.get (cache_of (snd (Shared.put c sym q w))) sym
  = Some {| data := q; timestamp := now |}.
Proof.
  intros Hnd now Hroom. rewrite put_stores. fold now.
  apply limit_cache_keeps_newest.
  - now apply NoDup_keys_set.
  - apply get_set_same.
  - destruct Hroom as [Hlen|Hnew]; [now left|]. right.
    intros k e' Hin Hne. simpl. apply Hnew with (k := k); [|exact Hne].
    now apply In_set_other in Hin.
Qed.

Lemma put_then_get_witness :
  let c := sample_entries 60 in
  let w := with_clock (fun _ => 100%Z) offline in
  let now := clock w (ticks w) in
  NoDup (JS.keys c) /\
  (forall k e', In (k, e') c -> k <> "NEW" -> (timestamp e' < now)%Z) /\
  JS.get (cache_of (snd (Shared.put c "NEW" (sample_quote "NEW") w))) "NEW"
  = Some {| data := sample_quote "NEW"; timestamp := now |}.
Proof.
  intros c w now.
  assert (H1 : NoDup (JS.keys c)).
  { assert (E : nodup string_dec (JS.keys c) = JS.keys c) by (vm_compute; reflexivity).
    rewrite <- E. apply NoDup_nodup. }
  assert (H2 : forall k e', In (k, e') c -> k <> "NEW" -> (timestamp e' < now)%Z).
  { intros k e' Hin _. unfold c, sample_entries in Hin.
    apply in_map_iff in Hin as (n & [= <- <-] & Hn). apply in_seq in Hn.
    simpl. unfold now. simpl. lia. }
  split; [exact H1|]. split; [exact H2|].
  exact (@put_then_get c "NEW" (sample_quote "NEW") w H1 (or_intror H2)).
Defined.

(** X10.  A write to the cache never changes the entry of another symbol:
    afterwards it is what it was, or it has been dropped.  The stored object
    has at most 50 entries, with distinct keys. *)
Theorem put_leaves_other_symbols c sym q w k :
  NoDup (JS.keys c) ->
  k <> sym ->
  let stored := cache_of (snd (Shared.put c sym q w)) in
  (JS.get stored k = None \/ JS.get stored k = JS.get c k) /\
  List.length stored <= 50 /\
  NoDup (JS.keys stored).
Proof.
  intros Hnd Hne stored. unfold stored. rewrite put_stores.
  set (full := JS.set c sym _).
  assert (Hfull : NoDup (JS.keys full)) by now apply NoDup_keys_set.
  split; [|split; [now apply limit_cache_length | now apply limit_cache_NoDup]].
  destruct (JS.get (Shared.limit_cache full) k) as [x|] eqn:E; [right | now left].
  apply limit_cache_other in E; [|exact Hfull].
  unfold full in E. rewrite get_set_other in E by assumption. now rewrite E.
Qed.

Lemma put_leaves_other_symbols_witness :
  let c := sample_entries 3 in
  let stored := cache_of (snd (Shared.put c "NEW" (sample_quote "NEW") offline)) in
  NoDup (JS.keys c) /\ "S1" <> "NEW" /\
  (JS.get stored "S1" = None \/ JS.get stored "S1" = JS.get c "S1") /\
  List.length stored <= 50 /\
  NoDup (JS.keys stored).
Proof.
  intros c stored.
  assert (H1 : NoDup (JS.keys c)).
  { repeat constructor; simpl; intuition discriminate. }
  assert (H2 : "S1" <> "NEW") by discriminate.
  split; [exact H1|]. split; [exact H2|].
  exact (@put_leaves_other_symbols c "NEW" (sample_quote "NEW") offline "S1" H1 H2).
Defined.

(** ** More on the resolver *)

Section RequestFacts.
Import Shared.
Context {host : Host}.

Lemma fetchPerformanceForRange_run sym range interval w :
  exists v w',
    fetchPerformanceForRange sym range interval w = (Returns v, w') /\
    requests w' = requests w
      ++ [chart_url sym ("range=" ++ range ++ "&interval=" ++ interval)].
Proof.
  unfold fetchPerformanceForRange, try_catch, bind, fetch, ret, throw.
  destruct (yahoo w _ _) as [|[] [[res|]|]]; simpl; eauto.
  destruct (close res) as [closes|]; simpl; eauto.
  destruct (Nat.eqb _ 0); simpl; eauto.
Qed.

Lemma with_range_performance_run sym q w :
  exists p1 p2 p3 p4 w',
    with_range_performance sym q w
    = (Returns {| symbol := symbol q; name := name q; currentPrice := currentPrice q;
                  priceFormatted := priceFormatted q; currency := currency q;
                  marketCap := marketCap q; marketCapFormatted := marketCapFormatted q;
                  performance :=
                    JS.set (JS.set (JS.set (JS.set (performance q) "1M" p1) "YTD" p2)
                              "1Y" p3) "5Y" p4;
                  source := source q |}, w') /\
    requests w' = requests w ++ range_urls sym.
Proof.
  unfold with_range_performance.
  destruct (fetchPerformanceForRange_run sym "1mo" "1d" w) as (v1 & w1 & E1 & R1).
  destruct (fetchPerformanceForRange_run sym "ytd" "1d" w1) as (v2 & w2 & E2 & R2).
  destruct (fetchPerformanceForRange_run sym "1y" "1d" w2) as (v3 & w3 & E3 & R3).
  destruct (fetchPerformanceForRange_run sym "5y" "1wk" w3) as (v4 & w4 & E4 & R4).
  unfold bind. rewrite E1, E2, E3, E4. unfold ret.
  exists (of_nullable v1), (of_nullable v2), (of_nullable v3), (of_nullable v4), w4.
  split; [reflexivity|].
  rewrite R4, R3, R2, R1. unfold range_urls. rewrite <- !app_assoc. reflexivity.
Qed.

Lemma read_quote_requests sym r q w : requests (snd (read_quote sym r q w)) = requests w.
Proof.
  unfold read_quote, bind, response_json, ret, throw.
  destruct r as [|[] [[res|]|]]; simpl; try reflexivity.
  destruct (meta res); reflexivity.
Qed.

Lemma fetchFromLocalServer_run sym w :
  exists r w',
    Handoff.fetchFromLocalServer sym w = (Returns r, w') /\
    requests w' = requests w ++ [local_url sym] /\
    same_storage w w' /\ clock w' = clock w /\ ticks w' = ticks w /\
    match localServer w (List.length (requests w)) (local_url sym) with
    | Response true (Some d) =>
        if d_error d then r = None
        else exists q, r = Some q /\ source q = Some "local-server" /\
               symbol q = d_symbol d /\ name q = d_name d /\
               currentPrice q = d_price d /\ marketCap q = d_marketCap d
    | _ => r = None
    end.
Proof.
  unfold Handoff.fetchFromLocalServer, try_catch, bind, fetch, ret, throw, response_json.
  fold (local_url sym).
  destruct (localServer w _ _) as [|[] [d|]]; simpl;
    try (eexists; eexists; repeat split; reflexivity).
  destruct (d_error d); simpl.
  - eexists; eexists; repeat split; reflexivity.
  - eexists. eexists. split; [reflexivity|]. split; [reflexivity|].
    split; [now repeat split|]. split; [reflexivity|]. split; [reflexivity|].
    eexists. split; [reflexivity|]. now repeat split.
Qed.

End RequestFacts.

Section DirectFacts.
Import Shared.
Context {host : Host}.

Lemma get_set_still {V} (o : JS.object V) k k' v :
  JS.get o k <> None -> JS.get (JS.set o k' v) k <> None.
Proof.
  intros H. destruct (string_dec k k') as [->|Hne].
  - rewrite get_set_same. discriminate.
  - now rewrite get_set_other.
Qed.

Lemma range_keys_present {V} (o : JS.object V) p1 p2 p3 p4 k :
  In k ["1M"; "YTD"; "1Y"; "5Y"] ->
  JS.get (JS.set (JS.set (JS.set (JS.set o "1M" p1) "YTD" p2) "1Y" p3) "5Y" p4) k <> None.
Proof.
  intros [<-|[<-|[<-|[<-|[]]]]].
  - do 3 apply get_set_still. rewrite get_set_same. discriminate.
  - do 2 apply get_set_still. rewrite get_set_same. discriminate.
  - apply get_set_still. rewrite get_set_same. discriminate.
  - rewrite get_set_same. discriminate.
Qed.

(** The ways [fetchFromYahooFinanceDirect] can end. *)
Lemma fetchFromYahooFinanceDirect_run sym w :
  exists o w',
    Handoff.fetchFromYahooFinanceDirect sym w = (o, w') /\
    same_storage w w' /\ clock w' = clock w /\ ticks w' = ticks w /\
    ((o = Throws /\ requests w' = requests w ++ [quote_url sym]) \/
     (requests w' = requests w ++ quote_url sym :: range_urls sym /\
      match yahoo w (List.length (requests w)) (quote_url sym) with
      | Response true (Some (Some res)) =>
          match meta res with
          | Some m =>
              if not_null (regularMarketPrice m)
              then exists q, o = Returns q /\
                     symbol q = sym /\ currentPrice q = regularMarketPrice m /\
                     name q = or_else (shortName m) (or_else (longName m) sym) /\
                     currency q = or_else (m_currency m) "USD" /\
                     (forall k, In k ["1M"; "YTD"; "1Y"; "5Y"] ->
                                JS.get (performance q) k <> None)
              else o = Throws
          | None => o = Throws
          end
      | _ => o = Throws
      end)).
Proof.
  unfold Handoff.fetchFromYahooFinanceDirect. fold (quote_url sym).
  unfold bind at 1. unfold fetch.
  destruct (yahoo w (List.length (requests w)) (quote_url sym)) as [|ok body] eqn:Ey.
  { eexists. eexists. split; [reflexivity|]. split; [now repeat split|].
    split; [reflexivity|]. split; [reflexivity|]. left. now split. }
  set (w1 := log_request (quote_url sym) w).
  set (q0 := {| symbol := sym; name := sym; currentPrice := JNull;
                priceFormatted := "N/A"; currency := "USD"; marketCap := JNull;
                marketCapFormatted := Some "N/A"; performance := [];
                source := Some "yahoo-direct" |}).
  assert (Hthrow : forall q1, currentPrice q1 = JNull ->
            exists o w',
              (stockInfo <- with_range_performance sym q1 ;;
               if not_null (currentPrice stockInfo) then ret stockInfo else throw) w1
              = (o, w') /\
              same_storage w w' /\ clock w' = clock w /\ ticks w' = ticks w /\
              requests w' = requests w ++ quote_url sym :: range_urls sym /\ o = Throws).
  { intros q1 Hq1.
    destruct (with_range_performance_run sym q1 w1) as (p1 & p2 & p3 & p4 & w2 & E & R).
    pose proof (network_only_with_range_performance sym q1 w1) as F.
    rewrite E in F. destruct F as (F1 & F2 & F3 & F4 & F5 & _).
    unfold bind. rewrite E. cbn [currentPrice]. rewrite Hq1. cbn [not_null].
    eexists. eexists. split; [reflexivity|].
    split; [now repeat split|]. split; [exact F4|]. split; [exact F5|].
    split; [|reflexivity]. rewrite R. unfold w1. simpl. now rewrite <- app_assoc. }
  destruct ok.
  - destruct body as [[res|]|].
    + destruct (meta res) as [m|] eqn:Em.
      * (* the price of the meta decides *)
        unfold read_quote, bind at 1. cbn [response_ok response_json].
        unfold bind at 1, ret at 1. rewrite Em. unfold ret at 1.
        destruct (with_range_performance_run sym (apply_meta sym m q0) w1)
          as (p1 & p2 & p3 & p4 & w2 & E & R).
        pose proof (network_only_with_range_performance sym (apply_meta sym m q0) w1) as F.
        rewrite E in F. destruct F as (F1 & F2 & F3 & F4 & F5 & _).
        unfold bind. rewrite E. cbn [currentPrice apply_meta].
        destruct (not_null (regularMarketPrice m)); unfold ret, throw;
          eexists; eexists; (split; [reflexivity|]);
          (split; [now repeat split|]); (split; [exact F4|]); (split; [exact F5|]);
          right; (split; [rewrite R; unfold w1; simpl; now rewrite <- app_assoc|]);
          [|reflexivity].
        eexists. split; [reflexivity|]. cbn.
        split; [reflexivity|]. split; [reflexivity|]. split; [reflexivity|].
        split; [reflexivity|]. intros k Hk. now apply range_keys_present.
      * unfold read_quote, bind at 1. cbn [response_ok response_json].
        unfold bind at 1, ret at 1. rewrite Em. unfold ret at 1.
        destruct (Hthrow q0 eq_refl) as (o & w' & E & S & C & T & R & ->).
        rewrite E. eexists. eexists. split; [reflexivity|]. repeat split; try apply S; trivial.
        right. now split.
    + unfold read_quote, bind at 1. cbn [response_ok response_json].
      unfold bind at 1, ret at 1. unfold ret at 1.
      destruct (Hthrow q0 eq_refl) as (o & w' & E & S & C & T & R & ->).
      rewrite E. eexists. eexists. split; [reflexivity|]. repeat split; try apply S; trivial.
      right. now split.
    + unfold read_quote, bind at 1. cbn [response_ok response_json]. unfold bind at 1, throw at 1.
      eexists. eexists. split; [reflexivity|]. split; [now repeat split|].
      split; [reflexivity|]. split; [reflexivity|]. left. now split.
  - unfold read_quote, bind at 1. cbn [response_ok]. unfold ret at 1.
    destruct (Hthrow q0 eq_refl) as (o & w' & E & S & C & T & R & ->).
    rewrite E. eexists. eexists. split; [reflexivity|]. repeat split; try apply S; trivial.
    right. split; [exact R|]. now destruct body as [[?|]|].
Qed.

End DirectFacts.

Section ResolverTrace.
Import Shared.
Context {host : Host}.

Lemma after_lookup_storage w sym : same_storage w (after_lookup w sym).
Proof. unfold after_lookup. destruct (JS.get (cache_of w) sym); now repeat split. Qed.

Lemma same_storage_trans w1 w2 w3 :
  same_storage w1 w2 -> same_storage w2 w3 -> same_storage w1 w3.
Proof. intros (a & b & c) (d & e & f). repeat split; congruence. Qed.

Lemma prefix_refl {A} (l : list A) : prefix l l.
Proof. exists []. now rewrite app_nil_r. Qed.

(** Every way [fetchStockInfo] of the handoff listing can end. *)
Lemma handoff_run sym w :
  exists o w' added,
    Handoff.fetchStockInfo sym w = (Returns o, w') /\
    requests w' = requests w ++ added /\
    prefix added (local_url sym :: quote_url sym :: range_urls sym) /\
    (forall m, o = Failed m -> same_storage w w') /\
    (forall d, stale_or_absent w sym ->
       localServer w (List.length (requests w)) (local_url sym) = Response true (Some d) ->
       d_error d = false ->
       added = [local_url sym] /\
       exists q, o = Info q /\ source q = Some "local-server" /\
         symbol q = d_symbol d /\ name q = d_name d /\
         currentPrice q = d_price d /\ marketCap q = d_marketCap d).
Proof.
  destruct (fresh_or_not w sym) as [[e He]|Hs].
  { rewrite (handoff_hit He). exists (Info (data e)), (tick w), [].
    split; [reflexivity|]. split; [simpl; now rewrite app_nil_r|].
    split; [now eexists|]. split; [discriminate|].
    intros d Hs. exfalso. destruct He as [Hg Hlt]. unfold stale_or_absent in Hs.
    rewrite Hg in Hs. lia. }
  rewrite handoff_miss by assumption.
  pose proof (after_lookup_requests w sym) as R0.
  pose proof (after_lookup_storage w sym) as S0.
  assert (L0 : localServer (after_lookup w sym) = localServer w)
    by (unfold after_lookup; now destruct (JS.get (cache_of w) sym)).
  set (w0 := after_lookup w sym) in *.
  unfold try_catch. unfold bind at 1.
  destruct (fetchFromLocalServer_run sym w0) as (r & wa & E & R & S & _ & _ & Hr).
  rewrite E. rewrite L0, R0 in Hr. rewrite R0 in R.
  destruct r as [q|].
  - unfold bind at 1, ret at 1. unfold bind at 1. rewrite put_origin. unfold ret.
    exists (Info q), (set_stockCache
                        (limit_cache (JS.set (cache_of w) sym
                           {| data := q; timestamp := clock wa (ticks wa) |})) (tick wa)),
           [local_url sym].
    split; [reflexivity|]. split; [exact R|]. split; [now eexists|].
    split; [discriminate|]. intros d _ Hd He. rewrite Hd, He in Hr.
    destruct Hr as (q' & [= <-] & Hq). split; [reflexivity|]. now exists q.
  - assert (Hnone : forall d,
              localServer w (List.length (requests w)) (local_url sym)
              = Response true (Some d) -> d_error d = false -> False).
    { intros d Hd He. rewrite Hd, He in Hr. destruct Hr as (q' & Hq & _). discriminate. }
    unfold bind at 1.
    destruct (fetchFromYahooFinanceDirect_run sym wa)
      as (o & wb & E2 & S2 & _ & _ & Hcases).
    rewrite E2. destruct o as [q|].
    + unfold bind at 1. rewrite put_origin. unfold ret.
      destruct Hcases as [[Habs _]|[R2 _]]; [discriminate|].
      eexists. eexists. exists (local_url sym :: quote_url sym :: range_urls sym).
      split; [reflexivity|]. split; [simpl; rewrite R2, R; now rewrite <- app_assoc|].
      split; [apply prefix_refl|]. split; [discriminate|].
      intros d _ Hd He. now destruct (Hnone d Hd He).
    + unfold ret.
      assert (Hst : same_storage w wb)
        by (eapply same_storage_trans; [exact S0|]; eapply same_storage_trans; eauto).
      destruct Hcases as [[_ R2]|[R2 _]].
      * eexists. eexists. exists [local_url sym; quote_url sym].
        split; [reflexivity|]. split; [rewrite R2, R; now rewrite <- app_assoc|].
        split; [now exists (range_urls sym)|]. split; [intros; exact Hst|].
        intros d _ Hd He. now destruct (Hnone d Hd He).
      * eexists. eexists. exists (local_url sym :: quote_url sym :: range_urls sym).
        split; [reflexivity|]. split; [rewrite R2, R; now rewrite <- app_assoc|].
        split; [apply prefix_refl|]. split; [intros; exact Hst|].
        intros d _ Hd He. now destruct (Hnone d Hd He).
Qed.

(** Every way [fetchStockInfo] of [src/background.js] can end. *)
Lemma background_run sym w :
  exists o w' added,
    Background.fetchStockInfo sym w = (Returns o, w') /\
    requests w' = requests w ++ added /\
    prefix added (quote_url sym :: range_urls sym) /\
    (forall m, o = Failed m -> same_storage w w').
Proof.
  destruct (fresh_or_not w sym) as [[e He]|Hs].
  { rewrite (background_hit He). exists (Info (data e)), (tick w), [].
    split; [reflexivity|]. split; [simpl; now rewrite app_nil_r|].
    split; [now eexists | discriminate]. }
  unfold Background.fetchStockInfo, bind at 1, getStockCache.
  fold (cache_of w). unfold bind at 1. rewrite fresh_entry_miss by assumption.
  pose proof (after_lookup_requests w sym) as R0.
  pose proof (after_lookup_storage w sym) as S0.
  set (w0 := after_lookup w sym) in *.
  unfold try_catch. unfold bind at 1. fold (quote_url sym).
  pose proof (fetch_logs yahoo (quote_url sym) w0) as R1.
  pose proof (network_only_fetch yahoo (quote_url sym) w0) as F1.
  destruct (fetch yahoo (quote_url sym) w0) as [[r|] wa]; simpl in R1, F1; rewrite R0 in R1.
  2:{ unfold ret. eexists. eexists. exists [quote_url sym].
      split; [reflexivity|]. split; [exact R1|]. split; [now exists (range_urls sym)|].
      intros m _. eapply same_storage_trans; [exact S0|].
      destruct F1 as (a & b & c & _). now repeat split. }
  unfold bind at 1.
  match goal with |- context [read_quote sym r ?q0 wa] =>
    pose proof (read_quote_requests sym r q0 wa) as R2;
    pose proof (network_only_read_quote sym r q0 wa) as F2;
    destruct (read_quote sym r q0 wa) as [[q1|] wb] end; simpl in R2, F2.
  2:{ unfold ret. eexists. eexists. exists [quote_url sym].
      split; [reflexivity|]. split; [now rewrite R2|]. split; [now exists (range_urls sym)|].
      intros m _. eapply same_storage_trans; [exact S0|].
      destruct F1 as (a & b & c & _), F2 as (a' & b' & c' & _).
      repeat split; congruence. }
  unfold bind at 1.
  destruct (with_range_performance_run sym q1 wb) as (p1 & p2 & p3 & p4 & wc & E3 & R3).
  pose proof (network_only_with_range_performance sym q1 wb) as F3.
  rewrite E3 in F3. simpl in F3. rewrite E3. cbn [currentPrice].
  assert (Rc : requests wc = requests w ++ quote_url sym :: range_urls sym).
  { rewrite R3, R2, R1. now rewrite <- app_assoc. }
  destruct (not_null (currentPrice q1)).
  - unfold bind at 1. rewrite put_origin. unfold ret.
    eexists. eexists. exists (quote_url sym :: range_urls sym).
    split; [reflexivity|]. split; [exact Rc|]. split; [apply prefix_refl | discriminate].
  - unfold throw, ret. eexists. eexists. exists (quote_url sym :: range_urls sym).
    split; [reflexivity|]. split; [exact Rc|]. split; [apply prefix_refl|].
    intros m _. eapply same_storage_trans; [exact S0|].
    destruct F1 as (a & b & c & _), F2 as (a' & b' & c' & _), F3 as (a'' & b'' & c'' & _).
    repeat split; congruence.
Qed.

End ResolverTrace.

(** ** Two calls in a row *)

Section TwoCalls.
Import Shared.

Lemma fetched_at_hit w sym e : fresh w sym e -> fetched_at w sym = timestamp e.
Proof.
  intros [Hg Hlt]. unfold fetched_at. rewrite Hg.
  apply Z.ltb_lt in Hlt. now rewrite Hlt.
Qed.

Lemma fetched_at_miss w sym : stale_or_absent w sym -> fetched_at w sym = write_time w sym.
Proof.
  unfold stale_or_absent, fetched_at.
  destruct (JS.get (cache_of w) sym) as [e|]; [|reflexivity].
  intros Hge. apply Z.ltb_ge in Hge. now rewrite Hge.
Qed.

Lemma fresh_not_stale w sym e : fresh w sym e -> stale_or_absent w sym -> False.
Proof.
  intros [Hg Hlt]. unfold stale_or_absent. rewrite Hg. lia.
Qed.

Lemma after_lookup_clock w sym : clock (after_lookup w sym) = clock w.
Proof. unfold after_lookup. now destruct (JS.get (cache_of w) sym). Qed.

(** What the two-call statements need of a resolver: a fresh entry is
    served; a miss ends in the marker with nothing but requests made, or
    returns a quote after writing it at the next reading of the clock; and a
    miss starts with a request for [first_url]. *)
Variable resolve : string -> M Quote.
Variable first_url : string -> string.

Hypothesis resolve_hit : forall w sym e,
  fresh w sym e -> resolve sym w = (Returns (Info (data e)), tick w).

Hypothesis resolve_miss : forall sym w,
  stale_or_absent w sym ->
  exists o w1 wb,
    resolve sym w = (Returns o, w1) /\ only_requests (after_lookup w sym) wb /\
    ((o = Failed (error_marker sym) /\ w1 = wb) \/
     exists q, o = Info q /\
       w1 = set_stockCache (limit_cache (JS.set (cache_of w) sym
                              {| data := q; timestamp := clock wb (ticks wb) |}))
              (tick wb)).

Hypothesis resolve_first_request : forall sym w,
  stale_or_absent w sym ->
  exists rest, requests (snd (resolve sym w)) = requests w ++ first_url sym :: rest.

Lemma served_again sym w1 q t :
  JS.get (cache_of w1) sym = Some {| data := q; timestamp := t |} ->
  (clock w1 (ticks w1) - t < CACHE_DURATION)%Z ->
  exists w2,
    resolve sym w1 = (Returns (Info q), w2) /\
    requests w2 = requests w1 /\ stockCache w2 = stockCache w1.
Proof.
  intros Hg Hlt. exists (tick w1).
  rewrite (@resolve_hit w1 sym {| data := q; timestamp := t |}) by (split; assumption).
  now repeat split.
Qed.

Lemma second_call_after_quote sym w q w1 :
  NoDup (JS.keys (cache_of w)) ->
  resolve sym w = (Returns (Info q), w1) ->
  clock w1 = clock w /\
  ((exists e, fresh w sym e) \/ survives_limit (cache_of w) sym (fetched_at w sym) ->
   JS.get (cache_of w1) sym = Some {| data := q; timestamp := fetched_at w sym |} /\
   ((clock w1 (ticks w1) - fetched_at w sym < CACHE_DURATION)%Z ->
    exists w2,
      resolve sym w1 = (Returns (Info q), w2) /\
      requests w2 = requests w1 /\ stockCache w2 = stockCache w1)).
Proof.
  intros Hnd Hfirst.
  destruct (fresh_or_not w sym) as [[e He]|Hs].
  - rewrite (resolve_hit He) in Hfirst. injection Hfirst as <- <-.
    split; [reflexivity|]. intros _. rewrite (@fetched_at_hit w sym e He).
    assert (Hg : JS.get (cache_of (tick w)) sym
                 = Some {| data := data e; timestamp := timestamp e |}).
    { destruct He as [Hg _]. destruct e. exact Hg. }
    split; [exact Hg|]. now apply served_again.
  - destruct (resolve_miss _ _ Hs) as (o & w1' & wb & E & Hn & [[-> ->]|(q' & -> & ->)]);
      rewrite E in Hfirst.
    + discriminate.
    + injection Hfirst as <- <-.
      destruct Hn as (_ & _ & _ & Hc & Ht & _).
      rewrite after_lookup_clock in Hc.
      assert (Hw : clock wb (ticks wb) = write_time w sym)
        by (unfold write_time; now rewrite Hc, Ht).
      rewrite Hw, (@fetched_at_miss w sym Hs).
      split; [exact Hc|]. intros [[e He]|Hroom]; [destruct (@fresh_not_stale w sym e He Hs)|].
      assert (Hg : JS.get (cache_of (set_stockCache
                     (limit_cache (JS.set (cache_of w) sym
                        {| data := q'; timestamp := write_time w sym |})) (tick wb))) sym
                   = Some {| data := q'; timestamp := write_time w sym |}).
      { change (cache_of (set_stockCache ?c ?x)) with c.
        apply limit_cache_keeps_newest.
        - now apply NoDup_keys_set.
        - apply get_set_same.
        - destruct Hroom as [Hlen|Hnew]; [left; apply Hlen|]. right.
          intros k e' Hin Hne. simpl. apply Hnew with (k := k); [|exact Hne].
          now apply In_set_other in Hin. }
      split; [exact Hg|]. now apply served_again.
Qed.

Lemma failed_call_then_network sym w m w1 :
  resolve sym w = (Returns (Failed m), w1) ->
  stockCache w1 = stockCache w /\ clock w1 = clock w /\
  ((clock w (ticks w) <= clock w1 (ticks w1))%Z ->
   exists rest, requests (snd (resolve sym w1)) = requests w1 ++ first_url sym :: rest).
Proof.
  intros Hfirst.
  destruct (fresh_or_not w sym) as [[e He]|Hs].
  { rewrite (resolve_hit He) in Hfirst. discriminate. }
  destruct (resolve_miss _ _ Hs) as (o & w1' & wb & E & Hn & [[-> ->]|(q' & -> & ->)]);
    rewrite E in Hfirst.
  2:{ discriminate. }
  injection Hfirst as _ <-.
  destruct Hn as (_ & Hc & _ & Hk & _).
  rewrite after_lookup_cache in Hc. rewrite after_lookup_clock in Hk.
  split; [exact Hc|]. split; [exact Hk|]. intros Hmono.
  apply resolve_first_request. unfold stale_or_absent, cache_of in *.
  rewrite Hc. destruct (stockCache w) as [c|]; [|exact I].
  destruct (JS.get c sym) as [e|]; [lia | exact I].
Qed.

End TwoCalls.

Section TwoCallsOfTheResolvers.
Import Shared.
Context {host : Host}.

Lemma handoff_miss_run sym w :
  stale_or_absent w sym ->
  exists o w1 wb,
    Handoff.fetchStockInfo sym w = (Returns o, w1) /\
    only_requests (after_lookup w sym) wb /\
    ((o = Failed (error_marker sym) /\ w1 = wb) \/
     exists q, o = Info q /\
       w1 = set_stockCache (limit_cache (JS.set (cache_of w) sym
                              {| data := q; timestamp := clock wb (ticks wb) |}))
              (tick wb)).
Proof.
  intros Hs. rewrite handoff_miss by assumption. unfold try_catch. unfold bind at 1.
  pose proof (network_only_fetchFromLocalServer sym (after_lookup w sym)) as N1.
  destruct (Handoff.fetchFromLocalServer sym _) as [[[s|]|] wa]; simpl in N1.
  - unfold bind at 1, ret at 1. unfold bind at 1. rewrite put_origin. unfold ret.
    eexists. eexists. exists wa. split; [reflexivity|]. split; [exact N1|].
    right. now exists s.
  - unfold bind at 1.
    pose proof (network_only_fetchFromYahooFinanceDirect sym wa) as N2.
    destruct (Handoff.fetchFromYahooFinanceDirect sym wa) as [[s|] wb]; simpl in N2.
    + unfold bind at 1. rewrite put_origin. unfold ret.
      eexists. eexists. exists wb. split; [reflexivity|].
      split; [now apply (only_requests_trans N1)|]. right. now exists s.
    + unfold ret. eexists. eexists. exists wb. split; [reflexivity|].
      split; [now apply (only_requests_trans N1) | now left].
  - unfold ret. eexists. eexists. exists wa. split; [reflexivity|].
    split; [exact N1 | now left].
Qed.

Lemma background_miss_run sym w :
  stale_or_absent w sym ->
  exists o w1 wb,
    Background.fetchStockInfo sym w = (Returns o, w1) /\
    only_requests (after_lookup w sym) wb /\
    ((o = Failed (error_marker sym) /\ w1 = wb) \/
     exists q, o = Info q /\
       w1 = set_stockCache (limit_cache (JS.set (cache_of w) sym
                              {| data := q; timestamp := clock wb (ticks wb) |}))
              (tick wb)).
Proof.
  intros Hs. unfold Background.fetchStockInfo, bind at 1, getStockCache.
  fold (cache_of w). unfold bind at 1. rewrite fresh_entry_miss by assumption.
  unfold try_catch. unfold bind at 1.
  pose proof (network_only_fetch yahoo (chart_url sym "interval=1d&range=1d")
                (after_lookup w sym)) as N1.
  destruct (fetch yahoo _ _) as [[r|] wa]; simpl in N1.
  2:{ unfold ret. eexists. eexists. exists wa. split; [reflexivity|].
      split; [exact N1 | now left]. }
  unfold bind at 1.
  match goal with |- context [read_quote sym r ?q0 wa] =>
    pose proof (network_only_read_quote sym r q0 wa) as N2;
    destruct (read_quote sym r q0 wa) as [[q1|] wb] end; simpl in N2.
  2:{ unfold ret. eexists. eexists. exists wb. split; [reflexivity|].
      split; [now apply (only_requests_trans N1) | now left]. }
  unfold bind at 1.
  pose proof (network_only_with_range_performance sym q1 wb) as N3.
  destruct (with_range_performance sym q1 wb) as [[q2|] wc]; simpl in N3.
  2:{ unfold ret. eexists. eexists. exists wc. split; [reflexivity|].
      split; [apply (only_requests_trans N1), (only_requests_trans N2), N3 | now left]. }
  destruct (not_null (currentPrice q2)).
  - unfold bind at 1. rewrite put_origin. unfold ret.
    eexists. eexists. exists wc. split; [reflexivity|].
    split; [apply (only_requests_trans N1), (only_requests_trans N2), N3|].
    right. now exists q2.
  - unfold throw, ret. eexists. eexists. exists wc. split; [reflexivity|].
    split; [apply (only_requests_trans N1), (only_requests_trans N2), N3 | now left].
Qed.

(** C4 (amended).  When the cache holds a fresh entry for the symbol (the
    clock reading minus its timestamp is below 15 minutes), [fetchStockInfo]
    returns the cached quote at once: it makes no request and stores
    nothing.  Consequently two calls in a row make no request beyond those
    of the first, which are an initial segment of the local quote url, the
    chart quote url and the four range urls (of the last five in
    [src/background.js]): when the first call returned a quote, the cache
    holds it with the instant of the fresh entry served or of the write,
    provided the write survives the limit of 50 entries, and a second call
    less than 15 minutes after that instant returns the same quote without a
    request.  A call that ends in the error marker stores nothing, so the
    next call asks the network again. *)
Theorem fresh_entry_is_served_from_cache :
  serves_fresh_entry Handoff.fetchStockInfo /\
  serves_fresh_entry Background.fetchStockInfo /\
  second_call_is_served Handoff.fetchStockInfo
    (fun sym => local_url sym :: quote_url sym :: range_urls sym) /\
  second_call_is_served Background.fetchStockInfo
    (fun sym => quote_url sym :: range_urls sym) /\
  failed_call_is_not_cached Handoff.fetchStockInfo local_url /\
  failed_call_is_not_cached Background.fetchStockInfo quote_url.
Proof.
  split; [|split; [|split; [|split; [|split]]]].
  - intros sym w e He. exists (tick w). rewrite (handoff_hit He). now repeat split.
  - intros sym w e He. exists (tick w). rewrite (background_hit He). now repeat split.
  - intros sym w q w1 Hnd Hfirst t. split.
    + destruct (handoff_run sym w) as (o & w' & added & E & R & P & _).
      rewrite E in Hfirst. injection Hfirst as _ <-. now exists added.
    + apply (@second_call_after_quote Handoff.fetchStockInfo handoff_hit handoff_miss_run
               sym w q w1 Hnd Hfirst).
  - intros sym w q w1 Hnd Hfirst t. split.
    + destruct (background_run sym w) as (o & w' & added & E & R & P & _).
      rewrite E in Hfirst. injection Hfirst as _ <-. now exists added.
    + apply (@second_call_after_quote Background.fetchStockInfo background_hit
               background_miss_run sym w q w1 Hnd Hfirst).
  - intros sym w m w1 Hfirst.
    apply (@failed_call_then_network Handoff.fetchStockInfo local_url handoff_hit
             handoff_miss_run handoff_first_request sym w m w1 Hfirst).
  - intros sym w m w1 Hfirst.
    apply (@failed_call_then_network Background.fetchStockInfo quote_url background_hit
             background_miss_run background_first_request sym w m w1 Hfirst).
Qed.

End TwoCallsOfTheResolvers.

Lemma fresh_entry_is_served_from_cache_witness :
  let sym := "AAPL" in
  let e := {| data := sample_quote sym; timestamp := 0 |} in
  let first := Handoff.fetchStockInfo sym direct_only in
  let first' := Background.fetchStockInfo sym direct_only in
  let failed := Handoff.fetchStockInfo "ZZZZ" offline in
  (fresh aapl_cached sym e /\
   NoDup (JS.keys (cache_of direct_only)) /\
   Handoff.fetchStockInfo sym direct_only
     = (Returns (Info (quote_of first sym)), world_after first) /\
   Background.fetchStockInfo sym direct_only
     = (Returns (Info (quote_of first' sym)), world_after first') /\
   survives_limit (cache_of direct_only) sym (fetched_at direct_only sym) /\
   (clock (world_after first) (ticks (world_after first)) - fetched_at direct_only sym
    < Shared.CACHE_DURATION)%Z /\
   (clock (world_after first') (ticks (world_after first')) - fetched_at direct_only sym
    < Shared.CACHE_DURATION)%Z /\
   Handoff.fetchStockInfo "ZZZZ" offline
     = (Returns (Failed (Shared.error_marker "ZZZZ")), world_after failed) /\
   (clock offline (ticks offline)
    <= clock (world_after failed) (ticks (world_after failed)))%Z) /\
  (exists w',
     Handoff.fetchStockInfo sym aapl_cached = (Returns (Info (data e)), w') /\
     requests w' = requests aapl_cached /\ stockCache w' = stockCache aapl_cached) /\
  (exists w2,
     Handoff.fetchStockInfo sym (world_after first)
       = (Returns (Info (quote_of first sym)), w2) /\
     requests w2 = requests (world_after first) /\
     stockCache w2 = stockCache (world_after first)) /\
  (exists w2,
     Background.fetchStockInfo sym (world_after first')
       = (Returns (Info (quote_of first' sym)), w2) /\
     requests w2 = requests (world_after first') /\
     stockCache w2 = stockCache (world_after first')) /\
  (exists rest,
     requests (snd (Handoff.fetchStockInfo "ZZZZ" (world_after failed)))
     = requests (world_after failed) ++ local_url "ZZZZ" :: rest).
Proof.
  intros sym e first first' failed.
  assert (F0 : fresh aapl_cached sym e) by (split; [reflexivity | vm_compute; reflexivity]).
  assert (N0 : NoDup (JS.keys (cache_of direct_only))) by constructor.
  assert (C1 : Handoff.fetchStockInfo sym direct_only
               = (Returns (Info (quote_of first sym)), world_after first))
    by (vm_compute; reflexivity).
  assert (C2 : Background.fetchStockInfo sym direct_only
               = (Returns (Info (quote_of first' sym)), world_after first'))
    by (vm_compute; reflexivity).
  assert (R0 : survives_limit (cache_of direct_only) sym (fetched_at direct_only sym)).
  { left. intros e0. simpl. lia. }
  assert (T1 : (clock (world_after first) (ticks (world_after first))
                - fetched_at direct_only sym < Shared.CACHE_DURATION)%Z)
    by (vm_compute; reflexivity).
  assert (T2 : (clock (world_after first') (ticks (world_after first'))
                - fetched_at direct_only sym < Shared.CACHE_DURATION)%Z)
    by (vm_compute; reflexivity).
  assert (C3 : Handoff.fetchStockInfo "ZZZZ" offline
               = (Returns (Failed (Shared.error_marker "ZZZZ")), world_after failed))
    by (vm_compute; reflexivity).
  assert (M3 : (clock offline (ticks offline)
                <= clock (world_after failed) (ticks (world_after failed)))%Z)
    by (vm_compute; discriminate).
  destruct (@fresh_entry_is_served_from_cache exact_host) as (S1 & _ & A1 & A2 & B1 & _).
  split; [now repeat split|].
  split; [exact (S1 sym aapl_cached e F0)|].
  split; [exact (proj2 (proj2 (proj2 (A1 sym direct_only _ _ N0 C1)) (or_intror R0)) T1)|].
  split; [exact (proj2 (proj2 (proj2 (A2 sym direct_only _ _ N0 C2)) (or_intror R0)) T2)|].
  exact (proj2 (proj2 (B1 "ZZZZ" offline _ _ C3)) M3).
Defined.

Section ResolverExtras.
Import Shared.
Context {host : Host}.

(** X11.  A call of [fetchStockInfo] that ends in the error marker has
    stored nothing: the quote cache, the tweets and the author tags are what
    they were.  In both listings. *)
Theorem failed_resolve_stores_nothing sym w m :
  (fst (Handoff.fetchStockInfo sym w) = Returns (Failed m) ->
   same_storage w (snd (Handoff.fetchStockInfo sym w))) /\
  (fst (Background.fetchStockInfo sym w) = Returns (Failed m) ->
   same_storage w (snd (Background.fetchStockInfo sym w))).
Proof.
  split.
  - destruct (handoff_run sym w) as (o & w' & added & -> & _ & _ & H & _).
    cbn [fst snd]. intros [= ->]. now apply (H m).
  - destruct (background_run sym w) as (o & w' & added & -> & _ & _ & H).
    cbn [fst snd]. intros [= ->]. now apply (H m).
Qed.

(** X12.  One call of [fetchStockInfo] asks for each url at most once and in
    a fixed order: the requests it adds to the log are an initial segment of
    the local quote url, the chart quote url and the four range urls (1mo,
    ytd, 1y, 5y); in [src/background.js], of the last five.  So a call makes
    at most six requests, five in [src/background.js], and never retries. *)
Theorem resolve_requests_in_order sym w :
  (exists added,
     requests (snd (Handoff.fetchStockInfo sym w)) = requests w ++ added /\
     prefix added (local_url sym :: quote_url sym :: range_urls sym) /\
     List.length added <= 6) /\
  (exists added,
     requests (snd (Background.fetchStockInfo sym w)) = requests w ++ added /\
     prefix added (quote_url sym :: range_urls sym) /\
     List.length added <= 5).
Proof.
  split.
  - destruct (handoff_run sym w) as (o & w' & added & -> & R & P & _).
    exists added. split; [exact R|]. split; [exact P|].
    destruct P as [rest P]. apply (f_equal (@List.length _)) in P.
    rewrite length_app in P. simpl in P. lia.
  - destruct (background_run sym w) as (o & w' & added & -> & R & P & _).
    exists added. split; [exact R|]. split; [exact P|].
    destruct P as [rest P]. apply (f_equal (@List.length _)) in P.
    rewrite length_app in P. simpl in P. lia.
Qed.

(** X13.  When the cached entry is stale or absent and the local server
    answers with a body that has no error flag, [fetchStockInfo] returns the
    quote built from that body, tagged ['local-server'], with the server's
    symbol, name, price and market cap, and makes no other request: the
    chart endpoint is not asked. *)
Theorem local_quote_skips_the_chart_endpoint sym w d :
  stale_or_absent w sym ->
  localServer w (List.length (requests w)) (local_url sym) = Response true (Some d) ->
  d_error d = false ->
  exists q,
    fst (Handoff.fetchStockInfo sym w) = Returns (Info q) /\
    requests (snd (Handoff.fetchStockInfo sym w)) = requests w ++ [local_url sym] /\
    source q = Some "local-server" /\
    symbol q = d_symbol d /\ name q = d_name d /\
    currentPrice q = d_price d /\ marketCap q = d_marketCap d.
Proof.
  intros Hs Hd He.
  destruct (handoff_run sym w) as (o & w' & added & -> & R & _ & _ & H).
  destruct (H d Hs Hd He) as (-> & q & -> & Hq).
  exists q. cbn [fst snd]. split; [reflexivity|]. split; [exact R | exact Hq].
Qed.

(** X14.  [fetchFromLocalServer] never throws and touches nothing but the
    request log, to which it adds its one url.  It returns null exactly when
    the request is rejected, the response is not ok, the body cannot be read
    or the body has the error flag. *)
Theorem fetchFromLocalServer_fails_silently sym w :
  exists r w',
    Handoff.fetchFromLocalServer sym w = (Returns r, w') /\
    requests w' = requests w ++ [local_url sym] /\
    same_storage w w' /\
    (r = None <->
     ~ exists d, localServer w (List.length (requests w)) (local_url sym)
                 = Response true (Some d) /\ d_error d = false).
Proof.
  destruct (fetchFromLocalServer_run sym w) as (r & w' & E & R & S & _ & _ & H).
  exists r, w'. split; [exact E|]. split; [exact R|]. split; [exact S|].
  destruct (localServer w _ _) as [|[] [d|]].
  - split; [intros _ (d & Hd & _); discriminate | intros _; exact H].
  - destruct (d_error d) eqn:Ed.
    + split; [|intros _; exact H]. intros _ (d' & [= <-] & Hd'). congruence.
    + destruct H as (q & -> & _). split; [discriminate|].
      intros Hn. exfalso. apply Hn. now exists d.
  - split; [intros _ (d & Hd & _); discriminate | intros _; exact H].
  - split; [intros _ (d' & Hd & _); discriminate | intros _; exact H].
  - split; [intros _ (d' & Hd & _); discriminate | intros _; exact H].
Qed.

(** X15.  [fetchFromYahooFinanceDirect] returns a quote only when the quote
    response is ok and carries a [meta] whose [regularMarketPrice] is not
    null.  The quote then has the requested symbol, that price, the name and
    currency of the [meta] with their defaults, and an entry for each of the
    periods 1M, YTD, 1Y and 5Y; and all five requests have been made. *)
Theorem fetchFromYahooFinanceDirect_returns_only_with_a_price sym w q w' :
  Handoff.fetchFromYahooFinanceDirect sym w = (Returns q, w') ->
  exists m closes,
    yahoo w (List.length (requests w)) (quote_url sym)
    = Response true (Some (Some {| meta := Some m; close := closes |})) /\
    regularMarketPrice m <> JNull /\
    symbol q = sym /\ currentPrice q = regularMarketPrice m /\
    name q = or_else (shortName m) (or_else (longName m) sym) /\
    currency q = or_else (m_currency m) "USD" /\
    (forall k, In k ["1M"; "YTD"; "1Y"; "5Y"] -> JS.get (performance q) k <> None) /\
    requests w' = requests w ++ quote_url sym :: range_urls sym.
Proof.
  intros E.
  destruct (fetchFromYahooFinanceDirect_run sym w) as (o & w1 & E1 & _ & _ & _ & H).
  rewrite E in E1. injection E1 as <- <-.
  destruct H as [[Habs _]|[R H]]; [discriminate|].
  destruct (yahoo w _ _) as [|[] [[[mt cl]|]|]]; try discriminate.
  simpl in H. destruct mt as [m|]; [|discriminate].
  destruct (not_null (regularMarketPrice m)) eqn:Hp; [|discriminate].
  destruct H as (q' & [= <-] & Hq). exists m, cl.
  split; [reflexivity|]. split; [intros Hn; now rewrite Hn in Hp|].
  destruct Hq as (a & b & c & d & e). now repeat split.
Qed.

End ResolverExtras.

Lemma local_quote_skips_the_chart_endpoint_witness :
  stale_or_absent local_only "AAPL" /\
  localServer local_only (List.length (requests local_only)) (local_url "AAPL")
    = Response true (Some sample_local_data) /\
  d_error sample_local_data = false /\
  exists q,
    fst (Handoff.fetchStockInfo "AAPL" local_only) = Returns (Info q) /\
    requests (snd (Handoff.fetchStockInfo "AAPL" local_only))
      = requests local_only ++ [local_url "AAPL"] /\
    source q = Some "local-server" /\
    symbol q = d_symbol sample_local_data /\ name q = d_name sample_local_data /\
    currentPrice q = d_price sample_local_data /\
    marketCap q = d_marketCap sample_local_data.
Proof.
  assert (H1 : stale_or_absent local_only "AAPL") by exact I.
  assert (H2 : localServer local_only (List.length (requests local_only)) (local_url "AAPL")
               = Response true (Some sample_local_data)) by reflexivity.
  assert (H3 : d_error sample_local_data = false) by reflexivity.
  split; [exact H1|]. split; [exact H2|]. split; [exact H3|].
  exact (@local_quote_skips_the_chart_endpoint exact_host "AAPL" local_only
           sample_local_data H1 H2 H3).
Defined.

Lemma fetchFromYahooFinanceDirect_returns_only_with_a_price_witness :
  let r := Handoff.fetchFromYahooFinanceDirect "AAPL" direct_only in
  let q := match fst r with Returns q => q | Throws => sample_quote "AAPL" end in
  Handoff.fetchFromYahooFinanceDirect "AAPL" direct_only = (Returns q, snd r) /\
  exists m closes,
    yahoo direct_only (List.length (requests direct_only)) (quote_url "AAPL")
    = Response true (Some (Some {| meta := Some m; close := closes |})) /\
    regularMarketPrice m <> JNull /\
    symbol q = "AAPL" /\ currentPrice q = regularMarketPrice m /\
    name q = or_else (shortName m) (or_else (longName m) "AAPL") /\
    currency q = or_else (m_currency m) "USD" /\
    (forall k, In k ["1M"; "YTD"; "1Y"; "5Y"] -> JS.get (performance q) k <> None) /\
    requests (snd r) = requests direct_only ++ quote_url "AAPL" :: range_urls "AAPL".
Proof.
  intros r q.
  assert (H : Handoff.fetchFromYahooFinanceDirect "AAPL" direct_only = (Returns q, snd r))
    by (vm_compute; reflexivity).
  split; [exact H|].
  exact (@fetchFromYahooFinanceDirect_returns_only_with_a_price exact_host "AAPL"
           direct_only q (snd r) H).
Defined.

Lemma failed_resolve_stores_nothing_witness :
  let m := {| e_symbol := "ZZZZ"; e_name := "ZZZZ"; error := true |} in
  fst (Handoff.fetchStockInfo "ZZZZ" aapl_cached) = Returns (Failed m) /\
  fst (Background.fetchStockInfo "ZZZZ" aapl_cached) = Returns (Failed m) /\
  same_storage aapl_cached (snd (Handoff.fetchStockInfo "ZZZZ" aapl_cached)) /\
  same_storage aapl_cached (snd (Background.fetchStockInfo "ZZZZ" aapl_cached)).
Proof.
  intros m.
  assert (H1 : fst (Handoff.fetchStockInfo "ZZZZ" aapl_cached) = Returns (Failed m))
    by reflexivity.
  assert (H2 : fst (Background.fetchStockInfo "ZZZZ" aapl_cached) = Returns (Failed m))
    by reflexivity.
  split; [exact H1|]. split; [exact H2|].
  destruct (@failed_resolve_stores_nothing exact_host "ZZZZ" aapl_cached m) as (A & B).
  split; [exact (A H1) | exact (B H2)].
Defined.

(** ** The ticker extraction of the content scripts *)

Section TickerFacts.
Import Content.

Lemma try_letters_Some k l run after :
  try_letters k l = Some (run, after) ->
  List.length run = k /\ forallb is_upper_letter run = true /\ l = run ++ after.
Proof.
  unfold try_letters.
  destruct (Nat.eqb_spec (List.length (firstn k l)) k) as [Hlen|]; [|discriminate].
  destruct (forallb is_upper_letter (firstn k l)) eqn:Hup; [|discriminate].
  destruct (word_boundary _ _); [|discriminate].
  intros [= <- <-]. repeat split; trivial. symmetry. apply firstn_skipn.
Qed.

Lemma match_letters_Some l run after :
  match_letters l = Some (run, after) ->
  1 <= List.length run <= 5 /\ forallb is_upper_letter run = true /\ l = run ++ after.
Proof.
  assert (G : forall k, 1 <= k <= 5 -> try_letters k l = Some (run, after) ->
            1 <= List.length run <= 5 /\ forallb is_upper_letter run = true /\
            l = run ++ after).
  { intros k Hk E. apply try_letters_Some in E as (Hlen & Hup & Hl).
    repeat split; trivial; lia. }
  unfold match_letters.
  destruct (try_letters 5 l) as [r5|] eqn:E5; [intros [= ->]; apply (G 5); [lia | exact E5]|].
  destruct (try_letters 4 l) as [r4|] eqn:E4; [intros [= ->]; apply (G 4); [lia | exact E4]|].
  destruct (try_letters 3 l) as [r3|] eqn:E3; [intros [= ->]; apply (G 3); [lia | exact E3]|].
  destruct (try_letters 2 l) as [r2|] eqn:E2; [intros [= ->]; apply (G 2); [lia | exact E2]|].
  intros E1. apply (G 1); [lia | exact E1].
Qed.

Lemma length_string_of_list l : String.length (string_of_list_ascii l) = List.length l.
Proof. induction l; simpl; congruence. Qed.

Lemma is_ticker_run run :
  1 <= List.length run <= 5 -> forallb is_upper_letter run = true ->
  is_ticker (string_of_list_ascii run) = true.
Proof.
  intros [H1 H5] Hup. unfold is_ticker.
  rewrite list_ascii_of_string_of_list_ascii, Hup, length_string_of_list.
  apply Nat.leb_le in H1, H5. now rewrite H1, H5.
Qed.

Lemma is_dollar_eq c : is_dollar c = true -> c = "$"%char.
Proof.
  unfold is_dollar. intros H. apply Nat.eqb_eq in H.
  rewrite <- (ascii_nat_embedding c), H. reflexivity.
Qed.

(** Every match is a ticker that stands in the text behind a dollar sign. *)
Lemma matches_from_sound fuel : forall l s,
  In s (matches_from fuel l) ->
  is_ticker s = true /\
  exists pre post, l = pre ++ "$"%char :: list_ascii_of_string s ++ post.
Proof.
  induction fuel as [|fuel IH]; intros l s; simpl; [contradiction|].
  destruct l as [|c rest]; [contradiction|].
  assert (Hrest : In s (matches_from fuel rest) ->
            is_ticker s = true /\
            exists pre post, c :: rest = pre ++ "$"%char :: list_ascii_of_string s ++ post).
  { intros H. apply IH in H as (Ht & pre & post & ->). split; [exact Ht|].
    now exists (c :: pre), post. }
  destruct (is_dollar c) eqn:Hc; [|exact Hrest].
  destruct (match_letters rest) as [[run after]|] eqn:Hm; [|exact Hrest].
  apply match_letters_Some in Hm as (Hlen & Hup & ->).
  apply is_dollar_eq in Hc as ->.
  intros [<-|H].
  - split; [now apply is_ticker_run|]. exists [], after.
    now rewrite list_ascii_of_string_of_list_ascii.
  - apply IH in H as (Ht & pre & post & ->). split; [exact Ht|].
    exists ("$"%char :: run ++ pre), post. simpl. now rewrite <- app_assoc.
Qed.

(** More fuel than the length of the text changes nothing. *)
Lemma matches_from_fuel n : forall l fuel1 fuel2,
  List.length l <= n -> List.length l <= fuel1 -> List.length l <= fuel2 ->
  matches_from fuel1 l = matches_from fuel2 l.
Proof.
  induction n as [|n IH]; intros l fuel1 fuel2 Hn H1 H2.
  - destruct l; [|simpl in Hn; lia]. now destruct fuel1, fuel2.
  - destruct l as [|c rest]; [now destruct fuel1, fuel2|].
    destruct fuel1 as [|f1]; [simpl in H1; lia|].
    destruct fuel2 as [|f2]; [simpl in H2; lia|].
    simpl in *.
    assert (Hr : matches_from f1 rest = matches_from f2 rest) by (apply IH; lia).
    destruct (is_dollar c); [|exact Hr].
    destruct (match_letters rest) as [[run after]|] eqn:Hm; [|exact Hr].
    apply match_letters_Some in Hm as (_ & _ & ->). rewrite length_app in *.
    f_equal. apply IH; lia.
Qed.

Lemma matches_from_no_dollar fuel : forall l,
  (forall c, In c l -> is_dollar c = false) -> matches_from fuel l = [].
Proof.
  induction fuel as [|fuel IH]; intros l H; simpl; [reflexivity|].
  destruct l as [|c rest]; [reflexivity|].
  rewrite (H c) by now left. apply IH. intros c' Hc'. apply H. now right.
Qed.

Lemma array_includes_In a x : JSMore.array_includes a x = true <-> In x a.
Proof.
  unfold JSMore.array_includes. rewrite existsb_exists. split.
  - intros (y & Hy & E). apply String.eqb_eq in E. now subst.
  - intros H. exists x. split; [exact H | apply String.eqb_refl].
Qed.

Lemma dedupe_spec a :
  NoDup (JSMore.dedupe a) /\ forall x, In x (JSMore.dedupe a) <-> In x a.
Proof.
  unfold JSMore.dedupe.
  assert (G : forall seen,
            NoDup seen ->
            NoDup (fold_left (fun seen x =>
                     if JSMore.array_includes seen x then seen else seen ++ [x]) a seen) /\
            forall x, In x (fold_left (fun seen x =>
                     if JSMore.array_includes seen x then seen else seen ++ [x]) a seen)
                      <-> In x seen \/ In x a).
  { induction a as [|y a IH]; intros seen Hnd; simpl; [split; [exact Hnd | tauto]|].
    destruct (JSMore.array_includes seen y) eqn:E.
    - destruct (IH seen Hnd) as [A B]. split; [exact A|]. intros x. rewrite B.
      apply array_includes_In in E. split; [tauto|]. intros [H|[<-|H]]; tauto.
    - assert (Hy : ~ In y seen).
      { intros H. apply array_includes_In in H. congruence. }
      assert (Hnd' : NoDup (seen ++ [y])).
      { apply NoDup_app; [exact Hnd | repeat constructor; simpl; tauto|].
        intros z Hz [<-|[]]. contradiction. }
      destruct (IH _ Hnd') as [A B]. split; [exact A|]. intros x. rewrite B, in_app_iff.
      simpl. tauto. }
  destruct (G [] (NoDup_nil _)) as [A B]. split; [exact A|].
  intros x. rewrite B. simpl. tauto.
Qed.

End TickerFacts.

(** X16.  [extractTickers] returns distinct symbols; each one is made of one
    to five capital letters and stands in the text right behind a dollar
    sign.  A text without a dollar sign has no ticker.  The bound on the
    positions tried is never reached: a larger one gives the same matches. *)
Theorem extractTickers_spec text :
  NoDup (Content.extractTickers text) /\
  (forall s, In s (Content.extractTickers text) ->
     is_ticker s = true /\
     exists pre post,
       list_ascii_of_string text = pre ++ "$"%char :: list_ascii_of_string s ++ post) /\
  ((forall c, In c (list_ascii_of_string text) -> Content.is_dollar c = false) ->
   Content.extractTickers text = []) /\
  (forall more,
     Content.matches_from (String.length text + more) (list_ascii_of_string text)
     = Content.ticker_matches text).
Proof.
  unfold Content.extractTickers.
  destruct (dedupe_spec (Content.ticker_matches text)) as [Hnd Hin].
  split; [exact Hnd|]. split; [|split].
  - intros s Hs. apply Hin in Hs. now apply matches_from_sound in Hs.
  - intros H. unfold Content.ticker_matches. now rewrite matches_from_no_dollar.
  - intros more. unfold Content.ticker_matches.
    assert (Hl : List.length (list_ascii_of_string text) = String.length text).
    { rewrite <- (length_string_of_list (list_ascii_of_string text)).
      now rewrite string_of_list_ascii_of_string. }
    apply matches_from_fuel with (n := String.length text); lia.
Qed.

Lemma extractTickers_spec_witness :
  let text := "Long $AAPL and $TSLA, not $aapl, $TOOLONG or $GOOG1; more $AAPL." in
  In "TSLA" (Content.extractTickers text) /\
  (forall c, In c (list_ascii_of_string "no tickers here") -> Content.is_dollar c = false) /\
  Content.extractTickers text = ["AAPL"; "TSLA"] /\
  is_ticker "TSLA" = true /\
  (exists pre post,
     list_ascii_of_string text = pre ++ "$"%char :: list_ascii_of_string "TSLA" ++ post) /\
  Content.extractTickers "no tickers here" = [].
Proof.
  intros text.
  assert (H1 : In "TSLA" (Content.extractTickers text)) by (vm_compute; tauto).
  assert (H2 : forall c, In c (list_ascii_of_string "no tickers here") ->
                         Content.is_dollar c = false).
  { intros c Hc. simpl in Hc.
    repeat (destruct Hc as [<-|Hc]; [reflexivity|]). contradiction. }
  split; [exact H1|]. split; [exact H2|]. split; [reflexivity|].
  destruct (extractTickers_spec text) as (_ & A & _).
  destruct (extractTickers_spec "no tickers here") as (_ & _ & B & _).
  destruct (A "TSLA" H1) as (A1 & A2).
  split; [exact A1|]. split; [exact A2 | exact (B H2)].
Defined.

(** ** The filters of the dashboard *)

Section FilterFacts.




Lemma filter_all {A} (p : A -> bool) l : (forall x, In x l -> p x = true) -> filter p l = l.
Proof.
  induction l as [|x l IH]; simpl; [reflexivity|].
  intros H. rewrite (H x) by now left. f_equal. apply IH. intros y Hy. apply H. now right.
Qed.




End FilterFacts.



(** X18.  [applyAuthorFilters] lists exactly the authors that match the
    search, each as often as it is stored, with the larger tweet counts
    first and authors of one count in the order of the stored map.  With an
    empty search it lists every author. *)
Theorem applyAuthorFilters_spec allAuthors search :
  let shown := Dashboard.applyAuthorFilters allAuthors search in
  let count := fun a : AuthorTag => Z.of_nat (tweetCount a) in
  Permutation shown (filter (Dashboard.keeps_author search) (JSMore.values allAuthors)) /\
  StronglySorted (fun a b => tweetCount b <= tweetCount a) shown /\
  (forall n, filter (has_key count n) shown
             = filter (has_key count n)
                 (filter (Dashboard.keeps_author search) (JSMore.values allAuthors))) /\
  (search = "" -> Permutation shown (JSMore.values allAuthors) /\
                  List.length shown = List.length allAuthors).
Proof.
  intros shown count. unfold shown, Dashboard.applyAuthorFilters.
  change Dashboard.by_tweetCount with (descending count).
  split; [apply sort_Permutation|]. split; [|split].
  - apply (StronglySorted_weaken (R := ge_key count)); [|apply sort_sorted].
    unfold ge_key, count. intros a b. lia.
  - intros n. apply sort_stable.
  - intros ->.
    assert (E : filter (Dashboard.keeps_author "") (JSMore.values allAuthors)
                = JSMore.values allAuthors) by (apply filter_all; reflexivity).
    rewrite E. split; [apply sort_Permutation|].
    rewrite sort_length. unfold JSMore.values. apply length_map.
Qed.

Lemma applyAuthorFilters_spec_witness :
  let allAuthors := [("bob", sample_tag "bob" 1); ("carol", sample_tag "carol" 2)] in
  let shown := Dashboard.applyAuthorFilters allAuthors "" in
  "" = "" /\
  shown = [sample_tag "carol" 2; sample_tag "bob" 1] /\
  Permutation shown (JSMore.values allAuthors) /\
  List.length shown = List.length allAuthors.
Proof.
  intros allAuthors shown. split; [reflexivity|]. split; [reflexivity|].
  destruct (applyAuthorFilters_spec allAuthors "") as (_ & _ & _ & A).
  exact (A eq_refl).
Defined.

(** ** The preview of the popup *)

Section TruncateFacts.

Lemma length_append s1 s2 :
  String.length (s1 ++ s2) = String.length s1 + String.length s2.
Proof. induction s1; simpl; congruence. Qed.

Lemma substring_split n : forall s,
  n <= String.length s ->
  String.length (String.substring 0 n s) = n /\
  exists rest, s = (String.substring 0 n s ++ rest)%string.
Proof.
  induction n as [|n IH]; intros s H.
  - destruct s; simpl; (split; [reflexivity | now eexists]).
  - destruct s as [|c s]; simpl in *; [lia|].
    destruct (IH s) as (Hl & rest & Hr); [lia|].
    split; [now rewrite Hl|]. exists rest. now rewrite <- Hr.
Qed.

End TruncateFacts.

(** X19.  [truncate] returns a text that fits in the given length unchanged;
    a longer text becomes its first [maxLength] characters followed by three
    dots.  So the result is never longer than [maxLength + 3]. *)
Theorem truncate_spec t maxLength :
  (String.length t <= maxLength -> Popup.truncate t maxLength = t) /\
  (maxLength < String.length t ->
   exists head rest,
     t = (head ++ rest)%string /\ String.length head = maxLength /\
     Popup.truncate t maxLength = (head ++ "...")%string) /\
  String.length (Popup.truncate t maxLength) <= maxLength + 3.
Proof.
  unfold Popup.truncate, Popup.slice_to.
  destruct (Nat.leb_spec (String.length t) maxLength) as [Hle|Hgt].
  - split; [reflexivity|]. split; [lia|]. lia.
  - destruct (@substring_split maxLength t) as (Hl & rest & Hr); [lia|].
    split; [lia|]. split.
    + intros _. exists (String.substring 0 maxLength t), rest. now repeat split.
    + rewrite length_append, Hl. simpl. lia.
Qed.

Lemma truncate_spec_witness :
  (String.length "AAPL" <= 60 /\ 5 < String.length "hello world") /\
  Popup.truncate "AAPL" 60 = "AAPL" /\
  exists head rest,
    "hello world" = (head ++ rest)%string /\ String.length head = 5 /\
    Popup.truncate "hello world" 5 = (head ++ "...")%string.
Proof.
  assert (H1 : String.length "AAPL" <= 60) by (vm_compute; lia).
  assert (H2 : 5 < String.length "hello world") by (vm_compute; lia).
  split; [now split|].
  split; [exact (proj1 (truncate_spec "AAPL" 60) H1)
         | exact (proj1 (proj2 (truncate_spec "hello world" 5)) H2)].
Defined.

(** ** The symbol normalisation of the local server *)

Section NormaliseFacts.

Import StockServer.

Lemma upper_char_idem c : upper_char (upper_char c) = upper_char c.
Proof. destruct c as [[] [] [] [] [] [] [] []]; reflexivity. Qed.

Lemma is_space_upper c : is_space (upper_char c) = is_space c.
Proof. destruct c as [[] [] [] [] [] [] [] []]; reflexivity. Qed.

Lemma upper_idem s : upper (upper s) = upper s.
Proof. induction s as [|c s IH]; simpl; [reflexivity|]. now rewrite upper_char_idem, IH. Qed.

Lemma upper_app a b : upper (a ++ b) = (upper a ++ upper b)%string.
Proof. induction a as [|c a IH]; simpl; [reflexivity|]. now rewrite IH. Qed.

Lemma upper_lstrip s : upper (lstrip s) = lstrip (upper s).
Proof.
  induction s as [|c s IH]; simpl; [reflexivity|].
  rewrite is_space_upper. now destruct (is_space c).
Qed.

Lemma upper_as_map s :
  upper s = string_of_list_ascii (map upper_char (list_ascii_of_string s)).
Proof. induction s as [|c s IH]; simpl; [reflexivity|]. now rewrite IH. Qed.

Lemma upper_reverse s : upper (reverse s) = reverse (upper s).
Proof.
  unfold reverse. rewrite !upper_as_map, !list_ascii_of_string_of_list_ascii.
  now rewrite map_rev.
Qed.

Lemma upper_strip s : upper (strip s) = strip (upper s).
Proof.
  unfold strip, rstrip. now rewrite upper_reverse, upper_lstrip, upper_reverse, upper_lstrip.
Qed.

Lemma all_space_upper p : all_space (upper p) = all_space p.
Proof.
  unfold all_space. induction p as [|c p IH]; simpl; [reflexivity|].
  now rewrite is_space_upper, IH.
Qed.

Lemma list_of_append a b :
  list_ascii_of_string (a ++ b) = list_ascii_of_string a ++ list_ascii_of_string b.
Proof. induction a as [|c a IH]; simpl; [reflexivity|]. now rewrite IH. Qed.

Lemma string_of_app x y :
  string_of_list_ascii (x ++ y) = (string_of_list_ascii x ++ string_of_list_ascii y)%string.
Proof. induction x as [|c x IH]; simpl; [reflexivity|]. now rewrite IH. Qed.

Lemma reverse_app a b : reverse (a ++ b) = (reverse b ++ reverse a)%string.
Proof. unfold reverse. now rewrite list_of_append, rev_app_distr, string_of_app. Qed.

Lemma all_space_reverse p : all_space (reverse p) = all_space p.
Proof.
  unfold all_space, reverse. rewrite list_ascii_of_string_of_list_ascii. apply forallb_rev.
Qed.

Lemma all_space_app a b : all_space (a ++ b) = all_space a && all_space b.
Proof. unfold all_space. rewrite list_of_append. apply forallb_app. Qed.

Lemma lstrip_pad p s : all_space p = true -> lstrip (p ++ s) = lstrip s.
Proof.
  unfold all_space. induction p as [|c p IH]; simpl; [reflexivity|].
  intros H. apply andb_true_iff in H as [Hc Hp]. rewrite Hc. now apply IH.
Qed.

Lemma lstrip_all_space s : all_space s = true <-> lstrip s = "".
Proof.
  unfold all_space. induction s as [|c s IH]; simpl; [tauto|].
  destruct (is_space c); simpl; [exact IH|]. split; discriminate.
Qed.

Lemma lstrip_head s :
  lstrip s = "" \/ exists c r, lstrip s = String c r /\ is_space c = false.
Proof.
  induction s as [|c s IH]; simpl; [now left|].
  destruct (is_space c) eqn:E; [exact IH|]. right. now exists c, s.
Qed.

Lemma lstrip_app s p : lstrip s <> "" -> lstrip (s ++ p) = (lstrip s ++ p)%string.
Proof.
  induction s as [|c s IH]; simpl; [congruence|].
  destruct (is_space c); [exact IH | reflexivity].
Qed.

Lemma lstrip_decomp s : exists p, all_space p = true /\ s = (p ++ lstrip s)%string.
Proof.
  induction s as [|c s IH]; simpl; [now exists ""|].
  destruct (is_space c) eqn:E; [|now exists ""].
  destruct IH as (p & Hp & Hs). exists (String c p). split.
  - unfold all_space in *. simpl. now rewrite E.
  - simpl. now rewrite <- Hs.
Qed.

Lemma lstrip_idem s : lstrip (lstrip s) = lstrip s.
Proof.
  destruct (lstrip_head s) as [E | (c & r & E & Hc)]; rewrite E; [reflexivity|].
  simpl. now rewrite Hc.
Qed.

Lemma rstrip_pad s p : all_space p = true -> rstrip (s ++ p) = rstrip s.
Proof.
  intros H. unfold rstrip. rewrite reverse_app, lstrip_pad; [reflexivity|].
  now rewrite all_space_reverse.
Qed.

Lemma rstrip_idem s : rstrip (rstrip s) = rstrip s.
Proof. unfold rstrip. now rewrite reverse_involutive, lstrip_idem. Qed.

Lemma rstrip_decomp s : exists p, all_space p = true /\ s = (rstrip s ++ p)%string.
Proof.
  destruct (lstrip_decomp (reverse s)) as (p & Hp & Hs).
  exists (reverse p). split; [now rewrite all_space_reverse|].
  unfold rstrip. rewrite <- reverse_app, <- Hs. symmetry. apply reverse_involutive.
Qed.

Lemma lstrip_rstrip s : lstrip (rstrip (lstrip s)) = rstrip (lstrip s).
Proof.
  destruct (lstrip_head s) as [E | (c & r & E & Hc)]; rewrite E; [reflexivity|].
  destruct (rstrip_decomp (String c r)) as (p & _ & Hs).
  destruct (rstrip (String c r)) as [|c' r'] eqn:Er; [reflexivity|].
  simpl in Hs. injection Hs as -> _. simpl. now rewrite Hc.
Qed.

Lemma strip_idem s : strip (strip s) = strip s.
Proof. unfold strip. now rewrite lstrip_rstrip, rstrip_idem. Qed.

Lemma strip_pad p1 s p2 :
  all_space p1 = true -> all_space p2 = true -> strip (p1 ++ s ++ p2) = strip s.
Proof.
  intros H1 H2. unfold strip. rewrite lstrip_pad by exact H1.
  destruct (lstrip s) as [|c r] eqn:E.
  - assert (A : lstrip (s ++ p2) = "").
    { apply lstrip_all_space. rewrite all_space_app, H2.
      apply lstrip_all_space in E. now rewrite E. }
    now rewrite A.
  - rewrite lstrip_app by congruence. rewrite E. now apply rstrip_pad.
Qed.

End NormaliseFacts.

(** X20.  On symbols of code units below 128, the normalisation of
    [get_quote] is idempotent, and white space around a symbol does not
    change its normalised form: the cache of the server has one key for all
    the spellings of a symbol that differ in padding. *)
Theorem normalize_spec sym pad1 pad2 :
  below_128 sym = true -> all_space pad1 = true -> all_space pad2 = true ->
  StockServer.normalize (StockServer.normalize sym) = StockServer.normalize sym /\
  StockServer.normalize (pad1 ++ sym ++ pad2) = StockServer.normalize sym.
Proof.
  intros _ H1 H2. unfold StockServer.normalize. split.
  - now rewrite upper_strip, upper_idem, strip_idem.
  - rewrite !upper_app. apply strip_pad; now rewrite all_space_upper.
Qed.

Lemma normalize_spec_witness :
  (below_128 "aapl" = true /\ all_space " " = true /\ all_space "  " = true) /\
  StockServer.normalize " aapl  " = "AAPL" /\
  StockServer.normalize (StockServer.normalize "aapl") = StockServer.normalize "aapl" /\
  StockServer.normalize (" " ++ "aapl" ++ "  ") = StockServer.normalize "aapl".
Proof.
  assert (H0 : below_128 "aapl" = true) by reflexivity.
  assert (H1 : all_space " " = true) by reflexivity.
  assert (H2 : all_space "  " = true) by reflexivity.
  split; [now repeat split|]. split; [reflexivity|].
  exact (@normalize_spec "aapl" " " "  " H0 H1 H2).
Defined.
